(** * Transcript clean-up: label plumbing around the tagging models

    A shallow embedding of the Python sources under [ml/]:
    the bracket-annotation parsers of [ml/training/train_filler.py] and
    [ml/training/train_repetition.py], the word/subword label alignment,
    the repetition-versus-repair filter of
    [ml/training/train_repetition_only.py], the tagger classes of
    [ml/pipeline/models.py], the pipeline of [ml/pipeline/pipeline.py] and
    the request handler of [ml/server.py].

    Python [str] values are [string]s.  Characters are 8-bit codes and the
    character classes ([str.isspace], the pattern classes [\s] and [\w],
    [str.lower]) are the ones Python uses on the ASCII range; codes above
    127 are neither white space nor word characters and have no case, so
    on case and white space the embedding is Python's for ASCII strings
    ([Py.isascii]).  A Python exception ([IndexError], [KeyError],
    [OverflowError]) is the result [None]. *)

From Stdlib Require Import ZArith QArith Ascii String DecimalString.
From stdpp Require Import base option list gmap strings.

Local Open Scope string_scope.
Local Open Scope list_scope.
Local Open Scope nat_scope.

(* ===================================================================== *)
(** * Python strings *)
(* ===================================================================== *)

Module Py.

(** [len(s)] *)
Definition len (s : string) : nat := String.length s.

(** [str.isspace] on one ASCII character, which is also the pattern class
    [\s] there: TAB, LF, VT, FF, CR, the separators 0x1c-0x1f and the
    blank. *)
Definition isspace (c : ascii) : bool :=
  let n := nat_of_ascii c in
  ((9 <=? n) && (n <=? 13)) || ((28 <=? n) && (n <=? 32)).

Definition isupper (c : ascii) : bool :=
  let n := nat_of_ascii c in (65 <=? n) && (n <=? 90).

Definition islower (c : ascii) : bool :=
  let n := nat_of_ascii c in (97 <=? n) && (n <=? 122).

Definition isdigit (c : ascii) : bool :=
  let n := nat_of_ascii c in (48 <=? n) && (n <=? 57).

(** The pattern class [\w] on ASCII characters: letters, digits and the
    underscore. *)
Definition isword (c : ascii) : bool :=
  isupper c || islower c || isdigit c || Ascii.eqb c "_".

(** [c.lower()] for an ASCII character *)
Definition lower_char (c : ascii) : ascii :=
  if isupper c then ascii_of_nat (nat_of_ascii c + 32) else c.

(** [s.lower()] *)
Fixpoint lower (s : string) : string :=
  match s with
  | EmptyString => EmptyString
  | String c s' => String (lower_char c) (lower s')
  end.

(** [s.isascii()]: every character of [s] is below 128.  On such strings
    the classes above and [lower] are those of Python. *)
Fixpoint isascii (s : string) : bool :=
  match s with
  | EmptyString => true
  | String c s' => (nat_of_ascii c <? 128) && isascii s'
  end.

(** The longest prefix of [s] whose characters satisfy [p], and what
    follows it: how a greedy character-class repetition consumes input. *)
Fixpoint span (p : ascii -> bool) (s : string) : string * string :=
  match s with
  | EmptyString => (EmptyString, EmptyString)
  | String c s' =>
      if p c then let (a, b) := span p s' in (String c a, b)
      else (EmptyString, s)
  end.

(** [s[n:]] *)
Fixpoint drop (n : nat) (s : string) : string :=
  match n, s with
  | 0, _ => s
  | S n', String _ s' => drop n' s'
  | S _, EmptyString => EmptyString
  end.

Definition lstrip (s : string) : string := snd (span isspace s).

Fixpoint rstrip (s : string) : string :=
  match s with
  | EmptyString => EmptyString
  | String c s' =>
      match rstrip s' with
      | EmptyString => if isspace c then EmptyString else String c EmptyString
      | t => String c t
      end
  end.

(** [s.strip()] *)
Definition strip (s : string) : string := rstrip (lstrip s).

(** [s.replace(c, '')] for a one-character [c] *)
Fixpoint remove_char (c : ascii) (s : string) : string :=
  match s with
  | EmptyString => EmptyString
  | String d s' =>
      if Ascii.eqb d c then remove_char c s' else String d (remove_char c s')
  end.

(** [s.startswith(p)] *)
Definition startswith (p s : string) : bool := String.prefix p s.

(** [needle in hay] on strings: [needle] occurs as a substring. *)
Fixpoint contains (needle hay : string) : bool :=
  String.prefix needle hay ||
  match hay with
  | EmptyString => false
  | String _ hay' => contains needle hay'
  end.

Definition cons_nonempty (w : string) (ws : list string) : list string :=
  match w with
  | EmptyString => ws
  | _ => w :: ws
  end.

(** [split_aux s] reads [s] from the right: the word that is still open at
    the left end of [s], and the words completed behind it. *)
Fixpoint split_aux (s : string) : string * list string :=
  match s with
  | EmptyString => (EmptyString, [])
  | String c s' =>
      let (w, ws) := split_aux s' in
      if isspace c then (EmptyString, cons_nonempty w ws)
      else (String c w, ws)
  end.

(** [s.split()]: the maximal runs of characters that are not white space. *)
Definition split (s : string) : list string :=
  let (w, ws) := split_aux s in cons_nonempty w ws.

(** [sep.join(ws)] *)
Fixpoint join (sep : string) (ws : list string) : string :=
  match ws with
  | [] => EmptyString
  | [w] => w
  | w :: ws' => w +:+ sep +:+ join sep ws'
  end.

(** [s.split(sep)] for a one-character separator: never the empty list. *)
Fixpoint split_on (sep : ascii) (s : string) : list string :=
  match s with
  | EmptyString => [EmptyString]
  | String c s' =>
      if Ascii.eqb c sep then EmptyString :: split_on sep s'
      else match split_on sep s' with
           | w :: ws => String c w :: ws
           | [] => [String c EmptyString]
           end
  end.

(** [str(n)] for a natural number *)
Definition str_of_nat (n : nat) : string :=
  NilEmpty.string_of_uint (Nat.to_uint n).

(** [l[i]] with Python's negative indices; [None] is [IndexError]. *)
Definition index {A} (l : list A) (i : Z) : option A :=
  let n := Z.of_nat (length l) in
  if (0 <=? i)%Z then l !! Z.to_nat i
  else if (0 <=? i + n)%Z then l !! Z.to_nat (i + n)
  else None.

(** [enumerate(l)] starting at [i] *)
Fixpoint enumerate_from {A} (i : nat) (l : list A) : list (nat * A) :=
  match l with
  | [] => []
  | x :: l' => (i, x) :: enumerate_from (S i) l'
  end.

Definition enumerate {A} (l : list A) : list (nat * A) := enumerate_from 0 l.

(** [sys.maxsize] of a 64-bit build: the largest [Py_ssize_t] *)
Definition maxsize : Z := 2 ^ 63 - 1.

(** [l.insert(index, x)]: the index is converted to a [Py_ssize_t], and
    [None] is the [OverflowError] of an index that does not fit; a
    negative index counts from the end, and an index beyond either end is
    moved to that end. *)
Definition insert {A} (l : list A) (index : Z) (x : A) : option (list A) :=
  if ((index <? - maxsize - 1) || (maxsize <? index))%Z then None else
  let n := Z.of_nat (length l) in
  let i := if (index <? 0)%Z then Z.max 0 (index + n) else Z.min index n in
  Some (firstn (Z.to_nat i) l ++ x :: skipn (Z.to_nat i) l).

End Py.


(* ===================================================================== *)
(** * The patterns of the annotation parsers *)
(* ===================================================================== *)

(** Each matcher is [re.match(pattern, s)]: [None] when the pattern does
    not match at the start of [s], otherwise the captured groups and
    [match.end()], the number of characters matched. *)

Module Re.

Definition is_not (c : ascii) : ascii -> bool := fun d => negb (Ascii.eqb d c).

(** The last character of a non-empty string, as a string. *)
Fixpoint last_char (s : string) : string :=
  match s with
  | EmptyString => EmptyString
  | String c EmptyString => String c EmptyString
  | String _ s' => last_char s'
  end.

(** [<[^>]+>] *)
Definition match_markup (s : string) : option nat :=
  match s with
  | String "<" r =>
      let (g, r') := Py.span (is_not ">") r in
      match g, r' with
      | String _ _, String _ _ => Some (1 + Py.len g + 1)
      | _, _ => None
      end
  | _ => None
  end.

(** [\{T\s+([^}]+)\}] for the letter [T].  The white space is taken
    greedily, then the group runs up to the closing brace.  When only
    white space stands before the brace, [\s+] gives its last character
    back to the group. *)
Definition match_braced (T : ascii) (s : string) : option (string * nat) :=
  match s with
  | String "{" (String t r) =>
      if Ascii.eqb t T then
        let (w, r1) := Py.span Py.isspace r in
        let (g, r2) := Py.span (is_not "}") r1 in
        match w, g, r2 with
        | EmptyString, _, _ => None
        | _, String _ _, String _ _ => Some (g, 2 + Py.len w + Py.len g + 1)
        | String _ (String _ _), EmptyString, String _ _ =>
            Some (last_char w, 2 + Py.len w + 1)
        | _, _, _ => None
        end
      else None
  | _ => None
  end.

(** The repair pattern: an opening bracket, [\s*], the group [[^+\]]*],
    a plus sign, [\s*], the group [[^\]]*] and a closing bracket.  Every
    repetition is greedy, and no shorter choice can make the rest match. *)
Definition match_repair (s : string) : option (string * string * nat) :=
  match s with
  | String "[" r =>
      let (w1, r1) := Py.span Py.isspace r in
      let (g1, r2) :=
        Py.span (fun c => negb (Ascii.eqb c "+") && negb (Ascii.eqb c "]")) r1 in
      match r2 with
      | String "+" r3 =>
          let (w2, r4) := Py.span Py.isspace r3 in
          let (g2, r5) := Py.span (is_not "]") r4 in
          match r5 with
          | String _ _ =>
              Some (g1, g2,
                    1 + Py.len w1 + Py.len g1 + 1 + Py.len w2 + Py.len g2 + 1)
          | EmptyString => None
          end
      | _ => None
      end
  | _ => None
  end.

(** [[\w']+] *)
Definition match_word (s : string) : option (string * nat) :=
  let (g, _) := Py.span (fun c => Py.isword c || Ascii.eqb c "'") s in
  match g with
  | EmptyString => None
  | _ => Some (g, Py.len g)
  end.

(** [(?<!^)(\s-\s)(?=[A-Z])] tried at offset [pos] of the subject, [s]
    being the subject from there on. *)
Definition match_bullet (pos : nat) (s : string) : option nat :=
  match pos, s with
  | S _, String a (String "-" (String b (String c _))) =>
      if Py.isspace a && Py.isspace b && Py.isupper c then Some 3 else None
  | _, _ => None
  end.

(** [re.sub(pattern, repl, s)] for a pattern that matches no empty string
    and a replacement without group references: the subject is scanned
    from the left, a match is replaced and the scan resumes behind it.
    [skip] counts the characters of the current match still to pass. *)
Fixpoint sub_go (m : nat -> string -> option nat) (repl : string)
    (pos skip : nat) (s : string) : string :=
  match s with
  | EmptyString => EmptyString
  | String c s' =>
      match skip with
      | S k => sub_go m repl (S pos) k s'
      | 0 =>
          match m pos s with
          | Some (S k) => repl +:+ sub_go m repl (S pos) k s'
          | _ => String c (sub_go m repl (S pos) 0 s')
          end
      end
  end.

Definition sub (m : nat -> string -> option nat) (repl s : string) : string :=
  sub_go m repl 0 0 s.

End Re.

(* ===================================================================== *)
(** * AnnotationParser: the two parsers of the training scripts *)
(* ===================================================================== *)

(** The parser state: the lists [tokens] and [tags]. *)
Definition parse_state : Type := list string * list string.

(** Python's truth value of a string *)
Definition truthy (s : string) : bool :=
  match s with EmptyString => false | _ => true end.

(** [for j, word in enumerate(words): if keep(word): tokens.append(
    word.lower()); tags.append(tag(j))] *)
Definition append_words (keep : string -> bool) (tag : nat -> string)
    (words : list string) (st : parse_state) : parse_state :=
  foldl (fun (st : parse_state) (jw : nat * string) =>
           if keep jw.2
           then (st.1 ++ [Py.lower jw.2], st.2 ++ [tag jw.1])
           else st)
        st (Py.enumerate words).

(** [content.replace(',', '').split()] after [content = group.strip()] *)
Definition words_of (group : string) : list string :=
  Py.split (Py.remove_char "," (Py.strip group)).

Definition not_fragment (word : string) : bool :=
  truthy word && negb (Py.startswith "-" word).

(* ===================================================================== *)
(** * LabelAligner, training direction *)
(* ===================================================================== *)

(** A Python dict built by assigning the pairs in order. *)
Definition dict_of `{Countable K} {V} (kvs : list (K * V)) : gmap K V :=
  foldl (fun (d : gmap K V) (kv : K * V) => <[kv.1 := kv.2]> d) ∅ kvs.

(** [{label: i for i, label in enumerate(LABEL_LIST)}] *)
Definition label2id (LABEL_LIST : list string) : gmap string Z :=
  dict_of ((fun il : nat * string => (il.2, Z.of_nat il.1))
             <$> Py.enumerate LABEL_LIST).

(** [{i: label for i, label in enumerate(LABEL_LIST)}] *)
Definition id2label_of (LABEL_LIST : list string) : gmap Z string :=
  dict_of ((fun il : nat * string => (Z.of_nat il.1, il.2))
             <$> Py.enumerate LABEL_LIST).

(** [[LABEL2ID[t] for t in tags]]; [None] is the [KeyError] of a tag
    outside the label list. *)
Definition encode_tags (LABEL2ID : gmap string Z) (tags : list string)
    : option (list Z) :=
  mapM (fun t => LABEL2ID !! t) tags.

Section Align.

(** The three training scripts carry the same [tokenize_and_align_labels];
    they differ in the label list and in the names of the begin and the
    inside tag. *)
Variable LABEL_LIST : list string.
Variable LABEL2ID : gmap string Z.
Variables B_TAG I_TAG : string.

(** The inner loop for one example: [label] holds the label ids of the
    words, [word_ids] the word index of each subword ([None] for a special
    token).  [None] is an [IndexError] or a [KeyError]. *)
Fixpoint align_loop (label : list Z) (word_ids : list (option nat))
    (previous_word_idx : option nat) (label_ids : list Z) : option (list Z) :=
  match word_ids with
  | [] => Some label_ids
  | word_idx :: word_ids' =>
      match word_idx with
      | None =>
          align_loop label word_ids' word_idx (label_ids ++ [(-100)%Z])
      | Some w =>
          if decide (word_idx ≠ previous_word_idx) then
            l ← label !! w;
            align_loop label word_ids' word_idx (label_ids ++ [l])
          else
            orig_label ← label !! w;
            name ← Py.index LABEL_LIST orig_label;
            if String.eqb name B_TAG then
              i ← LABEL2ID !! I_TAG;
              align_loop label word_ids' word_idx (label_ids ++ [i])
            else
              align_loop label word_ids' word_idx (label_ids ++ [orig_label])
      end
  end.

Definition align_labels (label : list Z) (word_ids : list (option nat))
    : option (list Z) :=
  align_loop label word_ids None [].

End Align.

Module TrainFiller.

Definition LABEL_LIST : list string := ["O"; "B-FILL"; "I-FILL"]%string.
Definition LABEL2ID : gmap string Z := label2id LABEL_LIST.
Definition ID2LABEL : gmap Z string := id2label_of LABEL_LIST.

Definition bi_tag (j : nat) : string :=
  if Nat.eqb j 0 then "B-FILL"%string else "I-FILL"%string.

Definition o_tag (_ : nat) : string := "O"%string.

(** The [while i < len(text)] loop of [parse_fillers_only]; [None] only
    when [fuel] iterations were not enough. *)
Fixpoint parse_loop (fuel : nat) (text : string) (i : nat) (st : parse_state)
    : option parse_state :=
  if Py.len text <=? i then Some st else
  match fuel with
  | 0 => None
  | S fuel' =>
      let rest := Py.drop i text in
      match Re.match_braced "F" rest with
      | Some (g, e) =>
          parse_loop fuel' text (i + e)
            (append_words truthy bi_tag (words_of g) st)
      | None =>
      match Re.match_braced "D" rest with
      | Some (g, e) =>
          parse_loop fuel' text (i + e)
            (append_words truthy o_tag (words_of g) st)
      | None =>
      match Re.match_braced "C" rest with
      | Some (g, e) =>
          parse_loop fuel' text (i + e)
            (append_words truthy o_tag (words_of g) st)
      | None =>
      match Re.match_repair rest with
      | Some (before, after, e) =>
          parse_loop fuel' text (i + e)
            (foldl (fun st part =>
                      append_words not_fragment o_tag
                        (Py.split (Py.remove_char "," part)) st)
                   st [Py.strip before; Py.strip after])
      | None =>
      match Re.match_word rest with
      | Some (word, e) =>
          parse_loop fuel' text (i + e)
            (st.1 ++ [Py.lower word], st.2 ++ ["O"%string])
      | None => parse_loop fuel' text (i + 1) st
      end end end end end
  end.

Definition parse_fillers_only (annotated : string) : option parse_state :=
  let text := Re.sub (fun _ => Re.match_markup) "" annotated in
  parse_loop (Py.len text) text 0 ([], []).

(** [tokenize_and_align_labels], for one example of the batch *)
Definition tokenize_and_align_labels :=
  align_labels LABEL_LIST LABEL2ID "B-FILL" "I-FILL".

(** What the loop of [prepare_dataset] builds *)
Record dataset := {
  all_tokens : list (list string);
  all_tags : list (list Z);
  filler_count : nat
}.

(** The body of the loop of [prepare_dataset] for one annotated
    transcript.  [None] is the [KeyError] of a tag without label id (or a
    parser loop that ran out of fuel). *)
Definition add_example (acc : dataset) (transcript_annotated : string)
    : option dataset :=
  st ← parse_fillers_only transcript_annotated;
  match st.1 with
  | [] => Some acc
  | _ =>
      tag_ids ← encode_tags LABEL2ID st.2;
      Some {| all_tokens := all_tokens acc ++ [st.1];
              all_tags := all_tags acc ++ [tag_ids];
              filler_count :=
                filler_count acc
                + length (filter (fun t => t <> "O"%string) st.2) |}
  end.

(** The loop of [prepare_dataset] over the transcripts of the corpus *)
Definition collect_examples (transcripts : list string) : option dataset :=
  foldl (fun (acc : option dataset) (t : string) => a ← acc; add_example a t)
        (Some {| all_tokens := []; all_tags := []; filler_count := 0 |})
        transcripts.

End TrainFiller.

Module TrainRepetition.

Definition LABEL_LIST : list string := ["O"; "B-REP"; "I-REP"]%string.
Definition LABEL2ID : gmap string Z := label2id LABEL_LIST.
Definition ID2LABEL : gmap Z string := id2label_of LABEL_LIST.

Definition bi_tag (j : nat) : string :=
  if Nat.eqb j 0 then "B-REP"%string else "I-REP"%string.

Definition o_tag (_ : nat) : string := "O"%string.

(** The [while i < len(text)] loop of [parse_disfluency_speech_transcript];
    [None] only when [fuel] iterations were not enough. *)
Fixpoint parse_loop (fuel : nat) (text : string) (i : nat) (st : parse_state)
    : option parse_state :=
  if Py.len text <=? i then Some st else
  match fuel with
  | 0 => None
  | S fuel' =>
      let rest := Py.drop i text in
      match Re.match_braced "F" rest with
      | Some (g, e) =>
          parse_loop fuel' text (i + e)
            (append_words truthy bi_tag (words_of g) st)
      | None =>
      match Re.match_braced "D" rest with
      | Some (g, e) =>
          parse_loop fuel' text (i + e)
            (append_words truthy bi_tag (words_of g) st)
      | None =>
      match Re.match_braced "C" rest with
      | Some (g, e) =>
          parse_loop fuel' text (i + e)
            (append_words truthy o_tag (words_of g) st)
      | None =>
      match Re.match_repair rest with
      | Some (before, after, e) =>
          let st1 :=
            append_words not_fragment bi_tag
              (Py.split (Py.remove_char "," (Py.strip before))) st in
          parse_loop fuel' text (i + e)
            (append_words not_fragment o_tag
               (Py.split (Py.remove_char "," (Py.strip after))) st1)
      | None =>
      match Re.match_word rest with
      | Some (word, e) =>
          parse_loop fuel' text (i + e)
            (st.1 ++ [Py.lower word], st.2 ++ ["O"%string])
      | None => parse_loop fuel' text (i + 1) st
      end end end end end
  end.

Definition parse_disfluency_speech_transcript (annotated : string)
    : option parse_state :=
  let text := Re.sub (fun _ => Re.match_markup) "" annotated in
  parse_loop (Py.len text) text 0 ([], []).

(** [tokenize_and_align_labels], for one example of the batch *)
Definition tokenize_and_align_labels :=
  align_labels LABEL_LIST LABEL2ID "B-REP" "I-REP".

(** [convert_switchboard_tag] *)
Definition convert_switchboard_tag (tag : string) : string :=
  if bool_decide (tag ∈ ["BE"; "BE_IP"]%string) then "B-REP"%string
  else if bool_decide (tag ∈ ["IE"; "IP"; "C_IE"; "C_IP"]%string)
       then "I-REP"%string
  else "O"%string.

(** The state of the loop of [load_switchboard_data] *)
Record switchboard := {
  tokens_list : list (list string);
  tags_list : list (list Z);
  count : nat;
  skipped : nat
}.

(** The body of the loop for one row of the file.  A row is the pair of
    lists that [ast.literal_eval] reads from the columns [sentence] and
    [ms_disfl], or [None] when it raises [ValueError] or [SyntaxError],
    which the loop catches.  The result [None] is a [KeyError], which the
    loop does not catch. *)
Definition load_row (st : switchboard)
    (row : option (list string * list string)) : option switchboard :=
  match row with
  | None => Some {| tokens_list := tokens_list st; tags_list := tags_list st;
                    count := count st; skipped := skipped st + 1 |}
  | Some (sentence, ms_disfl) =>
      if negb (length sentence =? length ms_disfl) then
        Some {| tokens_list := tokens_list st; tags_list := tags_list st;
                count := count st; skipped := skipped st + 1 |}
      else
        let tokens := Py.lower <$> sentence in
        let tags := convert_switchboard_tag <$> ms_disfl in
        tag_ids ← encode_tags LABEL2ID tags;
        Some {| tokens_list := tokens_list st ++ [tokens];
                tags_list := tags_list st ++ [tag_ids];
                count := count st + 1; skipped := skipped st |}
  end.

(** [load_switchboard_data] on the rows of the file *)
Definition load_switchboard_data
    (rows : list (option (list string * list string))) : option switchboard :=
  foldl (fun (acc : option switchboard) row => st ← acc; load_row st row)
        (Some {| tokens_list := []; tags_list := []; count := 0; skipped := 0 |})
        rows.

(** The body of the loop of [load_disfluency_speech] for one annotated
    transcript, on the lists [all_tokens] and [all_tags] *)
Definition add_example (acc : list (list string) * list (list Z))
    (transcript_annotated : string)
    : option (list (list string) * list (list Z)) :=
  st ← parse_disfluency_speech_transcript transcript_annotated;
  match st.1 with
  | [] => Some acc
  | _ =>
      tag_ids ← encode_tags LABEL2ID st.2;
      Some (acc.1 ++ [st.1], acc.2 ++ [tag_ids])
  end.

(** [load_disfluency_speech] on the transcripts of the corpus *)
Definition load_disfluency_speech (transcripts : list string)
    : option (list (list string) * list (list Z)) :=
  foldl (fun (acc : option (list (list string) * list (list Z))) (t : string) =>
           a ← acc; add_example a t)
        (Some ([], [])) transcripts.

(** The lists that [compute_metrics] hands to the scorer for one example:
    the label names at the positions whose reference label is not the
    ignore sentinel.  [None] is an [IndexError] on [LABEL_LIST]. *)
Fixpoint true_labels (prediction label : list Z)
    : option (list string * list string) :=
  match prediction, label with
  | p :: prediction', l :: label' =>
      if decide (l <> (-100)%Z) then
        pn ← Py.index LABEL_LIST p;
        ln ← Py.index LABEL_LIST l;
        rest ← true_labels prediction' label';
        Some (pn :: rest.1, ln :: rest.2)
      else true_labels prediction' label'
  | _, _ => Some ([], [])
  end.

End TrainRepetition.

(* ===================================================================== *)
(** * SpanClassifier: the repetition filter *)
(* ===================================================================== *)

Module TrainRepetitionOnly.

Definition LABEL_LIST : list string := ["O"; "B-REP"; "I-REP"]%string.
Definition LABEL2ID : gmap string Z := label2id LABEL_LIST.
Definition ID2LABEL : gmap Z string := id2label_of LABEL_LIST.

Definition OVERLAP_THRESHOLD : Q := 1 # 2.

Definition is_reparandum_tag (t : string) : bool :=
  bool_decide (t ∈ ["BE"; "IE"; "BE_IP"]%string).

Definition is_fluent_tag (t : string) : bool :=
  bool_decide (t ∈ ["O"; "C"]%string).

(** The state of the loop of [is_repetition] *)
Record scan := {
  reparandum_words : list string;
  repair_words : list string;
  seen_reparandum : bool
}.

Definition scan_step (st : scan) (wt : string * string) : scan :=
  let w_lower := Py.lower wt.1 in
  if is_reparandum_tag wt.2 then
    {| reparandum_words := reparandum_words st ++ [w_lower];
       repair_words := repair_words st;
       seen_reparandum := true |}
  else if is_fluent_tag wt.2 && seen_reparandum st then
    {| reparandum_words := reparandum_words st;
       repair_words := repair_words st ++ [w_lower];
       seen_reparandum := seen_reparandum st |}
  else st.

Definition nat_to_Q (n : nat) : Q := inject_Z (Z.of_nat n).

(** [len(overlap) / len(rep_set) if rep_set else 0].  The quotient of two
    list lengths is compared with one half, and the float quotient is on
    the same side of one half as the exact one. *)
Definition overlap_ratio (rep_set repair_set : gset string) : Q :=
  if Nat.eqb (size rep_set) 0 then 0%Q
  else (nat_to_Q (size (rep_set ∩ repair_set)) / nat_to_Q (size rep_set))%Q.

Definition is_repetition (words tags : list string)
    : bool * list string * list string :=
  let st := foldl scan_step
              {| reparandum_words := []; repair_words := [];
                 seen_reparandum := false |}
              (zip words tags) in
  match reparandum_words st with
  | [] => (false, [], [])
  | _ =>
      let rep_set : gset string := list_to_set (reparandum_words st) in
      let repair_set : gset string :=
        list_to_set (take (length (reparandum_words st) + 3) (repair_words st)) in
      (Qle_bool OVERLAP_THRESHOLD (overlap_ratio rep_set repair_set),
       reparandum_words st, repair_words st)
  end.

(** [tokenize_and_align_labels], for one example of the batch *)
Definition tokenize_and_align_labels :=
  align_labels LABEL_LIST LABEL2ID "B-REP" "I-REP".

(** [convert_tag] *)
Definition convert_tag (tag : string) : string :=
  if bool_decide (tag ∈ ["BE"; "BE_IP"]%string) then "B-REP"%string
  else if bool_decide (tag ∈ ["IE"; "IP"; "C_IE"; "C_IP"]%string)
       then "I-REP"%string
  else "O"%string.

(** The exceptions that leave [load_repetition_data] *)
Inductive exn := KeyError | ZeroDivisionError.

(** The state of the loop of [load_repetition_data] *)
Record load_state := {
  tokens_list : list (list string);
  tags_list : list (list Z);
  total : nat;
  kept : nat;
  skipped_repair : nat;
  skipped_no_disfl : nat
}.

(** The body of the loop for one row of the file: the pair of lists read
    from the columns [sentence] and [ms_disfl], or [None] when reading
    raises [ValueError] or [SyntaxError], which the loop catches.  The
    result [None] is a [KeyError], which the loop does not catch. *)
Definition load_row (st : load_state)
    (row : option (list string * list string)) : option load_state :=
  let st := {| tokens_list := tokens_list st; tags_list := tags_list st;
               total := total st + 1; kept := kept st;
               skipped_repair := skipped_repair st;
               skipped_no_disfl := skipped_no_disfl st |} in
  match row with
  | None => Some st
  | Some (words, tags) =>
      if negb (length words =? length tags) then Some st else
      let r := is_repetition words tags in
      match r.1.2 with
      | [] =>
          Some {| tokens_list := tokens_list st; tags_list := tags_list st;
                  total := total st; kept := kept st;
                  skipped_repair := skipped_repair st;
                  skipped_no_disfl := skipped_no_disfl st + 1 |}
      | _ =>
          if negb r.1.1 then
            Some {| tokens_list := tokens_list st; tags_list := tags_list st;
                    total := total st; kept := kept st;
                    skipped_repair := skipped_repair st + 1;
                    skipped_no_disfl := skipped_no_disfl st |}
          else
            let tokens := Py.lower <$> words in
            let converted_tags := convert_tag <$> tags in
            tag_ids ← encode_tags LABEL2ID converted_tags;
            Some {| tokens_list := tokens_list st ++ [tokens];
                    tags_list := tags_list st ++ [tag_ids];
                    total := total st; kept := kept st + 1;
                    skipped_repair := skipped_repair st;
                    skipped_no_disfl := skipped_no_disfl st |}
      end
  end.

(** The loop of [load_repetition_data] *)
Definition load_rows (rows : list (option (list string * list string)))
    : option load_state :=
  foldl (fun (acc : option load_state) row => st ← acc; load_row st row)
        (Some {| tokens_list := []; tags_list := []; total := 0; kept := 0;
                 skipped_repair := 0; skipped_no_disfl := 0 |})
        rows.

(** [load_repetition_data]: after the loop the statistics are printed,
    among them the quotient [kept / (kept + skipped_repair)], and the two
    lists are returned. *)
Definition load_repetition_data
    (rows : list (option (list string * list string)))
    : exn + (list (list string) * list (list Z)) :=
  match load_rows rows with
  | None => inl KeyError
  | Some st =>
      if kept st + skipped_repair st =? 0 then inl ZeroDivisionError
      else inr (tokens_list st, tags_list st)
  end.

End TrainRepetitionOnly.

(* ===================================================================== *)
(** * TaggerStage: the model classes of the pipeline *)
(* ===================================================================== *)

Module Models.

Inductive model_class := FillerRemover | RepetitionRemover | RepairRemover.

(** [model.__class__.__name__] *)
Definition class_name (c : model_class) : string :=
  match c with
  | FillerRemover => "FillerRemover"
  | RepetitionRemover => "RepetitionRemover"
  | RepairRemover => "RepairRemover"
  end.

(** What the tokenizer and the network return for a list of words:
    [inputs.word_ids()] and the arg-max label id of every subword. *)
Record inference := {
  word_ids : list (option nat);
  predictions : list Z
}.

(** What a constructor loads from the model directory *)
Record capability := {
  infer : list string -> inference;
  id2label : gmap Z string
}.

Record BaseModel := {
  class_of : model_class;
  loaded : capability
}.

(** The loop of [_get_word_labels]: the label of a word is the one of the
    first subword that carries its index.  [None] is an [IndexError] on
    [predictions] or a [KeyError] on [id2label]. *)
Fixpoint word_labels_loop (id2label : gmap Z string) (predictions : list Z)
    (idx : nat) (word_ids : list (option nat)) (word_labels : gmap nat string)
    : option (gmap nat string) :=
  match word_ids with
  | [] => Some word_labels
  | word_idx :: word_ids' =>
      match word_idx with
      | Some w =>
          if decide (word_labels !! w = None) then
            p ← predictions !! idx;
            l ← id2label !! p;
            word_labels_loop id2label predictions (S idx) word_ids'
              (<[w := l]> word_labels)
          else
            word_labels_loop id2label predictions (S idx) word_ids' word_labels
      | None =>
          word_labels_loop id2label predictions (S idx) word_ids' word_labels
      end
  end.

Definition _get_word_labels (self : BaseModel) (words : list string)
    : option (gmap nat string) :=
  let inputs := infer (loaded self) words in
  word_labels_loop (id2label (loaded self)) (predictions inputs) 0
    (word_ids inputs) ∅.

(** [word_labels.get(i, "O")] *)
Definition get_label (word_labels : gmap nat string) (i : nat) : string :=
  default "O"%string (word_labels !! i).

(** [not text.strip()] *)
Definition blank (text : string) : bool := negb (truthy (Py.strip text)).

(** [BaseModel.process] *)
Definition base_process (self : BaseModel) (text : string) : option string :=
  if blank text then Some text else
  let words := Py.split text in
  word_labels ← _get_word_labels self words;
  let kept_words :=
    snd <$> filter (fun iw : nat * string =>
                      get_label word_labels iw.1 = "O"%string)
                   (Py.enumerate words) in
  Some (Py.join " " kept_words).

(** [RepairRemover._should_remove] *)
Definition _should_remove (label : string) : bool :=
  Py.contains "REPAIR" label.

(** [RepairRemover.process] *)
Definition repair_process (self : BaseModel) (text : string) : option string :=
  if blank text then Some text else
  let words := Py.split text in
  word_labels ← _get_word_labels self words;
  let kept_words :=
    snd <$> filter (fun iw : nat * string =>
                      _should_remove (get_label word_labels iw.1) = false)
                   (Py.enumerate words) in
  Some (Py.join " " kept_words).

(** [model.process(text)]: [RepairRemover] overrides the method. *)
Definition process (self : BaseModel) (text : string) : option string :=
  match class_of self with
  | RepairRemover => repair_process self text
  | _ => base_process self text
  end.

Record details := {
  output : string;
  removed : list string;
  labels : gmap string string
}.

(** The body of the loop of [process_with_details], on the lists [kept]
    and [removed] *)
Definition details_step (word_labels : gmap nat string)
    (kr : list string * list string) (iw : nat * string)
    : list string * list string :=
  let label := get_label word_labels iw.1 in
  if decide (label = "O"%string) then (kr.1 ++ [iw.2], kr.2)
  else (kr.1, kr.2 ++ [iw.2]).

(** [model.process_with_details(text)]: no class overrides it. *)
Definition process_with_details (self : BaseModel) (text : string)
    : option details :=
  if blank text then Some {| output := text; removed := []; labels := ∅ |} else
  let words := Py.split text in
  word_labels ← _get_word_labels self words;
  let kr := foldl (details_step word_labels) ([], []) (Py.enumerate words) in
  Some {| output := Py.join " " kr.1;
          removed := kr.2;
          labels := dict_of ((fun iw : nat * string =>
                                (iw.2, get_label word_labels iw.1))
                               <$> Py.enumerate words) |}.

(** [ListFormatter._fix_newlines] *)
Definition _fix_newlines (text : string) : string :=
  Re.sub Re.match_bullet (String "010" "- ") text.

(** [ListFormatter.process]; [generate] stands for the tokenizer, the
    sequence-to-sequence model and the decoder. *)
Definition list_process (generate : string -> option string) (text : string)
    : option string :=
  if blank text then Some text else
  result ← generate ("format list: " +:+ text);
  Some (_fix_newlines result).

(** [Truecaser.process]: a failure of the library returns the input. *)
Definition truecase_process (get_true_case : string -> option string)
    (text : string) : option string :=
  if blank text then Some text else
  Some (default text (get_true_case text)).

(** The classes of the registry [AVAILABLE_MODELS] *)
Inductive available_class :=
  | TaggerClass (c : model_class)
  | ListFormatterClass
  | TruecaserClass.

Definition AVAILABLE_MODELS : list (string * available_class) :=
  [("filler"%string, TaggerClass FillerRemover);
   ("repetition"%string, TaggerClass RepetitionRemover);
   ("repair"%string, TaggerClass RepairRemover);
   ("list"%string, ListFormatterClass);
   ("truecase"%string, TruecaserClass)].

End Models.

(* ===================================================================== *)
(** * PipelineOrchestrator *)
(* ===================================================================== *)

Module Pipeline.

Import Models.

Section Init.

(** The model directories: what constructing an instance of a class finds;
    [None] is the [FileNotFoundError] of the constructor. *)
Variable load : model_class -> option capability.

Definition construct (c : model_class) : option BaseModel :=
  cap ← load c; Some {| class_of := c; loaded := cap |}.

(** [self.models.append(C())] when [enable] is set *)
Definition append_if (enable : bool) (c : model_class)
    (models : list BaseModel) : option (list BaseModel) :=
  if enable then m ← construct c; Some (models ++ [m]) else Some models.

(** [TranscriptPipeline.__init__]; the result is [self.models].  A custom
    list that is [None] or empty is false. *)
Definition __init__ (enable_fillers enable_repetitions enable_repairs : bool)
    (custom_models : option (list BaseModel)) : option (list BaseModel) :=
  match custom_models with
  | Some (m :: ms) => Some (m :: ms)
  | _ =>
      models ← append_if enable_fillers FillerRemover [];
      models ← append_if enable_repetitions RepetitionRemover models;
      append_if enable_repairs RepairRemover models
  end.

End Init.

(** [TranscriptPipeline.process] *)
Definition process (models : list BaseModel) (text : string) : option string :=
  foldl (fun (result : option string) (model : BaseModel) =>
           r ← result; Models.process model r)
        (Some text) models.

Record step := {
  step_model : string;
  step_input : string;
  step_output : string;
  step_removed : list string
}.

Record report := {
  report_input : string;
  report_output : string;
  steps : list step
}.

(** [TranscriptPipeline.process_with_details] *)
Definition process_with_details (models : list BaseModel) (text : string)
    : option report :=
  acc ← foldl (fun (acc : option (list step * string)) (model : BaseModel) =>
                 '(steps, current_text) ← acc;
                 result ← Models.process_with_details model current_text;
                 Some (steps ++ [{| step_model := class_name (class_of model);
                                    step_input := current_text;
                                    step_output := output result;
                                    step_removed := removed result |}],
                       output result))
              (Some ([], text)) models;
  Some {| report_input := text; report_output := acc.2; steps := acc.1 |}.

(** [TranscriptPipeline.model_names] *)
Definition model_names (models : list BaseModel) : list string :=
  (fun m => class_name (class_of m)) <$> models.

(** [TranscriptPipeline.add_model]; the result is [self.models]. *)
Definition add_model (models : list BaseModel) (model : BaseModel)
    : list BaseModel :=
  models ++ [model].

(** [TranscriptPipeline.insert_model]; the result is [self.models], and
    [None] the [OverflowError] of [list.insert]. *)
Definition insert_model (models : list BaseModel) (index : Z)
    (model : BaseModel) : option (list BaseModel) :=
  Py.insert models index model.

(** [cleanup_transcript]: a pipeline with the default flags, then
    [process]. *)
Definition cleanup_transcript (load : model_class -> option capability)
    (text : string) : option string :=
  models ← __init__ load true true false None;
  process models text.

End Pipeline.

(* ===================================================================== *)
(** * The request handler of [ml/server.py] *)
(* ===================================================================== *)

Module Server.

(** The objects held by [MODELS] *)
Inductive server_model :=
  | Tagger (m : Models.BaseModel)
  | Formatter (generate : string -> option string)
  | Caser (get_true_case : string -> option string).

Definition model_process (m : server_model) (text : string) : option string :=
  match m with
  | Tagger t => Models.process t text
  | Formatter generate => Models.list_process generate text
  | Caser get_true_case => Models.truecase_process get_true_case text
  end.

(** The loop of [convert_list_style]: the lines done and the next number *)
Definition number_line (st : list string * nat) (line : string)
    : list string * nat :=
  if Py.startswith "- " line
  then (st.1 ++ [Py.str_of_nat st.2 +:+ ". " +:+ Py.drop 2 line], st.2 + 1)
  else (st.1 ++ [line], 1).

Definition convert_list_style (text style : string) : string :=
  if negb (String.eqb style "numbered") then text else
  let lines := Py.split_on "010" text in
  Py.join (String "010" "") (foldl number_line ([], 1) lines).1.

Definition DEFAULT_MODELS : list string := ["filler"%string].
Definition DISFLUENCY_ORDER : list string :=
  ["filler"; "repetition"; "repair"]%string.

(** The handler state: [text] and [models_applied] *)
Definition run_state : Type := string * list string.

(** [if name in requested_models and name in MODELS: try: text =
    MODELS[name].process(text); models_applied.append(name) except: pass] *)
Definition run_model (MODELS : gmap string server_model)
    (requested_models : list string) (post : string -> string)
    (st : run_state) (name : string) : run_state :=
  if bool_decide (name ∈ requested_models) then
    match MODELS !! name with
    | Some m =>
        match model_process m st.1 with
        | Some text => (post text, st.2 ++ [name])
        | None => st
        end
    | None => st
    end
  else st.

(** The body of [process] behind the request decoding: the answer's
    ['text'] and ['models_applied']. *)
Definition process (MODELS : gmap string server_model)
    (models : option (list string)) (list_style : string) (text : string)
    : run_state :=
  let requested_models := default DEFAULT_MODELS models in
  let st := run_model MODELS requested_models id (text, []) "truecase" in
  let st := foldl (run_model MODELS requested_models id) st DISFLUENCY_ORDER in
  run_model MODELS requested_models
    (fun text => convert_list_style text list_style) st "list".

(** What the constructors find when the server starts: the model
    directories of the taggers, the directory of the list formatter and
    the truecasing library; [None] where a constructor raises. *)
Record environment := {
  model_dir : Models.model_class -> option Models.capability;
  formatter_dir : option (string -> option string);
  truecase_library : option (string -> option string)
}.

(** [model_class()] for a class of the registry *)
Definition instantiate (env : environment) (cls : Models.available_class)
    : option server_model :=
  match cls with
  | Models.TaggerClass c =>
      cap ← model_dir env c;
      Some (Tagger {| Models.class_of := c; Models.loaded := cap |})
  | Models.ListFormatterClass => Formatter <$> formatter_dir env
  | Models.TruecaserClass => Caser <$> truecase_library env
  end.

(** [load_models]: the dict [MODELS] and the keys of [LOAD_ERRORS] *)
Definition load_models (env : environment)
    : gmap string server_model * list string :=
  foldl (fun (st : gmap string server_model * list string)
             (entry : string * Models.available_class) =>
           match instantiate env entry.2 with
           | Some m => (<[entry.1 := m]> st.1, st.2)
           | None => (st.1, st.2 ++ [entry.1])
           end)
        (∅, []) Models.AVAILABLE_MODELS.

(** The answers of [process_single]: status 200 with the ['text'], 404
    for a model that is not loaded, 500 for a model that raises *)
Inductive response :=
  | Ok (text : string)
  | NotFound
  | ServerError.

(** The body of [process_single] behind the request decoding *)
Definition process_single (MODELS : gmap string server_model)
    (model_name text : string) : response :=
  match MODELS !! model_name with
  | None => NotFound
  | Some m =>
      match model_process m text with
      | Some result => Ok result
      | None => ServerError
      end
  end.

(** [health]: the names under ['models_loaded'] *)
Definition models_loaded (MODELS : gmap string server_model) : gset string :=
  dom MODELS.

End Server.

(* ===================================================================== *)
(** * Properties the clean-up relies on, as predicates *)
(* ===================================================================== *)

(** The category [X] of an inside tag [I-X] *)
Definition inside_category (t : string) : option string :=
  match t with
  | String "I" (String "-" X) => Some X
  | _ => None
  end.

(** [prev] is [B-X] or [I-X]. *)
Definition opens_or_continues (X : string) (prev : option string) : bool :=
  match prev with
  | Some p => String.eqb p ("B-" +:+ X) || String.eqb p ("I-" +:+ X)
  | None => false
  end.

Fixpoint bio_from (prev : option string) (tags : list string) : bool :=
  match tags with
  | [] => true
  | t :: tags' =>
      match inside_category t with
      | Some X => opens_or_continues X prev
      | None => true
      end && bio_from (Some t) tags'
  end.

(** BIO well-formedness: every [I-X] follows a [B-X] or an [I-X]. *)
Definition bio_well_formed (tags : list string) : bool := bio_from None tags.

(** A run of tags that is well-formed whatever stands before it *)
Definition closed_run (tags : list string) : Prop :=
  forall prev, bio_from prev tags = true.

(** The tags of a parser state are BIO well-formed. *)
Definition bio_state (st : parse_state) : Prop := bio_well_formed st.2 = true.

(** The two lists of a parser state have the same length. *)
Definition parallel (st : parse_state) : Prop := length st.1 = length st.2.

(** A word as [str.split] produces them: not empty, no white space. *)
Fixpoint spacefree (w : string) : bool :=
  match w with
  | EmptyString => true
  | String c w' => negb (Py.isspace c) && spacefree w'
  end.

Definition is_word (w : string) : Prop := w <> EmptyString /\ spacefree w = true.

(** A token as the parsers emit them: a word in lower case *)
Definition is_token (t : string) : Prop := is_word t /\ Py.lower t = t.

(** A tag of the filler-only parser and the tag of the combined parser at
    the same token: what the first marks, the second marks the same way. *)
Definition marked_alike (tf tr : string) : Prop :=
  tf = "O"%string
  \/ (tf = "B-FILL"%string /\ tr = "B-REP"%string)
  \/ (tf = "I-FILL"%string /\ tr = "I-REP"%string).

(** A training example: some tokens, one label id of the three per token *)
Definition valid_example (tokens : list string) (tag_ids : list Z) : Prop :=
  length tokens = length tag_ids
  /\ Forall (fun id => (0 <= id < 3)%Z) tag_ids.

(** The number of label ids other than the id of [O] *)
Definition marked (tag_ids : list Z) : nat :=
  length (filter (fun id => id <> 0%Z) tag_ids).

(** A row of the Switchboard file that was read and holds as many tags
    as words *)
Definition row_parallel (row : option (list string * list string)) : bool :=
  match row with
  | Some (sentence, ms_disfl) => length sentence =? length ms_disfl
  | None => false
  end.

(** Two parser states with the same tokens, marked alike *)
Definition alike (stF stR : parse_state) : Prop :=
  stF.1 = stR.1 /\ Forall2 marked_alike stF.2 stR.2.

(** The contract of the labeling capability: the network returns one label
    id per subword, and the model configuration names every such id. *)
Definition sound_inference (id2label : gmap Z string) (r : Models.inference)
    : Prop :=
  length (Models.predictions r) = length (Models.word_ids r)
  /\ Forall (fun p => is_Some (id2label !! p)) (Models.predictions r).

Definition sound (m : Models.BaseModel) : Prop :=
  forall words,
    sound_inference (Models.id2label (Models.loaded m))
      (Models.infer (Models.loaded m) words).

(** What the loop of [is_repetition] collects.  Its reparandum: the words
    of the sentence tagged [BE], [IE] or [BE_IP], wherever they stand, in
    lower case. *)
Definition tagged_reparandum (wts : list (string * string)) : list string :=
  (fun wt : string * string => Py.lower wt.1)
    <$> filter (fun wt : string * string =>
                  TrainRepetitionOnly.is_reparandum_tag wt.2 = true) wts.

(** The fluent words of a stretch: those tagged [O] or [C], in lower case *)
Definition fluent_words (wts : list (string * string)) : list string :=
  (fun wt : string * string => Py.lower wt.1)
    <$> filter (fun wt : string * string =>
                  TrainRepetitionOnly.is_fluent_tag wt.2 = true) wts.

(** What stands after the first reparandum word *)
Fixpoint after_first_reparandum (wts : list (string * string))
    : list (string * string) :=
  match wts with
  | [] => []
  | wt :: wts' =>
      if TrainRepetitionOnly.is_reparandum_tag wt.2 then wts'
      else after_first_reparandum wts'
  end.

(** The window of the loop: the first [|reparandum| + 3] fluent words
    after the first reparandum word *)
Definition pooled_window (wts : list (string * string)) : list string :=
  take (length (tagged_reparandum wts) + 3)
       (fluent_words (after_first_reparandum wts)).

Definition pooled_overlap (wts : list (string * string)) : Q :=
  let rep_set : gset string := list_to_set (tagged_reparandum wts) in
  let window_set : gset string := list_to_set (pooled_window wts) in
  (TrainRepetitionOnly.nat_to_Q (size (rep_set ∩ window_set))
   / TrainRepetitionOnly.nat_to_Q (size rep_set))%Q.

(** The span classifier as the specification words it: the contiguous
    reparandum, the fluent words that follow it, the overlap of the two
    sets.  First the sentence from its first reparandum word on. *)
Fixpoint from_reparandum (wts : list (string * string))
    : list (string * string) :=
  match wts with
  | [] => []
  | wt :: wts' =>
      if TrainRepetitionOnly.is_reparandum_tag wt.2 then wts
      else from_reparandum wts'
  end.

(** The run of reparandum words at the head of a stretch, and what follows
    the run *)
Fixpoint reparandum_run (wts : list (string * string))
    : list (string * string) * list (string * string) :=
  match wts with
  | [] => ([], [])
  | wt :: wts' =>
      if TrainRepetitionOnly.is_reparandum_tag wt.2
      then let (run, rest) := reparandum_run wts' in (wt :: run, rest)
      else ([], wts)
  end.

(** The contiguous reparandum: the first run of reparandum words, in lower
    case *)
Definition spec_reparandum (wts : list (string * string)) : list string :=
  (fun wt : string * string => Py.lower wt.1)
    <$> (reparandum_run (from_reparandum wts)).1.

(** What follows the contiguous reparandum *)
Definition spec_following (wts : list (string * string))
    : list (string * string) :=
  (reparandum_run (from_reparandum wts)).2.

(** The repair window: the following [|reparandum| + 3] fluent words *)
Definition spec_repair_window (wts : list (string * string)) : list string :=
  take (length (spec_reparandum wts) + 3) (fluent_words (spec_following wts)).

(** [|reparandum ∩ repair_window| / |reparandum|], on sets *)
Definition spec_overlap (wts : list (string * string)) : Q :=
  let rep_set : gset string := list_to_set (spec_reparandum wts) in
  let window_set : gset string := list_to_set (spec_repair_window wts) in
  (TrainRepetitionOnly.nat_to_Q (size (rep_set ∩ window_set))
   / TrainRepetitionOnly.nat_to_Q (size rep_set))%Q.

(** REPETITION when the overlap is at least one half, else REPAIR *)
Definition spec_repetition (wts : list (string * string)) : bool :=
  Qle_bool (1 # 2) (spec_overlap wts).

(** The sentence has one reparandum: no reparandum word stands behind the
    contiguous reparandum. *)
Definition one_reparandum (wts : list (string * string)) : Prop :=
  Forall (fun wt : string * string =>
            TrainRepetitionOnly.is_reparandum_tag wt.2 = false)
         (spec_following wts).

(** A row of the Switchboard file that was read, holds as many tags as
    words, and has a reparandum word *)
Definition row_disfluent (row : option (list string * list string)) : bool :=
  match row with
  | Some (words, tags) =>
      (length words =? length tags)
      && bool_decide (tagged_reparandum (zip words tags) <> [])
  | None => false
  end.

(** The label id of a later subword of a word with label id [id]: the
    inside id 2 for the begin id 1, the id itself otherwise *)
Definition inside_id (id : Z) : Z := if decide (id = 1%Z) then 2%Z else id.

(** The word index of the subword before position [j], as the loop of
    [tokenize_and_align_labels] remembers it; [start] before the first *)
Definition previous_word (start : option nat) (word_ids : list (option nat))
    (j : nat) : option nat :=
  match j with
  | 0 => start
  | S j' => default None (word_ids !! j')
  end.

(** [label_ids] is the expansion of the word label ids [label] along
    [word_ids]: the sentinel on a special token, the label id of the word
    on its first subword, the inside form on the subwords after it. *)
Definition expansion_from (start : option nat) (label : list Z)
    (word_ids : list (option nat)) (label_ids : list Z) : Prop :=
  length label_ids = length word_ids
  /\ forall j,
       match word_ids !! j with
       | None => True
       | Some None => label_ids !! j = Some (-100)%Z
       | Some (Some w) =>
           label_ids !! j
           = (if decide (previous_word start word_ids j = Some w)
              then inside_id else id) <$> label !! w
       end.

Definition expansion : list Z -> list (option nat) -> list Z -> Prop :=
  expansion_from None.

(** A network that has learnt the aligned labels of one example by heart:
    on every input it returns the subword-to-word map [word_ids] and the
    label ids [label_ids]. *)
Definition memorised (LABEL_LIST : list string) (word_ids : list (option nat))
    (label_ids : list Z) : Models.BaseModel :=
  {| Models.class_of := Models.RepetitionRemover;
     Models.loaded :=
       {| Models.infer := fun _ => {| Models.word_ids := word_ids;
                                      Models.predictions := label_ids |};
          Models.id2label := id2label_of LABEL_LIST |} |}.

(** Every subword of [word_ids] belongs to one of [n] words, and each of
    the [n] words has at least one subword. *)
Definition covers (n : nat) (word_ids : list (option nat)) : Prop :=
  Forall (fun o : option nat => from_option (fun w => w < n) True o) word_ids
  /\ Forall (fun w => Some w ∈ word_ids) (seq 0 n).

(** The steps of a report form a chain from [input] to [output]: each
    step starts from what the step before it returned. *)
Fixpoint chained (input : string) (steps : list Pipeline.step)
    (output : string) : Prop :=
  match steps with
  | [] => output = input
  | s :: steps' =>
      Pipeline.step_input s = input
      /\ chained (Pipeline.step_output s) steps' output
  end.

(** Two strings of the same length that differ only in which white-space
    character stands at a position *)
Fixpoint same_but_spacing (s t : string) : Prop :=
  match s, t with
  | EmptyString, EmptyString => True
  | String a s', String b t' =>
      (a = b \/ (Py.isspace a = true /\ Py.isspace b = true))
      /\ same_but_spacing s' t'
  | _, _ => False
  end.

(** The character [c] does not occur in [s]. *)
Fixpoint free_of (c : ascii) (s : string) : bool :=
  match s with
  | EmptyString => true
  | String d s' => negb (Ascii.eqb d c) && free_of c s'
  end.

(** The numbered lines for the items of a list, counting from [n] *)
Fixpoint numbered_from (n : nat) (items : list string) : list string :=
  match items with
  | [] => []
  | item :: items' =>
      (Py.str_of_nat n +:+ ". " +:+ item) :: numbered_from (S n) items'
  end.

(** The stage classes in the order [__init__] appends them *)
Definition STAGE_ORDER : list Models.model_class :=
  [Models.FillerRemover; Models.RepetitionRemover; Models.RepairRemover].

(** The enable flag of a stage class *)
Definition enabled_by (enable_fillers enable_repetitions enable_repairs : bool)
    (c : Models.model_class) : bool :=
  match c with
  | Models.FillerRemover => enable_fillers
  | Models.RepetitionRemover => enable_repetitions
  | Models.RepairRemover => enable_repairs
  end.

(** The list that holds [x] when [b] is set, and nothing otherwise *)
Definition pick {A} (b : bool) (x : A) : list A := if b then [x] else [].

(** The fixed order of the request handler *)
Definition SERVER_ORDER : list string :=
  ["truecase"; "filler"; "repetition"; "repair"; "list"]%string.

(** A stage of the request handler is enabled when it is requested and
    its model was loaded. *)
Definition server_enabled (MODELS : gmap string Server.server_model)
    (requested_models : list string) (name : string) : bool :=
  bool_decide (name ∈ requested_models) && bool_decide (is_Some (MODELS !! name)).

(** No stage of the handler raises. *)
Definition never_raises (MODELS : gmap string Server.server_model) : Prop :=
  forall name m text,
    MODELS !! name = Some m -> is_Some (Server.model_process m text).

(** Running the stage of class [c] on the outcome so far: the class is
    constructed from its model directory and its [process] applied. *)
Definition run_stage (load : Models.model_class -> option Models.capability)
    (result : option string) (c : Models.model_class) : option string :=
  r ← result; m ← Pipeline.construct load c; Models.process m r.

(** What the stage [name] of the request handler makes of a text: the text
    its model returns, for the list stage after the list-style
    conversion. *)
Definition stage_effect (MODELS : gmap string Server.server_model)
    (list_style : string) (text : string) (name : string) : string :=
  match MODELS !! name with
  | Some m =>
      match Server.model_process m text with
      | Some result =>
          if String.eqb name "list"
          then Server.convert_list_style result list_style else result
      | None => text
      end
  | None => text
  end.

(* ===================================================================== *)
(** * Taggers for the worked examples *)
(* ===================================================================== *)

Module Example.

(** A tokenizer that wraps the words in two special tokens and keeps every
    word whole, with a network that answers [tag w] on the word [w]. *)
Definition word_level (tag : string -> Z) (words : list string)
    : Models.inference :=
  {| Models.word_ids := None :: (Some <$> seq 0 (length words)) ++ [None];
     Models.predictions := 0%Z :: (tag <$> words) ++ [0%Z] |}.

(** Label 1 on the fillers, label 0 elsewhere *)
Definition filler_tag (w : string) : Z :=
  if bool_decide (w ∈ ["uh"; "um"]%string) then 1%Z else 0%Z.

Definition tagger (c : Models.model_class) (tag : string -> Z)
    (LABEL_LIST : list string) : Models.BaseModel :=
  {| Models.class_of := c;
     Models.loaded := {| Models.infer := word_level tag;
                         Models.id2label := id2label_of LABEL_LIST |} |}.

(** A tagger that labels every word [O] *)
Definition quiet (c : Models.model_class) : Models.BaseModel :=
  tagger c (fun _ => 0%Z) TrainFiller.LABEL_LIST.

Definition filler_model : Models.BaseModel :=
  tagger Models.FillerRemover filler_tag TrainFiller.LABEL_LIST.

Definition repetition_model : Models.BaseModel :=
  tagger Models.RepetitionRemover (fun _ => 0%Z) TrainRepetition.LABEL_LIST.

(** A repair remover whose model directory holds a network trained with
    the labels [O], [B-REP], [I-REP]. *)
Definition repair_model_rep_labels : Models.BaseModel :=
  tagger Models.RepairRemover filler_tag TrainRepetition.LABEL_LIST.

(** Model directories in which every class is found *)
Definition directory (c : Models.model_class) : option Models.capability :=
  Some (Models.loaded (quiet c)).

(** The models the request handler holds after [load_models] *)
Definition MODELS : gmap string Server.server_model :=
  dict_of [("filler"%string, Server.Tagger filler_model);
           ("repetition"%string, Server.Tagger repetition_model);
           ("truecase"%string, Server.Caser (fun text => Some text))].

End Example.

(* ===================================================================== *)
(** * Splitting and joining words *)
(* ===================================================================== *)

Lemma append_cons c (s t : string) : String c s +:+ t = String c (s +:+ t).
Proof. reflexivity. Qed.

Lemma append_empty_r (s : string) : s +:+ "" = s.
Proof. induction s as [|c s IH]; [done | by rewrite append_cons, IH]. Qed.

Lemma cons_nonempty_words w ws :
  spacefree w = true -> Forall is_word ws -> Forall is_word (Py.cons_nonempty w ws).
Proof.
  intros Hw Hws. destruct w; simpl; [done|].
  constructor; [split; [done | exact Hw] | exact Hws].
Qed.

Lemma split_aux_words s :
  spacefree (Py.split_aux s).1 = true /\ Forall is_word (Py.split_aux s).2.
Proof.
  induction s as [|c s [IHw IHws]]; simpl; [by split|].
  destruct (Py.split_aux s) as [w ws]; simpl in *.
  destruct (Py.isspace c) eqn:Hc; simpl.
  - split; [done | by apply cons_nonempty_words].
  - rewrite Hc. by split.
Qed.

Lemma split_words s : Forall is_word (Py.split s).
Proof.
  unfold Py.split. pose proof (split_aux_words s) as [Hw Hws].
  destruct (Py.split_aux s) as [w ws]. by apply cons_nonempty_words.
Qed.

Lemma split_aux_app w s :
  spacefree w = true ->
  Py.split_aux (w +:+ s) = (w +:+ (Py.split_aux s).1, (Py.split_aux s).2).
Proof.
  induction w as [|c w IH]; intros Hw.
  - change ("" +:+ s) with s. by destruct (Py.split_aux s).
  - rewrite !append_cons. simpl in *.
    apply andb_true_iff in Hw as [Hc Hw]. rewrite (IH Hw).
    apply negb_true_iff in Hc. by rewrite Hc.
Qed.

Lemma split_aux_word w : spacefree w = true -> Py.split_aux w = (w, []).
Proof.
  induction w as [|c w IH]; simpl; intros Hw; [done|].
  apply andb_true_iff in Hw as [Hc Hw]. rewrite (IH Hw).
  apply negb_true_iff in Hc. by rewrite Hc.
Qed.

Lemma split_aux_join ws :
  Forall is_word ws ->
  Py.split_aux (Py.join " " ws) = (hd EmptyString ws, tl ws).
Proof.
  induction 1 as [|w ws [Hne Hw] Hws IH]; [done|].
  destruct ws as [|w2 ws].
  - change (Py.join " " [w]) with w. by rewrite split_aux_word.
  - change (Py.join " " (w :: w2 :: ws))
      with (w +:+ String " " (Py.join " " (w2 :: ws))).
    rewrite split_aux_app by done.
    change (Py.split_aux (String " " (Py.join " " (w2 :: ws))))
      with (let (w', ws') := Py.split_aux (Py.join " " (w2 :: ws)) in
            (EmptyString, Py.cons_nonempty w' ws')).
    rewrite IH. cbn [hd tl fst snd]. rewrite append_empty_r.
    apply Forall_cons_1 in Hws as [[Hne2 _] _].
    destruct w2; [done | reflexivity].
Qed.

Lemma split_join ws : Forall is_word ws -> Py.split (Py.join " " ws) = ws.
Proof.
  intros Hws. unfold Py.split. rewrite split_aux_join by done.
  destruct Hws as [|w ws [Hne _] _]; [done|]. simpl. by destruct w.
Qed.

Lemma enumerate_from_snd {A} i (l : list A) : snd <$> Py.enumerate_from i l = l.
Proof. revert i. induction l as [|x l IH]; intros i; simpl; [done | by rewrite IH]. Qed.

Lemma kept_sublist (P : nat * string -> Prop) `{!forall x, Decision (P x)} words :
  sublist (snd <$> filter P (Py.enumerate words)) words.
Proof.
  rewrite <- (enumerate_from_snd 0 words) at 2.
  apply fmap_sublist, sublist_filter.
Qed.

Lemma sublist_words (l k : list string) :
  sublist l k -> Forall is_word k -> Forall is_word l.
Proof.
  intros Hsub Hk. apply Forall_forall. intros x Hx.
  rewrite Forall_forall in Hk. apply Hk.
  by apply (sublist_subseteq _ _ Hsub).
Qed.

Lemma split_join_kept (P : nat * string -> Prop) `{!forall x, Decision (P x)} text :
  Py.split (Py.join " " (snd <$> filter P (Py.enumerate (Py.split text))))
  = snd <$> filter P (Py.enumerate (Py.split text)).
Proof.
  apply split_join. eapply sublist_words; [apply kept_sublist | apply split_words].
Qed.

Lemma filter_enumerate_all (P : nat * string -> Prop) `{!forall x, Decision (P x)}
    i words :
  (forall j w, words !! j = Some w -> P (i + j, w)) ->
  filter P (Py.enumerate_from i words) = Py.enumerate_from i words.
Proof.
  revert i. induction words as [|w words IH]; intros i HP; simpl; [done|].
  rewrite filter_cons_True.
  - f_equal. apply IH. intros j w' Hj.
    replace (S i + j) with (i + S j) by lia. by apply HP.
  - specialize (HP 0 w eq_refl). by rewrite Nat.add_0_r in HP.
Qed.

(* ===================================================================== *)
(** * AnnotationParser: totality and parallel lists *)
(* ===================================================================== *)

Lemma match_braced_end T s g e : Re.match_braced T s = Some (g, e) -> 0 < e.
Proof.
  unfold Re.match_braced. intros H.
  repeat case_match; simplify_eq; lia.
Qed.

Lemma match_repair_end s a b e : Re.match_repair s = Some (a, b, e) -> 0 < e.
Proof.
  unfold Re.match_repair. intros H.
  repeat case_match; simplify_eq; lia.
Qed.

Lemma match_word_end s g e : Re.match_word s = Some (g, e) -> 0 < e.
Proof.
  unfold Re.match_word. intros H.
  repeat case_match; simplify_eq; simpl; lia.
Qed.

Lemma append_words_parallel keep tag words st :
  parallel st -> parallel (append_words keep tag words st).
Proof.
  unfold append_words. generalize (Py.enumerate words) as jws.
  intros jws. revert st.
  induction jws as [|jw jws IH]; intros st Hst; simpl; [done|].
  apply IH. destruct (keep jw.2); [|done].
  unfold parallel in *; simpl. rewrite !length_app; simpl. lia.
Qed.

Lemma append_word_parallel (st : parse_state) w t :
  parallel st -> parallel (st.1 ++ [w], st.2 ++ [t]).
Proof. unfold parallel; simpl. rewrite !length_app; simpl. lia. Qed.

Create HintDb parser.
#[local] Hint Resolve append_words_parallel append_word_parallel : parser.

Ltac parser_step IH :=
  repeat case_match; simplify_eq;
  apply IH; eauto with parser;
  repeat match goal with
    | H : Re.match_braced _ _ = Some _ |- _ => apply match_braced_end in H
    | H : Re.match_repair _ = Some _ |- _ => apply match_repair_end in H
    | H : Re.match_word _ = Some _ |- _ => apply match_word_end in H
    end; lia.

Lemma filler_parse_loop_total fuel text i st :
  Py.len text - i <= fuel -> parallel st ->
  exists st', TrainFiller.parse_loop fuel text i st = Some st' /\ parallel st'.
Proof.
  revert i st.
  induction fuel as [|fuel IH]; intros i st Hfuel Hst; simpl;
    destruct (Nat.leb_spec (Py.len text) i); eauto; try lia.
  parser_step IH.
Qed.

Lemma repetition_parse_loop_total fuel text i st :
  Py.len text - i <= fuel -> parallel st ->
  exists st', TrainRepetition.parse_loop fuel text i st = Some st' /\ parallel st'.
Proof.
  revert i st.
  induction fuel as [|fuel IH]; intros i st Hfuel Hst; simpl;
    destruct (Nat.leb_spec (Py.len text) i); eauto; try lia.
  parser_step IH.
Qed.

(** C3: on every input string both annotation parsers return, and the
    token list and the tag list they return have the same length. *)
Theorem parsers_return_parallel_lists (annotated : string) :
  (exists tokens tags,
     TrainFiller.parse_fillers_only annotated = Some (tokens, tags)
     /\ length tokens = length tags)
  /\ (exists tokens tags,
        TrainRepetition.parse_disfluency_speech_transcript annotated
          = Some (tokens, tags)
        /\ length tokens = length tags).
Proof.
  split.
  - destruct (filler_parse_loop_total
                (Py.len (Re.sub (fun _ => Re.match_markup) "" annotated))
                (Re.sub (fun _ => Re.match_markup) "" annotated) 0 ([], []))
      as ([tokens tags] & Hrun & Hpar); [lia | done |].
    exists tokens, tags. split; [exact Hrun | exact Hpar].
  - destruct (repetition_parse_loop_total
                (Py.len (Re.sub (fun _ => Re.match_markup) "" annotated))
                (Re.sub (fun _ => Re.match_markup) "" annotated) 0 ([], []))
      as ([tokens tags] & Hrun & Hpar); [lia | done |].
    exists tokens, tags. split; [exact Hrun | exact Hpar].
Qed.

(* ===================================================================== *)
(** * AnnotationParser: the filler-only parser opens every span with B *)
(* ===================================================================== *)

Lemma bio_from_app prev tags1 tags2 :
  bio_from prev (tags1 ++ tags2)
  = bio_from prev tags1 && bio_from (from_option Some prev (last tags1)) tags2.
Proof.
  revert prev. induction tags1 as [|t tags1 IH]; intros prev; [done|].
  cbn [bio_from app]. rewrite IH, andb_assoc. do 2 f_equal.
  rewrite last_cons. by destruct (last tags1).
Qed.

Lemma append_closed_run tags run :
  bio_well_formed tags = true -> closed_run run ->
  bio_well_formed (tags ++ run) = true.
Proof.
  unfold bio_well_formed. intros Htags Hrun.
  by rewrite bio_from_app, Htags, Hrun.
Qed.

Lemma outside_run n : closed_run (replicate n "O"%string).
Proof. intros prev. revert prev. induction n as [|n IH]; intros prev; [done | apply IH]. Qed.

Lemma filler_run n :
  closed_run (TrainFiller.bi_tag <$> seq 0 n).
Proof.
  intros prev. destruct n as [|n]; [done|].
  cbn [seq fmap list_fmap bio_from]. change (bio_from (Some "B-FILL"%string)
    (TrainFiller.bi_tag <$> seq 1 n) = true).
  assert (forall k p, (p = "B-FILL" \/ p = "I-FILL")%string ->
            bio_from (Some p) (TrainFiller.bi_tag <$> seq (S k) n) = true) as Hrest.
  { clear. induction n as [|n IH]; intros k p Hp; [done|].
    cbn [seq fmap list_fmap bio_from].
    change (TrainFiller.bi_tag (S k)) with "I-FILL"%string.
    rewrite (IH (S k)) by (by right).
    by destruct Hp as [-> | ->]. }
  apply Hrest. by left.
Qed.

Lemma append_words_tags keep tag words st :
  exists js,
    (append_words keep tag words st).2 = st.2 ++ (tag <$> js)
    /\ ((forall w, w ∈ words -> keep w = true) -> js = seq 0 (length words)).
Proof.
  unfold append_words, Py.enumerate. generalize 0 as j. revert st.
  induction words as [|w words IH]; intros st j; simpl.
  - exists []. by rewrite app_nil_r.
  - destruct (keep w) eqn:Hw.
    + destruct (IH (st.1 ++ [Py.lower w], st.2 ++ [tag j]) (S j))
        as (js & -> & Hall).
      exists (j :: js). simpl. rewrite <- app_assoc. split; [done|].
      intros Hkeep. rewrite Hall; [done|]. intros w' Hw'. apply Hkeep. by right.
    + destruct (IH st (S j)) as (js & -> & Hall).
      exists js. split; [done|]. intros Hkeep.
      rewrite Hkeep in Hw by (by left). done.
Qed.

Lemma truthy_words s w : w ∈ Py.split s -> truthy w = true.
Proof.
  intros Hw. pose proof (split_words s) as Hall.
  rewrite Forall_forall in Hall. destruct (Hall w Hw) as [Hne _].
  by destruct w.
Qed.

Lemma append_fillers_bio g st :
  bio_state st ->
  bio_state (append_words truthy TrainFiller.bi_tag (words_of g) st).
Proof.
  intros Hst. unfold bio_state.
  destruct (append_words_tags truthy TrainFiller.bi_tag (words_of g) st)
    as (js & -> & Hall).
  rewrite Hall by apply truthy_words.
  apply append_closed_run; [done | apply filler_run].
Qed.

Lemma append_outside_bio keep words st :
  bio_state st -> bio_state (append_words keep TrainFiller.o_tag words st).
Proof.
  intros Hst. unfold bio_state.
  destruct (append_words_tags keep TrainFiller.o_tag words st) as (js & -> & _).
  apply append_closed_run; [done|].
  replace (TrainFiller.o_tag <$> js) with (replicate (length js) "O"%string);
    [apply outside_run|].
  induction js as [|j js IH]; [done | simpl; by rewrite IH].
Qed.

Lemma append_plain_bio (st : parse_state) w :
  bio_state st -> bio_state (st.1 ++ [w], st.2 ++ ["O"%string]).
Proof.
  intros Hst. unfold bio_state. simpl.
  apply append_closed_run; [done | apply (outside_run 1)].
Qed.

(** Every tag sequence that [parse_fillers_only] returns is BIO
    well-formed. *)
Lemma filler_parse_loop_bio fuel text :
  forall i st st',
    TrainFiller.parse_loop fuel text i st = Some st' ->
    bio_state st -> bio_state st'.
Proof.
  induction fuel as [|fuel IH]; intros i st st' Hrun Hst; simpl in Hrun;
    destruct (Py.len text <=? i); simplify_eq; try done.
  repeat case_match; simplify_eq;
    (eapply IH; [exact Hrun|]);
    auto using append_fillers_bio, append_outside_bio, append_plain_bio.
Qed.

Lemma parse_fillers_only_bio annotated tokens tags :
  TrainFiller.parse_fillers_only annotated = Some (tokens, tags) ->
  bio_well_formed tags = true.
Proof.
  unfold TrainFiller.parse_fillers_only. intros Hrun.
  by apply filler_parse_loop_bio in Hrun.
Qed.

(* ===================================================================== *)
(** * AnnotationParser: a dropped fragment leaves an inside tag first *)
(* ===================================================================== *)

(** C1 (fails on the code): in [parse_disfluency_speech_transcript] the
    begin tag goes to the word at index 0 of the reparandum, also when that
    word is a fragment and is dropped.  On the bracket below the first
    emitted tag is [I-REP], so the tag sequence is not BIO well-formed. *)
Theorem fragment_first_breaks_bio :
  TrainRepetition.parse_disfluency_speech_transcript "[-a b + c]"
    = Some (["b"; "c"]%string, ["I-REP"; "O"]%string)
  /\ bio_well_formed ["I-REP"; "O"]%string = false.
Proof. split; reflexivity. Qed.

(* ===================================================================== *)
(** * LabelAligner: expansion to subwords and back *)
(* ===================================================================== *)

Section AlignFacts.

Variable LABEL_LIST : list string.
Variable LABEL2ID : gmap string Z.
Variables B_TAG I_TAG : string.

(** The expansion returns, with one label id per subword, and the first
    subword of a word carries the label id of the word. *)
Lemma align_loop_first (label : list Z) :
  Forall (fun id => is_Some (Py.index LABEL_LIST id)) label ->
  is_Some (LABEL2ID !! I_TAG) ->
  forall word_ids previous_word_idx label_ids,
    (forall w, Some w ∈ word_ids -> w < length label) ->
    exists out,
      align_loop LABEL_LIST LABEL2ID B_TAG I_TAG label word_ids
        previous_word_idx label_ids = Some (label_ids ++ out)
      /\ length out = length word_ids
      /\ forall j w, word_ids !! j = Some (Some w) ->
                     Some w ∉ take j word_ids ->
                     previous_word_idx <> Some w ->
                     out !! j = label !! w.
Proof.
  intros Hnames [i Hi].
  induction word_ids as [|word_idx word_ids IH];
    intros prev acc Hrange; simpl.
  - exists []. rewrite app_nil_r. split; [done|]. split; [done|].
    intros j w Hj. by rewrite lookup_nil in Hj.
  - assert (forall w, Some w ∈ word_ids -> w < length label) as Hrange'
      by (intros w Hw; apply Hrange; by right).
    assert (forall x out,
              (forall j w, word_ids !! j = Some (Some w) ->
                           Some w ∉ take j word_ids -> word_idx <> Some w ->
                           out !! j = label !! w) ->
              (forall w, word_idx = Some w -> prev <> Some w ->
                         Some x = label !! w) ->
              forall j w, (word_idx :: word_ids) !! j = Some (Some w) ->
                          Some w ∉ take j (word_idx :: word_ids) ->
                          prev <> Some w ->
                          (x :: out) !! j = label !! w) as Hcons.
    { intros x out Hout Hx [|j] w Hj Hfirst Hprev; simpl in *.
      - simplify_eq. by apply Hx.
      - apply Hout; [done | |].
        + intros Hin. apply Hfirst. by right.
        + intros ->. apply Hfirst. by left. }
    destruct word_idx as [w0|].
    + destruct (lookup_lt_is_Some_2 label w0) as [l Hl];
        [apply Hrange; by left|].
      rewrite Hl. simpl.
      destruct (decide (Some w0 <> prev)) as [Hne|Heq].
      * destruct (IH (Some w0) (acc ++ [l]) Hrange') as (out & -> & Hlen & Hout).
        exists (l :: out). rewrite <- app_assoc. split; [done|].
        split; [simpl; by rewrite Hlen|].
        apply Hcons; [done|]. intros w ? _. by simplify_eq.
      * rewrite Forall_forall in Hnames.
        destruct (Hnames l) as [name Hname]; [by eapply list_elem_of_lookup_2|].
        rewrite Hname. simpl.
        destruct (String.eqb name B_TAG).
        -- rewrite Hi. simpl.
           destruct (IH (Some w0) (acc ++ [i]) Hrange') as (out & -> & Hlen & Hout).
           exists (i :: out). rewrite <- app_assoc. split; [done|].
           split; [simpl; by rewrite Hlen|].
           apply Hcons; [done|]. intros w ? Hprev. simplify_eq.
           destruct Heq. by intros <-.
        -- destruct (IH (Some w0) (acc ++ [l]) Hrange') as (out & -> & Hlen & Hout).
           exists (l :: out). rewrite <- app_assoc. split; [done|].
           split; [simpl; by rewrite Hlen|].
           apply Hcons; [done|]. intros w ? _. by simplify_eq.
    + destruct (IH None (acc ++ [(-100)%Z]) Hrange') as (out & -> & Hlen & Hout).
      exists ((-100)%Z :: out). rewrite <- app_assoc. split; [done|].
      split; [simpl; by rewrite Hlen|].
      apply Hcons; [done | done].
Qed.

End AlignFacts.

(** The reconstruction reads, for every word, the label of its first
    subword only: [expected w] at a word that occurs, nothing elsewhere. *)
Lemma word_labels_loop_first id2label predictions (expected : nat -> option string) :
  forall word_ids idx word_labels,
    (forall j w, word_ids !! j = Some (Some w) ->
                 Some w ∉ take j word_ids ->
                 word_labels !! w = None ->
                 exists p l, predictions !! (idx + j) = Some p
                             /\ id2label !! p = Some l
                             /\ expected w = Some l) ->
    exists word_labels',
      Models.word_labels_loop id2label predictions idx word_ids word_labels
        = Some word_labels'
      /\ forall w, word_labels' !! w
                   = match word_labels !! w with
                     | Some l => Some l
                     | None => if decide (Some w ∈ word_ids) then expected w
                               else None
                     end.
Proof.
  induction word_ids as [|word_idx word_ids IH]; intros idx wl Hfirst;
    cbn [Models.word_labels_loop].
  - exists wl. split; [done|]. intros w. destruct (wl !! w); [done|].
    rewrite decide_False; [done | apply not_elem_of_nil].
  - assert (forall wl' : gmap nat string,
              (forall w, wl' !! w = None -> wl !! w = None /\ word_idx <> Some w) ->
              forall j w, word_ids !! j = Some (Some w) ->
                          Some w ∉ take j word_ids ->
                          wl' !! w = None ->
                          exists p l, predictions !! (S idx + j) = Some p
                                      /\ id2label !! p = Some l
                                      /\ expected w = Some l) as Hnext.
    { intros wl' Hwl' j w Hj Hnot Hnone.
      destruct (Hwl' w Hnone) as [Hwl Hne].
      replace (S idx + j) with (idx + S j) by lia.
      apply Hfirst; [done | | done].
      simpl. intros [?|?]%elem_of_cons; by simplify_eq. }
    destruct word_idx as [w0|].
    + destruct (decide (wl !! w0 = None)) as [Hnone|Hsome].
      * destruct (Hfirst 0 w0) as (p & l & Hp & Hl & He);
          [done | simpl; apply not_elem_of_nil | done |].
        rewrite Nat.add_0_r in Hp. rewrite Hp. simpl. rewrite Hl. simpl.
        destruct (IH (S idx) (<[w0 := l]> wl)) as (wl' & -> & Hwl').
        { apply Hnext. intros w Hw.
          destruct (decide (w0 = w)) as [->|Hne];
            [by rewrite lookup_insert_eq in Hw|].
          rewrite lookup_insert_ne in Hw by done. split; [done | congruence]. }
        exists wl'. split; [done|]. intros w. rewrite Hwl'.
        destruct (decide (w0 = w)) as [->|Hne].
        -- rewrite lookup_insert_eq, Hnone, decide_True by (by left). done.
        -- rewrite lookup_insert_ne by done. destruct (wl !! w); [done|].
           apply decide_ext. rewrite elem_of_cons.
           split; [by right | intros [?|?]; [by simplify_eq | done]].
      * destruct (IH (S idx) wl) as (wl' & -> & Hwl').
        { apply Hnext. intros w Hw. split; [done | congruence]. }
        exists wl'. split; [done|]. intros w. rewrite Hwl'.
        destruct (wl !! w) eqn:Hw; [done|].
        apply decide_ext. rewrite elem_of_cons.
           split; [by right | intros [?|?]; [by simplify_eq | done]].
    + destruct (IH (S idx) wl) as (wl' & -> & Hwl').
      { apply Hnext. intros w Hw. split; [done | congruence]. }
      exists wl'. split; [done|]. intros w. rewrite Hwl'.
      destruct (wl !! w); [done|].
      apply decide_ext. rewrite elem_of_cons.
           split; [by right | intros [?|?]; [by simplify_eq | done]].
Qed.

Lemma first_occurrence {A} `{EqDecision A} (x : A) (l : list A) :
  x ∈ l -> exists j, l !! j = Some x /\ x ∉ take j l.
Proof.
  induction l as [|y l IH]; intros Hin; [by apply elem_of_nil in Hin|].
  destruct (decide (x = y)) as [->|Hne].
  - exists 0. split; [done | simpl; apply not_elem_of_nil].
  - apply elem_of_cons in Hin as [?|Hin]; [done|].
    destruct (IH Hin) as (j & Hj & Hnot). exists (S j). split; [done|].
    simpl. intros [?|?]%elem_of_cons; done.
Qed.

Lemma covers_elem_of n word_ids w :
  covers n word_ids -> Some w ∈ word_ids <-> w < n.
Proof.
  intros [Hin Hall]. split.
  - intros Hw. rewrite Forall_forall in Hin. exact (Hin _ Hw).
  - intros Hw. rewrite Forall_forall in Hall. apply Hall.
    apply elem_of_seq. lia.
Qed.

Lemma round_trip_any_labels LABEL_LIST B_TAG I_TAG tags word_ids words :
  Forall (fun t => exists id,
            label2id LABEL_LIST !! t = Some id
            /\ id2label_of LABEL_LIST !! id = Some t
            /\ is_Some (Py.index LABEL_LIST id)) tags ->
  is_Some (label2id LABEL_LIST !! I_TAG) ->
  covers (length tags) word_ids ->
  exists label label_ids word_labels,
    encode_tags (label2id LABEL_LIST) tags = Some label
    /\ align_labels LABEL_LIST (label2id LABEL_LIST) B_TAG I_TAG label word_ids
       = Some label_ids
    /\ Models._get_word_labels (memorised LABEL_LIST word_ids label_ids) words
       = Some word_labels
    /\ (forall i, word_labels !! i = tags !! i)
    /\ Models.get_label word_labels <$> seq 0 (length tags) = tags.
Proof.
  intros Htags HI Hcov.
  destruct (mapM_is_Some_2 (fun t => label2id LABEL_LIST !! t) tags)
    as [label Hlabel].
  { eapply Forall_impl; [exact Htags|]. intros t (id & Hid & _). by exists id. }
  pose proof Hlabel as Hpairs. apply mapM_Some in Hpairs.
  pose proof (Forall2_length _ _ _ Hpairs) as Hlen.
  assert (forall w t, tags !! w = Some t ->
            exists id, label !! w = Some id
                       /\ id2label_of LABEL_LIST !! id = Some t
                       /\ is_Some (Py.index LABEL_LIST id)) as Hword.
  { intros w t Hw.
    destruct (Forall2_lookup_l _ _ _ _ _ Hpairs Hw) as (id & Hid & Hlook).
    rewrite Forall_forall in Htags.
    destruct (Htags t) as (id' & Hid' & Hback & Hname);
      [by eapply list_elem_of_lookup_2|].
    exists id. by simplify_eq. }
  destruct (align_loop_first LABEL_LIST (label2id LABEL_LIST) B_TAG I_TAG label)
    with (word_ids := word_ids) (previous_word_idx := @None nat)
         (label_ids := @nil Z)
    as (label_ids & Halign & Hlens & Hfirst); [| done | |].
  { apply Forall_forall. intros id [w Hw]%list_elem_of_lookup_1.
    destruct (lookup_lt_is_Some_2 tags w) as [t Ht];
      [rewrite Hlen; by eapply lookup_lt_Some|].
    destruct (Hword w t Ht) as (id' & ? & _ & ?). by simplify_eq. }
  { intros w Hw. rewrite <- Hlen. by apply (covers_elem_of _ word_ids). }
  rewrite app_nil_l in Halign.
  destruct (word_labels_loop_first (id2label_of LABEL_LIST) label_ids
              (fun w => tags !! w) word_ids 0 ∅)
    as (word_labels & Hloop & Hlabels).
  { intros j w Hj Hnot _.
    destruct (lookup_lt_is_Some_2 tags w) as [t Ht].
    { apply (covers_elem_of _ word_ids); [done|].
      by eapply list_elem_of_lookup_2. }
    destruct (Hword w t Ht) as (id & Hid & Hback & _).
    exists id, t. rewrite Nat.add_0_l, (Hfirst j w) by done. done. }
  assert (forall i, word_labels !! i = tags !! i) as Hsame.
  { intros i. rewrite Hlabels, lookup_empty.
    case_decide as Hin; [done|]. symmetry. apply lookup_ge_None_2.
    destruct (decide (i < length tags)) as [Hi|]; [|lia].
    destruct Hin. by apply (covers_elem_of (length tags)). }
  exists label, label_ids, word_labels.
  split; [done|]. split; [done|]. split; [done|]. split; [done|].
  apply list_eq. intros i. rewrite list_lookup_fmap.
  destruct (decide (i < length tags)) as [Hi|Hi].
  - rewrite lookup_seq_lt by done. simpl. unfold Models.get_label.
    rewrite Hsame. by destruct (lookup_lt_is_Some_2 tags i Hi) as [t ->].
  - rewrite (lookup_ge_None_2 tags), (lookup_ge_None_2 (seq 0 _));
      [done | rewrite length_seq; lia | lia].
Qed.

(** C2: word tags are expanded to subword label ids by
    [tokenize_and_align_labels]; a network that predicts exactly these ids
    is read back by [_get_word_labels], which keeps the first subword of
    each word.  The word tags come back unchanged, for every tokenization
    that gives each word at least one subword. *)
Theorem alignment_round_trip (tags : list string) (word_ids : list (option nat))
    (words : list string) :
  Forall (fun t => t ∈ TrainRepetition.LABEL_LIST) tags ->
  covers (length tags) word_ids ->
  exists label label_ids word_labels,
    encode_tags TrainRepetition.LABEL2ID tags = Some label
    /\ TrainRepetition.tokenize_and_align_labels label word_ids = Some label_ids
    /\ Models._get_word_labels
         (memorised TrainRepetition.LABEL_LIST word_ids label_ids) words
       = Some word_labels
    /\ (forall i, word_labels !! i = tags !! i)
    /\ Models.get_label word_labels <$> seq 0 (length tags) = tags.
Proof.
  intros Htags Hcov.
  apply round_trip_any_labels; [| by eexists | done].
  eapply Forall_impl; [exact Htags|]. intros t Ht.
  unfold TrainRepetition.LABEL_LIST in Ht. rewrite !elem_of_cons in Ht.
  destruct Ht as [-> | [-> | [-> | Ht]]];
    [exists 0%Z | exists 1%Z | exists 2%Z | by apply elem_of_nil in Ht];
    (split; [reflexivity|]; split; [reflexivity | by eexists]).
Qed.

Lemma alignment_round_trip_witness :
  exists label label_ids word_labels,
    encode_tags TrainRepetition.LABEL2ID ["O"; "B-REP"; "I-REP"; "O"]%string
      = Some label
    /\ TrainRepetition.tokenize_and_align_labels label
         [None; Some 0; Some 1; Some 1; Some 2; Some 3; Some 3; None]
       = Some label_ids
    /\ Models._get_word_labels
         (memorised TrainRepetition.LABEL_LIST
            [None; Some 0; Some 1; Some 1; Some 2; Some 3; Some 3; None]
            label_ids)
         ["i"; "unbelievably"; "i"; "thinking"]%string
       = Some word_labels
    /\ (forall i, word_labels !! i
                  = ["O"; "B-REP"; "I-REP"; "O"]%string !! i)
    /\ Models.get_label word_labels <$> seq 0 4
       = ["O"; "B-REP"; "I-REP"; "O"]%string.
Proof.
  apply (alignment_round_trip ["O"; "B-REP"; "I-REP"; "O"]%string
           [None; Some 0; Some 1; Some 1; Some 2; Some 3; Some 3; None]
           ["i"; "unbelievably"; "i"; "thinking"]%string).
  - repeat constructor.
  - split; simpl; repeat constructor.
Defined.

(** The same round trip with the label list of [train_filler.py] *)
Lemma alignment_round_trip_filler (tags : list string)
    (word_ids : list (option nat)) (words : list string) :
  Forall (fun t => t ∈ TrainFiller.LABEL_LIST) tags ->
  covers (length tags) word_ids ->
  exists label label_ids word_labels,
    encode_tags TrainFiller.LABEL2ID tags = Some label
    /\ TrainFiller.tokenize_and_align_labels label word_ids = Some label_ids
    /\ Models._get_word_labels
         (memorised TrainFiller.LABEL_LIST word_ids label_ids) words
       = Some word_labels
    /\ (forall i, word_labels !! i = tags !! i)
    /\ Models.get_label word_labels <$> seq 0 (length tags) = tags.
Proof.
  intros Htags Hcov.
  apply round_trip_any_labels; [| by eexists | done].
  eapply Forall_impl; [exact Htags|]. intros t Ht.
  unfold TrainFiller.LABEL_LIST in Ht. rewrite !elem_of_cons in Ht.
  destruct Ht as [-> | [-> | [-> | Ht]]];
    [exists 0%Z | exists 1%Z | exists 2%Z | by apply elem_of_nil in Ht];
    (split; [reflexivity|]; split; [reflexivity | by eexists]).
Qed.

(* ===================================================================== *)
(** * SpanClassifier: repetition or repair *)
(* ===================================================================== *)

Lemma fluent_not_reparandum t :
  TrainRepetitionOnly.is_reparandum_tag t = true ->
  TrainRepetitionOnly.is_fluent_tag t = false.
Proof.
  unfold TrainRepetitionOnly.is_reparandum_tag, TrainRepetitionOnly.is_fluent_tag.
  intros Ht%bool_decide_eq_true. apply bool_decide_eq_false.
  rewrite !elem_of_cons in Ht. rewrite !elem_of_cons.
  destruct Ht as [-> | [-> | [-> | Ht]]]; [| | | by apply elem_of_nil in Ht].
  all: intros [? | [? | Hnil]]; try discriminate; by apply elem_of_nil in Hnil.
Qed.

(** The loop of [is_repetition] collects the reparandum words and, once a
    reparandum word was seen, the fluent words. *)
Lemma scan_collects wts :
  forall st,
    let st' := foldl TrainRepetitionOnly.scan_step st wts in
    TrainRepetitionOnly.reparandum_words st'
      = TrainRepetitionOnly.reparandum_words st ++ tagged_reparandum wts
    /\ TrainRepetitionOnly.repair_words st'
       = TrainRepetitionOnly.repair_words st
         ++ fluent_words (if TrainRepetitionOnly.seen_reparandum st then wts
                         else after_first_reparandum wts).
Proof.
  induction wts as [|wt wts IH]; intros st; cbn [foldl].
  - cbv zeta. change (tagged_reparandum []) with (@nil string).
    split; [by rewrite app_nil_r|].
    destruct (TrainRepetitionOnly.seen_reparandum st); cbn [after_first_reparandum];
      change (fluent_words []) with (@nil string); by rewrite app_nil_r.
  - destruct (IH (TrainRepetitionOnly.scan_step st wt)) as [Hrep Hfix].
    cbv zeta. rewrite Hrep, Hfix. clear Hrep Hfix IH.
    unfold TrainRepetitionOnly.scan_step, tagged_reparandum, fluent_words.
    cbn [after_first_reparandum].
    destruct (TrainRepetitionOnly.is_reparandum_tag wt.2) eqn:Hr.
    + pose proof (fluent_not_reparandum _ Hr) as Hf. simpl.
      rewrite filter_cons_True by done. rewrite fmap_cons, <- app_assoc.
      split; [done|].
      destruct (TrainRepetitionOnly.seen_reparandum st); [|done].
      by rewrite filter_cons_False by congruence.
    + rewrite (filter_cons_False _ wt) by congruence.
      destruct (TrainRepetitionOnly.is_fluent_tag wt.2) eqn:Hf;
        destruct (TrainRepetitionOnly.seen_reparandum st) eqn:Hs; simpl;
        rewrite ?Hs; (split; [done|]).
      * rewrite filter_cons_True by done. by rewrite fmap_cons, <- app_assoc.
      * done.
      * by rewrite filter_cons_False by congruence.
      * done.
Qed.

Lemma reparandum_set_size (rep : list string) :
  rep <> [] -> size (list_to_set rep : gset string) <> 0.
Proof.
  destruct rep as [|w rep]; [done|]. intros _.
  apply size_non_empty_iff. intros Hempty.
  apply (not_elem_of_empty (C := gset string) w).
  rewrite <- Hempty. simpl. set_solver.
Qed.

(** What the loop of [is_repetition] computes on every input *)
Lemma is_repetition_pooled (words tags : list string) :
  (tagged_reparandum (zip words tags) <> [] ->
   TrainRepetitionOnly.is_repetition words tags
   = (Qle_bool (1 # 2) (pooled_overlap (zip words tags)),
      tagged_reparandum (zip words tags),
      fluent_words (after_first_reparandum (zip words tags))))
  /\ (tagged_reparandum (zip words tags) = [] ->
      TrainRepetitionOnly.is_repetition words tags = (false, [], [])).
Proof.
  pose proof (scan_collects (zip words tags)
                {| TrainRepetitionOnly.reparandum_words := [];
                   TrainRepetitionOnly.repair_words := [];
                   TrainRepetitionOnly.seen_reparandum := false |})
    as [Hrep Hfix].
  cbv zeta in Hrep, Hfix. cbn [TrainRepetitionOnly.reparandum_words
    TrainRepetitionOnly.repair_words TrainRepetitionOnly.seen_reparandum]
    in Hrep, Hfix.
  rewrite app_nil_l in Hrep, Hfix.
  split.
  - intros Hne. unfold TrainRepetitionOnly.is_repetition. cbv zeta.
    rewrite Hrep, Hfix.
    destruct (tagged_reparandum (zip words tags)) as [|w rep] eqn:Heq; [done|].
    rewrite <- Heq. repeat f_equal.
    unfold TrainRepetitionOnly.overlap_ratio, pooled_overlap, pooled_window.
    cbv zeta.
    destruct (Nat.eqb_spec
                (size (list_to_set (tagged_reparandum (zip words tags))
                       : gset string)) 0) as [Hzero|_]; [|done].
    exfalso. revert Hzero. apply reparandum_set_size. by rewrite Heq.
  - intros Hnil. unfold TrainRepetitionOnly.is_repetition. cbv zeta.
    by rewrite Hrep, Hnil.
Qed.

(** A run of reparandum words holds no fluent word. *)
Lemma reparandum_run_fluent wts :
  fluent_words wts = fluent_words (reparandum_run wts).2.
Proof.
  induction wts as [|wt wts IH]; [done|]. cbn [reparandum_run].
  destruct (TrainRepetitionOnly.is_reparandum_tag wt.2) eqn:Hr; [|done].
  destruct (reparandum_run wts) as [run rest]. cbn [snd] in *.
  unfold fluent_words in *.
  rewrite filter_cons_False; [exact IH|].
  by rewrite (fluent_not_reparandum _ Hr).
Qed.

(** The fluent words after the first reparandum word are the fluent words
    after the contiguous reparandum. *)
Lemma fluent_after_reparandum wts :
  fluent_words (after_first_reparandum wts) = fluent_words (spec_following wts).
Proof.
  unfold spec_following.
  induction wts as [|wt wts IH]; [done|].
  cbn [after_first_reparandum from_reparandum].
  destruct (TrainRepetitionOnly.is_reparandum_tag wt.2) eqn:Hr; [|exact IH].
  cbn [reparandum_run]. rewrite Hr.
  rewrite (reparandum_run_fluent wts).
  by destruct (reparandum_run wts).
Qed.

Lemma reparandum_run_all wts :
  Forall (fun wt : string * string =>
            TrainRepetitionOnly.is_reparandum_tag wt.2 = false)
         (reparandum_run wts).2 ->
  filter (fun wt : string * string =>
            TrainRepetitionOnly.is_reparandum_tag wt.2 = true) wts
  = (reparandum_run wts).1.
Proof.
  induction wts as [|wt wts IH]; [done|]. cbn [reparandum_run].
  destruct (TrainRepetitionOnly.is_reparandum_tag wt.2) eqn:Hr.
  - destruct (reparandum_run wts) as [run rest]. cbn [fst snd] in *.
    intros Hrest. rewrite filter_cons_True by done. by rewrite IH.
  - cbn [fst snd]. intros Hall. clear IH Hr.
    induction Hall as [|x l Hx _ IH]; [done|].
    rewrite filter_cons_False by congruence. exact IH.
Qed.

(** With one reparandum in the sentence, the reparandum words of the loop
    are the contiguous reparandum. *)
Lemma tagged_is_contiguous wts :
  one_reparandum wts -> tagged_reparandum wts = spec_reparandum wts.
Proof.
  unfold one_reparandum, spec_following, tagged_reparandum, spec_reparandum.
  induction wts as [|wt wts IH]; [done|]. cbn [from_reparandum].
  destruct (TrainRepetitionOnly.is_reparandum_tag wt.2) eqn:Hr.
  - intros Hone. by rewrite (reparandum_run_all _ Hone).
  - intros Hone. rewrite filter_cons_False by congruence. by apply IH.
Qed.

(** The sentence has a reparandum word exactly when its contiguous
    reparandum is not empty. *)
Lemma no_reparandum wts : spec_reparandum wts = [] -> tagged_reparandum wts = [].
Proof.
  unfold tagged_reparandum, spec_reparandum.
  induction wts as [|wt wts IH]; [done|]. cbn [from_reparandum].
  destruct (TrainRepetitionOnly.is_reparandum_tag wt.2) eqn:Hr.
  - cbn [reparandum_run]. rewrite Hr. by destruct (reparandum_run wts).
  - intros Hnil. rewrite filter_cons_False by congruence. by apply IH.
Qed.

(** C4 as stated fails: in a sentence with two reparanda the loop pools
    the reparandum words of both and counts a fluent word that stands
    between them.  For the contiguous reparandum [it] and the fluent words
    that follow it the overlap is 0, a REPAIR; the loop finds the second
    reparandum word [is] among the fluent words and answers REPETITION. *)
Lemma is_repetition_pools_reparanda :
  TrainRepetitionOnly.is_repetition
    ["it"; "is"; "is"; "fine"]%string ["BE"; "O"; "BE"; "O"]%string
  = (true, ["it"; "is"]%string, ["is"; "fine"]%string)
  /\ spec_reparandum (zip ["it"; "is"; "is"; "fine"] ["BE"; "O"; "BE"; "O"])%string
     = ["it"%string]
  /\ spec_repair_window
       (zip ["it"; "is"; "is"; "fine"] ["BE"; "O"; "BE"; "O"])%string
     = ["is"; "fine"]%string
  /\ spec_repetition
       (zip ["it"; "is"; "is"; "fine"] ["BE"; "O"; "BE"; "O"])%string
     = false
  /\ (TrainRepetitionOnly.is_repetition
        ["it"; "is"; "is"; "fine"]%string ["BE"; "O"; "BE"; "O"]%string).1.1
     <> spec_repetition
          (zip ["it"; "is"; "is"; "fine"] ["BE"; "O"; "BE"; "O"])%string.
Proof.
  repeat split; [vm_compute; reflexivity .. |].
  vm_compute. discriminate.
Qed.

(** C4, amended: on ASCII words, with at least one reparandum word in the
    sentence, [is_repetition] pools the reparandum words of the whole
    sentence, takes the first [|reparandum| + 3] fluent words after the
    first reparandum word as window, and answers REPETITION exactly when
    the share of the reparandum set found in the window is at least one
    half; it returns the reparandum words and the fluent words.  When the
    sentence has one reparandum, this is the classification of the
    specification: the overlap of the contiguous reparandum with the
    fluent words that follow it.  Without a reparandum word the answer is
    not-a-repetition with two empty lists.  The two examples of the
    specification come out as REPETITION and as REPAIR. *)
Theorem is_repetition_by_overlap (words tags : list string) :
  Forall (fun w => Py.isascii w = true) words ->
  (tagged_reparandum (zip words tags) <> [] ->
   TrainRepetitionOnly.is_repetition words tags
   = (Qle_bool (1 # 2) (pooled_overlap (zip words tags)),
      tagged_reparandum (zip words tags),
      fluent_words (after_first_reparandum (zip words tags)))
   /\ ((TrainRepetitionOnly.is_repetition words tags).1.1 = true
       <-> (1 # 2 <= pooled_overlap (zip words tags))%Q))
  /\ (one_reparandum (zip words tags) ->
      spec_reparandum (zip words tags) <> [] ->
      TrainRepetitionOnly.is_repetition words tags
      = (spec_repetition (zip words tags),
         spec_reparandum (zip words tags),
         fluent_words (spec_following (zip words tags)))
      /\ ((TrainRepetitionOnly.is_repetition words tags).1.1 = true
          <-> (1 # 2 <= spec_overlap (zip words tags))%Q))
  /\ (spec_reparandum (zip words tags) = [] ->
      TrainRepetitionOnly.is_repetition words tags = (false, [], []))
  /\ (spec_reparandum (zip ["I"; "I"; "think"] ["BE"; "O"; "O"])%string
      = ["i"%string]
      /\ spec_repair_window (zip ["I"; "I"; "think"] ["BE"; "O"; "O"])%string
         = ["i"; "think"]%string
      /\ TrainRepetitionOnly.is_repetition
           ["I"; "I"; "think"]%string ["BE"; "O"; "O"]%string
         = (true, ["i"%string], ["i"; "think"]%string))
  /\ (spec_reparandum (zip ["store"; "mall"] ["BE"; "O"])%string
      = ["store"%string]
      /\ spec_repair_window (zip ["store"; "mall"] ["BE"; "O"])%string
         = ["mall"%string]
      /\ TrainRepetitionOnly.is_repetition
           ["store"; "mall"]%string ["BE"; "O"]%string
         = (false, ["store"%string], ["mall"%string])).
Proof.
  intros _. destruct (is_repetition_pooled words tags) as [Hsome Hnone].
  split; [|split; [|split; [|split]]].
  - intros Hne. split; [by apply Hsome|].
    rewrite (Hsome Hne). cbn [fst]. apply Qle_bool_iff.
  - intros Hone Hne.
    assert (pooled_overlap (zip words tags) = spec_overlap (zip words tags))
      as Hoverlap.
    { unfold pooled_overlap, spec_overlap, pooled_window, spec_repair_window.
      by rewrite (tagged_is_contiguous _ Hone), fluent_after_reparandum. }
    assert (TrainRepetitionOnly.is_repetition words tags
            = (spec_repetition (zip words tags),
               spec_reparandum (zip words tags),
               fluent_words (spec_following (zip words tags)))) as Heq.
    { rewrite Hsome by (by rewrite (tagged_is_contiguous _ Hone)).
      unfold spec_repetition.
      by rewrite Hoverlap, (tagged_is_contiguous _ Hone),
        fluent_after_reparandum. }
    split; [exact Heq|].
    rewrite Heq. cbn [fst]. apply Qle_bool_iff.
  - intros Hnil. by apply Hnone, no_reparandum.
  - repeat split; reflexivity.
  - repeat split; reflexivity.
Qed.

Lemma is_repetition_by_overlap_witness :
  TrainRepetitionOnly.is_repetition
    ["We"; "were"; "I"; "was"; "fortunate"]%string
    ["BE"; "IE"; "O"; "O"; "O"]%string
  = (spec_repetition (zip ["We"; "were"; "I"; "was"; "fortunate"]
                          ["BE"; "IE"; "O"; "O"; "O"])%string,
     ["we"; "were"]%string, ["i"; "was"; "fortunate"]%string).
Proof.
  destruct (is_repetition_by_overlap
              ["We"; "were"; "I"; "was"; "fortunate"]%string
              ["BE"; "IE"; "O"; "O"; "O"]%string) as (_ & Hspec & _).
  - repeat constructor.
  - destruct Hspec as [Heq _].
    + repeat constructor.
    + discriminate.
    + exact Heq.
Defined.

(* ===================================================================== *)
(** * The removal predicates *)
(* ===================================================================== *)

Lemma prefix_spec (p s : string) :
  String.prefix p s = true <-> exists post, s = p +:+ post.
Proof.
  revert s. induction p as [|a p IH]; intros s.
  - split; [intros _; by exists s | by destruct s].
  - destruct s as [|b s]; simpl.
    + split; [done | by intros [post ?]].
    + destruct (ascii_dec a b) as [->|Hne].
      * rewrite IH. split; intros [post Hpost]; exists post.
        -- by rewrite append_cons, <- Hpost.
        -- rewrite append_cons in Hpost. by simplify_eq.
      * split; [done|]. intros [post Hpost].
        rewrite append_cons in Hpost. by simplify_eq.
Qed.

(** [needle in hay] holds exactly when [hay] contains [needle]. *)
Lemma contains_spec (needle hay : string) :
  Py.contains needle hay = true
  <-> exists pre post, hay = pre +:+ needle +:+ post.
Proof.
  induction hay as [|c hay IH]; cbn [Py.contains]; rewrite orb_true_iff.
  - split.
    + intros [[post Hpost]%prefix_spec | ?]; [|done]. by exists EmptyString, post.
    + intros ([|? ?] & post & Hpost); [|done].
      left. apply prefix_spec. by exists post.
  - split.
    + intros [[post Hpost]%prefix_spec | (pre & post & Hpost)%IH].
      * by exists EmptyString, post.
      * exists (String c pre), post. by rewrite append_cons, <- Hpost.
    + intros ([|c' pre] & post & Hpost).
      * left. apply prefix_spec. by exists post.
      * right. apply IH. exists pre, post.
        rewrite append_cons in Hpost. by simplify_eq.
Qed.

(** The repair variant removes exactly the tags in which [REPAIR] occurs.
    Such a tag is not [O]; on the tags [O], [B-REPAIR] and [I-REPAIR],
    which the class names as those of its model, the variant removes
    what the baseline removes. *)
Lemma should_remove_spec (label : string) :
  (Models._should_remove label = true
   <-> exists pre post, label = pre +:+ "REPAIR" +:+ post)
  /\ (Models._should_remove label = true -> label <> "O"%string)
  /\ (label ∈ ["O"; "B-REPAIR"; "I-REPAIR"]%string ->
      (Models._should_remove label = true <-> label <> "O"%string)).
Proof.
  split; [apply contains_spec | split].
  - intros H ->. discriminate H.
  - intros Hin. rewrite !elem_of_cons in Hin.
    destruct Hin as [-> | [-> | [-> | Hin]]].
    + split; [intros H; discriminate H | done].
    + split; [done | reflexivity].
    + split; [done | reflexivity].
    + by apply elem_of_nil in Hin.
Qed.

(** C5 (fails on the code): the repair variant keeps a word whose tag is
    not [O].  A repair remover that has loaded a network with the labels
    [O], [B-REP], [I-REP] resolves the tag [B-REP] for the word [uh]; the
    tag is not [O], so the baseline predicate removes it, but the
    repair-variant predicate does not, and [process] returns the text with
    the word still in it. *)
Theorem repair_variant_keeps_marked_word :
  Models._get_word_labels Example.repair_model_rep_labels (Py.split "i uh think")
    = Some (<[2 := "O"%string]>
              (<[1 := "B-REP"%string]> (<[0 := "O"%string]> ∅)))
  /\ "B-REP"%string <> "O"%string
  /\ Models._should_remove "B-REP" = false
  /\ Models.process Example.repair_model_rep_labels "i uh think"
     = Some "i uh think"
  /\ Models.base_process Example.repair_model_rep_labels "i uh think"
     = Some "i think".
Proof.
  split; [reflexivity|]. split; [discriminate|]. split; [reflexivity|].
  split; reflexivity.
Qed.

(* ===================================================================== *)
(** * TaggerStage: words labelled O are kept *)
(* ===================================================================== *)

(** C7 as stated fails: with every word labelled [O] the output is the
    words joined by single blanks, which is not the input when the input
    holds two blanks in a row. *)
Lemma all_O_output_differs :
  Models._get_word_labels (Example.quiet Models.FillerRemover) (Py.split "a  b")
    = Some (<[1 := "O"%string]> (<[0 := "O"%string]> ∅))
  /\ Models.process (Example.quiet Models.FillerRemover) "a  b" = Some "a b"
  /\ Models.process (Example.quiet Models.FillerRemover) "a  b" <> Some "a  b".
Proof. split; [|split]; [reflexivity | reflexivity | discriminate]. Qed.

(** C7, amended: on ASCII text, blank input is returned unchanged; on any
    other input whose words are all labelled [O], [process] returns the
    words of the input joined by single blanks.  The result is the input
    itself exactly when the input is blank or equals its words joined by
    single blanks, and the latter holds exactly when the input is a
    sequence of words with one blank between neighbours and nothing
    else. *)
Theorem process_all_O (m : Models.BaseModel) (text : string) :
  Py.isascii text = true ->
  (Models.blank text = false ->
   exists word_labels,
     Models._get_word_labels m (Py.split text) = Some word_labels
     /\ forall i, i < length (Py.split text) ->
                  Models.get_label word_labels i = "O"%string) ->
  Models.process m text
    = Some (if Models.blank text then text else Py.join " " (Py.split text))
  /\ (Models.process m text = Some text
      <-> Models.blank text = true \/ Py.join " " (Py.split text) = text)
  /\ (Py.join " " (Py.split text) = text
      <-> exists ws, Forall is_word ws /\ text = Py.join " " ws).
Proof.
  intros _ Hlabels.
  assert (Models.process m text
          = Some (if Models.blank text then text
                  else Py.join " " (Py.split text))) as Hrun.
  { unfold Models.process, Models.base_process, Models.repair_process.
    destruct (Models.blank text); [by destruct (Models.class_of m)|].
    destruct Hlabels as (word_labels & -> & HO); [done|]. simpl.
    destruct (Models.class_of m); unfold Py.enumerate;
      (rewrite filter_enumerate_all;
       [by rewrite enumerate_from_snd
       | intros j w Hj; simpl; rewrite HO; [done | by eapply lookup_lt_Some]]). }
  split; [exact Hrun|]. split.
  - rewrite Hrun. destruct (Models.blank text).
    + split; [by left | done].
    + split; [intros [= Heq]; by right|].
      intros [? | Heq]; [done | by rewrite Heq].
  - split.
    + intros Heq. exists (Py.split text). split; [apply split_words | done].
    + intros (ws & Hws & ->). by rewrite split_join.
Qed.

Lemma process_all_O_witness :
  Models.process (Example.quiet Models.RepairRemover) "well  i think"
  = Some "well i think".
Proof.
  destruct (process_all_O (Example.quiet Models.RepairRemover) "well  i think")
    as [Hrun _]; [reflexivity | | exact Hrun].
  intros _.
  exists (<[2 := "O"%string]> (<[1 := "O"%string]> (<[0 := "O"%string]> ∅))).
  split; [reflexivity|].
  intros i Hi. simpl in Hi.
  destruct i as [|[|[|i]]]; [reflexivity | reflexivity | reflexivity | lia].
Defined.

(* ===================================================================== *)
(** * TaggerStage and pipeline: words are only deleted *)
(* ===================================================================== *)

Lemma word_labels_loop_total id2label predictions word_ids :
  Forall (fun p => is_Some (id2label !! p)) predictions ->
  forall idx word_labels,
    idx + length word_ids <= length predictions ->
    is_Some (Models.word_labels_loop id2label predictions idx word_ids word_labels).
Proof.
  intros Hnamed.
  induction word_ids as [|word_idx word_ids IH]; intros idx word_labels Hlen;
    simpl in *; [done|].
  destruct word_idx as [w|]; [|apply IH; lia].
  destruct (decide (word_labels !! w = None)); [|apply IH; lia].
  destruct (lookup_lt_is_Some_2 predictions idx) as [p Hp]; [lia|].
  rewrite Hp. simpl.
  rewrite Forall_forall in Hnamed.
  destruct (Hnamed p) as [l Hl]; [by eapply list_elem_of_lookup_2|].
  rewrite Hl. simpl. apply IH. lia.
Qed.

Lemma sound_get_word_labels m words :
  sound m -> is_Some (Models._get_word_labels m words).
Proof.
  intros Hm. destruct (Hm words) as [Hlen Hnamed].
  unfold Models._get_word_labels.
  apply word_labels_loop_total; [done | lia].
Qed.

Lemma process_sublist m text out :
  Models.process m text = Some out -> sublist (Py.split out) (Py.split text).
Proof.
  unfold Models.process, Models.base_process, Models.repair_process.
  intros Hrun.
  destruct (Models.class_of m), (Models.blank text);
    simplify_eq; try done;
    destruct (Models._get_word_labels m (Py.split text)) as [word_labels|];
    simplify_eq/=; rewrite split_join_kept; apply kept_sublist.
Qed.

Lemma process_returns m text :
  (Models.blank text = false -> is_Some (Models._get_word_labels m (Py.split text))) ->
  is_Some (Models.process m text).
Proof.
  unfold Models.process, Models.base_process, Models.repair_process.
  intros Hlabels.
  destruct (Models.class_of m), (Models.blank text); try done;
    destruct Hlabels as [word_labels ->]; done.
Qed.

Lemma pipeline_process_cons m models text :
  Pipeline.process (m :: models) text
  = r ← Models.process m text; Pipeline.process models r.
Proof.
  unfold Pipeline.process. simpl.
  destruct (Models.process m text) as [r|]; simpl; [done|].
  induction models as [|m' models IH]; [done | exact IH].
Qed.

Lemma pipeline_sublist models text out :
  Pipeline.process models text = Some out ->
  sublist (Py.split out) (Py.split text).
Proof.
  revert text. induction models as [|m models IH]; intros text Hrun.
  - unfold Pipeline.process in Hrun. simpl in Hrun. by simplify_eq.
  - rewrite pipeline_process_cons in Hrun.
    destruct (Models.process m text) as [r|] eqn:Hm; simplify_eq/=.
    trans (Py.split r); [by apply IH | by apply (process_sublist m)].
Qed.

Lemma pipeline_returns models text :
  Forall sound models -> is_Some (Pipeline.process models text).
Proof.
  intros Hsound. revert text.
  induction Hsound as [|m models Hm _ IH]; intros text; [done|].
  rewrite pipeline_process_cons.
  destruct (process_returns m text) as [r ->];
    [intros _; by apply sound_get_word_labels | apply IH].
Qed.

(** C10: for a non-blank text and any labeling result, the words of the
    output of [process] are a subsequence of the words of the input, and
    the same holds between the input and the output of the pipeline. *)
Theorem process_only_deletes_words (m : Models.BaseModel)
    (models : list Models.BaseModel) (text : string) :
  (forall word_labels,
     Models.blank text = false ->
     Models._get_word_labels m (Py.split text) = Some word_labels ->
     exists out, Models.process m text = Some out
                 /\ sublist (Py.split out) (Py.split text))
  /\ (forall out, Pipeline.process models text = Some out ->
                  sublist (Py.split out) (Py.split text))
  /\ (Forall sound models ->
      exists out, Pipeline.process models text = Some out
                  /\ sublist (Py.split out) (Py.split text)).
Proof.
  split; [|split].
  - intros word_labels _ Hlabels.
    destruct (process_returns m text) as [out Hout]; [by rewrite Hlabels|].
    exists out. split; [done | by apply (process_sublist m)].
  - apply (pipeline_sublist models).
  - intros Hsound. destruct (pipeline_returns models text Hsound) as [out Hout].
    exists out. split; [done | by apply (pipeline_sublist models)].
Qed.

Lemma tagger_sound c tag LABEL_LIST :
  (forall w, is_Some (id2label_of LABEL_LIST !! tag w)) ->
  is_Some (id2label_of LABEL_LIST !! 0%Z) ->
  sound (Example.tagger c tag LABEL_LIST).
Proof.
  intros Htag H0 words. split; simpl.
  - rewrite !length_app, !length_fmap, length_seq. done.
  - constructor; [done|]. apply Forall_app. split.
    + apply Forall_fmap, Forall_forall. intros w _. apply Htag.
    + by constructor.
Qed.

Lemma filler_model_sound : sound Example.filler_model.
Proof.
  apply tagger_sound; [|by eexists].
  intros w. unfold Example.filler_tag. case_bool_decide; by eexists.
Qed.

Lemma repetition_model_sound : sound Example.repetition_model.
Proof. apply tagger_sound; [intros w|]; by eexists. Qed.

Lemma process_only_deletes_words_witness :
  (exists out, Models.process Example.filler_model "i uh think" = Some out
               /\ sublist (Py.split out) (Py.split "i uh think"))
  /\ (exists out,
        Pipeline.process [Example.filler_model; Example.repetition_model]
          "i uh think um we should go" = Some out
        /\ sublist (Py.split out) (Py.split "i uh think um we should go")).
Proof.
  split.
  - apply (proj1 (process_only_deletes_words Example.filler_model []
                    "i uh think")
             (<[2 := "O"%string]> (<[1 := "B-FILL"%string]>
                (<[0 := "O"%string]> ∅))));
      reflexivity.
  - apply (process_only_deletes_words Example.filler_model
             [Example.filler_model; Example.repetition_model]
             "i uh think um we should go").
    apply Forall_cons; split; [apply filler_model_sound|].
    apply Forall_cons; split; [apply repetition_model_sound | constructor].
Defined.

(* ===================================================================== *)
(** * TaggerStage: the detailed report *)
(* ===================================================================== *)

Lemma details_fold (word_labels : gmap nat string) (iws : list (nat * string))
    (kept removed : list string) :
  foldl (Models.details_step word_labels) (kept, removed) iws
  = (kept ++ (snd <$> filter (fun iw : nat * string =>
                                Models.get_label word_labels iw.1 = "O"%string) iws),
     removed ++ (snd <$> filter (fun iw : nat * string =>
                                   Models.get_label word_labels iw.1 <> "O"%string) iws)).
Proof.
  revert kept removed.
  induction iws as [|iw iws IH]; intros kept removed.
  - simpl. by rewrite !app_nil_r.
  - cbn [foldl]. unfold Models.details_step at 2. cbn [fst snd].
    destruct (decide (Models.get_label word_labels iw.1 = "O"%string)).
    + rewrite IH, filter_cons_True, filter_cons_False by auto. simpl.
      by rewrite <- app_assoc.
    + rewrite IH, filter_cons_False, filter_cons_True by auto. simpl.
      by rewrite <- app_assoc.
Qed.

(** For the classes that inherit [process], the detailed report carries
    the output of [process] and lists the words [process] dropped. *)
Lemma base_details_agree (m : Models.BaseModel) (text : string) :
  Models.class_of m <> Models.RepairRemover ->
  Models.output <$> Models.process_with_details m text = Models.process m text
  /\ (forall word_labels,
        Models.blank text = false ->
        Models._get_word_labels m (Py.split text) = Some word_labels ->
        Models.removed <$> Models.process_with_details m text
        = Some (snd <$> filter (fun iw : nat * string =>
                                  Models.get_label word_labels iw.1 <> "O"%string)
                               (Py.enumerate (Py.split text)))).
Proof.
  intros Hclass.
  assert (Models.process m text = Models.base_process m text) as ->.
  { unfold Models.process. by destruct (Models.class_of m). }
  unfold Models.process_with_details, Models.base_process.
  destruct (Models.blank text); [by split|].
  destruct (Models._get_word_labels m (Py.split text)) as [word_labels|];
    simpl; [|by split].
  rewrite details_fold. simpl. split; [done|].
  intros ? _ ?. by simplify_eq.
Qed.

(** C6 (fails on the code): [RepairRemover] overrides [process] and
    inherits [process_with_details].  With a word labelled [B-REP] the
    first keeps the word and the second reports it as removed. *)
Theorem repair_details_disagree :
  Models.process Example.repair_model_rep_labels "i uh think"
    = Some "i uh think"
  /\ Models.output <$>
       Models.process_with_details Example.repair_model_rep_labels "i uh think"
     = Some "i think"
  /\ Models.removed <$>
       Models.process_with_details Example.repair_model_rep_labels "i uh think"
     = Some ["uh"%string].
Proof. repeat split; reflexivity. Qed.

(* ===================================================================== *)
(** * PipelineOrchestrator: the order of the stages *)
(* ===================================================================== *)

(** C8 as stated fails: with both flags set, a custom list that holds the
    repetition remover first is run in that order, and the recorded steps
    show repetition removal before filler removal. *)
Lemma custom_list_runs_in_given_order :
  exists models report,
    Pipeline.__init__ Example.directory true true false
      (Some [Example.repetition_model; Example.filler_model]) = Some models
    /\ Pipeline.model_names models
       = ["RepetitionRemover"; "FillerRemover"]%string
    /\ Pipeline.process_with_details models "i uh i i think" = Some report
    /\ Pipeline.step_model <$> Pipeline.steps report
       = ["RepetitionRemover"; "FillerRemover"]%string
    /\ Pipeline.model_names models
       <> Models.class_name <$> filter (fun c => enabled_by true true false c = true)
                                  STAGE_ORDER.
Proof.
  eexists _, _. split; [reflexivity|]. split; [reflexivity|].
  split; [reflexivity|]. split; [reflexivity|]. discriminate.
Qed.

Lemma init_from_flags load ef er ep cm models :
  cm = None \/ cm = Some [] ->
  Pipeline.__init__ load ef er ep cm = Some models ->
  Models.class_of <$> models
  = filter (fun c => enabled_by ef er ep c = true) STAGE_ORDER.
Proof.
  intros Hcm Hinit.
  assert (Pipeline.__init__ load ef er ep cm = Pipeline.__init__ load ef er ep None) as Heq
    by (by destruct Hcm as [-> | ->]).
  rewrite Heq in Hinit. clear Heq Hcm.
  unfold Pipeline.__init__, Pipeline.append_if, Pipeline.construct in Hinit.
  destruct ef, er, ep; simpl in Hinit;
    repeat match type of Hinit with
      | context [load ?c] => destruct (load c); simpl in Hinit
      end;
    by simplify_eq.
Qed.

Lemma init_returns load ef er ep cm :
  (forall c, enabled_by ef er ep c = true -> is_Some (load c)) ->
  is_Some (Pipeline.__init__ load ef er ep cm).
Proof.
  intros Hload. destruct cm as [[|m ms]|]; [| done |];
    unfold Pipeline.__init__, Pipeline.append_if, Pipeline.construct;
    destruct ef, er, ep; simpl;
    repeat match goal with
      | |- context [load ?c] =>
          let H := fresh in
          destruct (Hload c) as [? H]; [done|]; rewrite H; simpl
      end; done.
Qed.

Lemma details_loop_None (models : list Models.BaseModel) :
  foldl (fun (acc : option (list Pipeline.step * string)) (model : Models.BaseModel) =>
           '(steps, current_text) ← acc;
           result ← Models.process_with_details model current_text;
           Some (steps ++ [{| Pipeline.step_model :=
                                Models.class_name (Models.class_of model);
                              Pipeline.step_input := current_text;
                              Pipeline.step_output := Models.output result;
                              Pipeline.step_removed := Models.removed result |}],
                 Models.output result))
        None models = None.
Proof. induction models as [|m models IH]; [done | exact IH]. Qed.

Lemma details_loop_names (models : list Models.BaseModel) :
  forall steps0 text steps1 text1,
    foldl (fun (acc : option (list Pipeline.step * string)) (model : Models.BaseModel) =>
             '(steps, current_text) ← acc;
             result ← Models.process_with_details model current_text;
             Some (steps ++ [{| Pipeline.step_model :=
                                  Models.class_name (Models.class_of model);
                                Pipeline.step_input := current_text;
                                Pipeline.step_output := Models.output result;
                                Pipeline.step_removed := Models.removed result |}],
                   Models.output result))
          (Some (steps0, text)) models = Some (steps1, text1) ->
    Pipeline.step_model <$> steps1
    = (Pipeline.step_model <$> steps0) ++ Pipeline.model_names models.
Proof.
  induction models as [|m models IH]; intros steps0 text steps1 text1 Hrun.
  - simpl in Hrun. simplify_eq. by rewrite app_nil_r.
  - cbn [foldl] in Hrun.
    destruct (Models.process_with_details m text) as [result|] eqn:Hm.
    + simpl in Hrun. rewrite Hm in Hrun. simpl in Hrun.
      apply IH in Hrun. rewrite Hrun, fmap_app. simpl.
      by rewrite <- app_assoc.
    + simpl in Hrun. rewrite Hm in Hrun. simpl in Hrun.
      by rewrite details_loop_None in Hrun.
Qed.

Lemma steps_follow_models models text report :
  Pipeline.process_with_details models text = Some report ->
  Pipeline.step_model <$> Pipeline.steps report = Pipeline.model_names models.
Proof.
  unfold Pipeline.process_with_details. intros Hrun.
  match type of Hrun with
  | context [foldl ?f ?a ?l] => destruct (foldl f a l) as [[steps1 text1]|] eqn:Hloop
  end; simplify_eq/=.
  by apply details_loop_names in Hloop.
Qed.

Lemma run_model_applied MODELS requested post st name :
  exists b : bool,
    (Server.run_model MODELS requested post st name).2 = st.2 ++ pick b name
    /\ (b = true -> server_enabled MODELS requested name = true)
    /\ (never_raises MODELS -> b = server_enabled MODELS requested name).
Proof.
  unfold Server.run_model, server_enabled.
  case_bool_decide as Hreq; simpl; [|exists false; by rewrite app_nil_r].
  destruct (MODELS !! name) as [m|] eqn:Hm.
  - destruct (Server.model_process m st.1) as [text|] eqn:Hrun.
    + exists true. rewrite bool_decide_eq_true_2 by eauto. done.
    + exists false. rewrite app_nil_r. split; [done|]. split; [done|].
      intros Hraises. destruct (Hraises name m st.1 Hm) as [? ?]. congruence.
  - exists false. rewrite app_nil_r. split; [done|]. split; [done|].
    intros _. symmetry. apply bool_decide_eq_false_2. by intros [? ?].
Qed.

Lemma filter_pick {A} (f : A -> bool) x (l : list A) :
  filter (fun y => f y = true) (x :: l)
  = pick (f x) x ++ filter (fun y => f y = true) l.
Proof.
  rewrite filter_cons. destruct (decide (f x = true)) as [->| ->%not_true_is_false];
    reflexivity.
Qed.

Lemma pick_sublist {A} (b e : bool) (x : A) :
  (b = true -> e = true) -> sublist (pick b x) (pick e x).
Proof.
  intros Hbe. destruct b; simpl.
  - by rewrite Hbe.
  - apply sublist_nil_l.
Qed.

Lemma server_order MODELS models list_style text :
  let requested := default Server.DEFAULT_MODELS models in
  sublist (Server.process MODELS models list_style text).2
          (filter (fun name => server_enabled MODELS requested name = true)
                  SERVER_ORDER)
  /\ (never_raises MODELS ->
      (Server.process MODELS models list_style text).2
      = filter (fun name => server_enabled MODELS requested name = true)
               SERVER_ORDER).
Proof.
  intros requested. unfold Server.process. fold requested.
  unfold Server.DISFLUENCY_ORDER, SERVER_ORDER. cbn [foldl].
  set (st1 := Server.run_model MODELS requested id (text, []) "truecase").
  set (st2 := Server.run_model MODELS requested id st1 "filler").
  set (st3 := Server.run_model MODELS requested id st2 "repetition").
  set (st4 := Server.run_model MODELS requested id st3 "repair").
  destruct (run_model_applied MODELS requested
              (fun text => Server.convert_list_style text list_style) st4 "list")
    as (b5 & -> & H5 & E5).
  subst st4.
  destruct (run_model_applied MODELS requested id st3 "repair")
    as (b4 & -> & H4 & E4).
  subst st3.
  destruct (run_model_applied MODELS requested id st2 "repetition")
    as (b3 & -> & H3 & E3).
  subst st2.
  destruct (run_model_applied MODELS requested id st1 "filler")
    as (b2 & -> & H2 & E2).
  subst st1.
  destruct (run_model_applied MODELS requested id (text, []) "truecase")
    as (b1 & -> & H1 & E1).
  rewrite !(filter_pick (server_enabled MODELS requested)), filter_nil.
  cbn [snd]. rewrite app_nil_l, app_nil_r, <- !app_assoc.
  split.
  - repeat apply sublist_app; by apply pick_sublist.
  - intros Hraises.
    by rewrite (E1 Hraises), (E2 Hraises), (E3 Hraises), (E4 Hraises),
      (E5 Hraises).
Qed.

Lemma example_models_never_raise : never_raises Example.MODELS.
Proof.
  intros name m text Hm.
  assert (m = Server.Tagger Example.filler_model
          \/ m = Server.Tagger Example.repetition_model
          \/ m = Server.Caser (fun text => Some text)) as Hcases.
  { unfold Example.MODELS, dict_of in Hm. simpl in Hm.
    destruct (decide (name = "truecase"%string)) as [->|];
      [rewrite lookup_insert_eq in Hm; simplify_eq; auto|].
    rewrite lookup_insert_ne in Hm by done.
    destruct (decide (name = "repetition"%string)) as [->|];
      [rewrite lookup_insert_eq in Hm; simplify_eq; auto|].
    rewrite lookup_insert_ne in Hm by done.
    destruct (decide (name = "filler"%string)) as [->|];
      [rewrite lookup_insert_eq in Hm; simplify_eq; auto|].
    rewrite lookup_insert_ne in Hm by done. by rewrite lookup_empty in Hm. }
  destruct Hcases as [-> | [-> | ->]]; simpl.
  - apply process_returns. intros _.
    apply sound_get_word_labels, filler_model_sound.
  - apply process_returns. intros _.
    apply sound_get_word_labels, repetition_model_sound.
  - unfold Models.truecase_process. by destruct (Models.blank text).
Qed.

(* ===================================================================== *)
(** * ListStructurer *)
(* ===================================================================== *)

(** C9: the newline fix-up turns ["- First item - Second item"] into two
    bulleted lines, leaving the leading bullet alone, and the numbering
    conversion then numbers the two lines 1 and 2. *)
Theorem list_fixup_then_numbering :
  Models._fix_newlines "- First item - Second item"
    = "- First item" +:+ String "010" "- Second item"
  /\ Server.convert_list_style
       ("- First item" +:+ String "010" "- Second item") "numbered"
     = "1. First item" +:+ String "010" "2. Second item".
Proof. split; reflexivity. Qed.

(* ===================================================================== *)
(** * AnnotationParser: what the two parsers emit *)
(* ===================================================================== *)

(** The loop over the words of a bracket: the kept words in lower case,
    each with the tag of its index among all the words. *)
Lemma append_words_kept keep tag words st :
  append_words keep tag words st
  = (st.1 ++ ((fun jw : nat * string => Py.lower jw.2)
                <$> filter (fun jw : nat * string => keep jw.2 = true)
                      (Py.enumerate words)),
     st.2 ++ ((fun jw : nat * string => tag jw.1)
                <$> filter (fun jw : nat * string => keep jw.2 = true)
                      (Py.enumerate words))).
Proof.
  unfold append_words. generalize (Py.enumerate words) as jws. intros jws.
  revert st. induction jws as [|jw jws IH]; intros st.
  - simpl. rewrite !app_nil_r. by destruct st.
  - cbn [foldl]. rewrite IH. destruct (keep jw.2) eqn:Hk.
    + rewrite filter_cons_True by done. simpl. by rewrite <- !app_assoc.
    + rewrite filter_cons_False by congruence. done.
Qed.

Lemma lower_char_idemp c : Py.lower_char (Py.lower_char c) = Py.lower_char c.
Proof. destruct c as [[] [] [] [] [] [] [] []]; reflexivity. Qed.

Lemma lower_idemp s : Py.lower (Py.lower s) = Py.lower s.
Proof.
  induction s as [|c s IH]; [done|]. simpl. by rewrite lower_char_idemp, IH.
Qed.

Lemma lower_char_space c : Py.isspace (Py.lower_char c) = Py.isspace c.
Proof. destruct c as [[] [] [] [] [] [] [] []]; reflexivity. Qed.

Lemma lower_word w : is_word w -> is_token (Py.lower w).
Proof.
  intros [Hne Hfree]. split; [split|].
  - by destruct w.
  - clear Hne. induction w as [|c w IH]; [done|]. simpl in *.
    apply andb_true_iff in Hfree as [Hc Hw].
    by rewrite lower_char_space, Hc, IH.
  - apply lower_idemp.
Qed.

Lemma span_fst_all p s : forall c, In c (list_ascii_of_string (Py.span p s).1) -> p c = true.
Proof.
  induction s as [|d s IH]; simpl; [done|].
  destruct (p d) eqn:Hd; [|done].
  destruct (Py.span p s) as [a b]. simpl in *.
  intros c [<- | Hc]; [done | by apply IH].
Qed.

Lemma word_char_not_space c :
  Py.isword c || Ascii.eqb c "'" = true -> Py.isspace c = false.
Proof. destruct c as [[] [] [] [] [] [] [] []]; simpl; done. Qed.

Lemma match_word_is_word s word e : Re.match_word s = Some (word, e) -> is_word word.
Proof.
  unfold Re.match_word. intros H.
  pose proof (span_fst_all (fun c => Py.isword c || Ascii.eqb c "'") s) as Hall.
  destruct (Py.span _ s) as [g r]. simpl in Hall.
  destruct g as [|c g]; simplify_eq. split; [done|].
  revert Hall. generalize (String c g) as w. clear.
  induction w as [|c w IH]; intros Hall; [done|]. simpl.
  rewrite (word_char_not_space c) by (apply Hall; by left). simpl.
  apply IH. intros d Hd. apply Hall. by right.
Qed.

Lemma enumerate_from_Forall {A} (P : A -> Prop) i (l : list A) :
  Forall P l -> Forall (fun jw : nat * A => P jw.2) (Py.enumerate_from i l).
Proof.
  intros Hl. revert i. induction Hl as [|x l Hx _ IH]; intros i; simpl;
    constructor; [done | apply IH].
Qed.

Lemma append_words_tokens keep tag s (st : parse_state) :
  Forall is_token st.1 ->
  Forall is_token (append_words keep tag (Py.split s) st).1.
Proof.
  intros Hst. rewrite append_words_kept. cbn [fst].
  apply Forall_app. split; [done|].
  apply Forall_fmap, Forall_forall.
  intros jw [_ Hjw]%list_elem_of_filter.
  pose proof (enumerate_from_Forall is_word 0 _ (split_words s)) as Hall.
  rewrite Forall_forall in Hall. by apply lower_word, Hall.
Qed.

Lemma append_words_tags_in keep tag words (st : parse_state) (L : list string) :
  (forall j, tag j ∈ L) ->
  Forall (fun t => t ∈ L) st.2 ->
  Forall (fun t => t ∈ L) (append_words keep tag words st).2.
Proof.
  intros Htag Hst. rewrite append_words_kept. cbn [snd].
  apply Forall_app. split; [done|].
  apply Forall_fmap, Forall_forall. intros jw _. apply Htag.
Qed.

Lemma append_word_token (st : parse_state) s word e (t : string) :
  Re.match_word s = Some (word, e) ->
  Forall is_token st.1 ->
  Forall is_token (st.1 ++ [Py.lower word], st.2 ++ [t]).1.
Proof.
  intros Hm Hst. cbn [fst]. apply Forall_app. split; [done|].
  constructor; [|done]. by eapply lower_word, match_word_is_word.
Qed.

Lemma filler_tags_in j : TrainFiller.bi_tag j ∈ TrainFiller.LABEL_LIST.
Proof. unfold TrainFiller.bi_tag. destruct (j =? 0); set_solver. Qed.

Lemma filler_outside_in j : TrainFiller.o_tag j ∈ TrainFiller.LABEL_LIST.
Proof. unfold TrainFiller.o_tag. set_solver. Qed.

Lemma repetition_tags_in j : TrainRepetition.bi_tag j ∈ TrainRepetition.LABEL_LIST.
Proof. unfold TrainRepetition.bi_tag. destruct (j =? 0); set_solver. Qed.

Lemma repetition_outside_in j : TrainRepetition.o_tag j ∈ TrainRepetition.LABEL_LIST.
Proof. unfold TrainRepetition.o_tag. set_solver. Qed.

Lemma filler_parse_loop_emits fuel text :
  forall i st st',
    TrainFiller.parse_loop fuel text i st = Some st' ->
    Forall is_token st.1 /\ Forall (fun t => t ∈ TrainFiller.LABEL_LIST) st.2 ->
    Forall is_token st'.1 /\ Forall (fun t => t ∈ TrainFiller.LABEL_LIST) st'.2.
Proof.
  induction fuel as [|fuel IH]; intros i st st' Hrun [Htok Htag]; simpl in Hrun;
    destruct (Py.len text <=? i); simplify_eq; try done.
  repeat case_match; simplify_eq; (eapply IH; [exact Hrun|]); split;
    cbn [foldl];
    repeat first
      [ apply append_words_tokens
      | apply append_words_tags_in;
          [first [apply filler_tags_in | apply filler_outside_in]|]
      | eapply append_word_token; [eassumption|]
      | assumption ].
  cbn [snd]. apply Forall_app. split; [done|]. constructor; [constructor | done].
Qed.

Lemma repetition_parse_loop_emits fuel text :
  forall i st st',
    TrainRepetition.parse_loop fuel text i st = Some st' ->
    Forall is_token st.1 /\ Forall (fun t => t ∈ TrainRepetition.LABEL_LIST) st.2 ->
    Forall is_token st'.1 /\ Forall (fun t => t ∈ TrainRepetition.LABEL_LIST) st'.2.
Proof.
  induction fuel as [|fuel IH]; intros i st st' Hrun [Htok Htag]; simpl in Hrun;
    destruct (Py.len text <=? i); simplify_eq; try done.
  repeat case_match; simplify_eq; (eapply IH; [exact Hrun|]); split;
    repeat first
      [ apply append_words_tokens
      | apply append_words_tags_in;
          [first [apply repetition_tags_in | apply repetition_outside_in]|]
      | eapply append_word_token; [eassumption|]
      | assumption ].
  cbn [snd]. apply Forall_app. split; [done|]. constructor; [constructor | done].
Qed.

Lemma append_words_alike keep tagF tagR words stF stR :
  (forall j, marked_alike (tagF j) (tagR j)) ->
  alike stF stR ->
  alike (append_words keep tagF words stF) (append_words keep tagR words stR).
Proof.
  intros Htag [Htok Htags]. rewrite !append_words_kept. split; cbn [fst snd].
  - by rewrite Htok.
  - apply Forall2_app; [done|]. apply Forall2_fmap, Forall_Forall2_diag.
    apply Forall_forall. intros jw _. apply Htag.
Qed.

Lemma append_word_alike (stF stR : parse_state) w :
  alike stF stR ->
  alike (stF.1 ++ [w], stF.2 ++ ["O"%string]) (stR.1 ++ [w], stR.2 ++ ["O"%string]).
Proof.
  intros [Htok Htags]. split; cbn [fst snd]; [by rewrite Htok|].
  apply Forall2_app; [done|]. constructor; [by left | constructor].
Qed.

Lemma outside_alike (tagR : nat -> string) j :
  marked_alike (TrainFiller.o_tag j) (tagR j).
Proof. by left. Qed.

Lemma begin_inside_alike j :
  marked_alike (TrainFiller.bi_tag j) (TrainRepetition.bi_tag j).
Proof.
  unfold TrainFiller.bi_tag, TrainRepetition.bi_tag.
  destruct (j =? 0); [right; by left | right; by right].
Qed.

Lemma parsers_lockstep fuel text :
  forall i stF stR stF' stR',
    TrainFiller.parse_loop fuel text i stF = Some stF' ->
    TrainRepetition.parse_loop fuel text i stR = Some stR' ->
    alike stF stR -> alike stF' stR'.
Proof.
  induction fuel as [|fuel IH]; intros i stF stR stF' stR' HF HR Hst;
    simpl in HF, HR; destruct (Py.len text <=? i); simplify_eq; try done.
  repeat case_match; simplify_eq;
    (eapply IH; [exact HF | exact HR |]); cbn [foldl];
    repeat first
      [ apply append_words_alike;
          [first [apply begin_inside_alike | apply outside_alike]|]
      | apply append_word_alike
      | assumption ].
Qed.

(** X1: on every input the filler-only parser returns a tag sequence that
    is BIO well-formed. *)
Theorem filler_parser_tags_well_formed (annotated : string) :
  exists tokens tags,
    TrainFiller.parse_fillers_only annotated = Some (tokens, tags)
    /\ bio_well_formed tags = true.
Proof.
  destruct (filler_parse_loop_total
              (Py.len (Re.sub (fun _ => Re.match_markup) "" annotated))
              (Re.sub (fun _ => Re.match_markup) "" annotated) 0 ([], []))
    as ([tokens tags] & Hrun & _); [lia | done |].
  exists tokens, tags. split; [exact Hrun|].
  by apply (parse_fillers_only_bio annotated tokens).
Qed.

(** X2: the two parsers cut every annotated string into the same tokens,
    and a token that the filler-only parser marks [B-FILL] or [I-FILL] is
    marked [B-REP] or [I-REP] by the combined parser. *)
Theorem parsers_emit_same_tokens (annotated : string) :
  exists tokens tagsF tagsR,
    TrainFiller.parse_fillers_only annotated = Some (tokens, tagsF)
    /\ TrainRepetition.parse_disfluency_speech_transcript annotated
       = Some (tokens, tagsR)
    /\ Forall2 marked_alike tagsF tagsR.
Proof.
  set (text := Re.sub (fun _ => Re.match_markup) "" annotated).
  destruct (filler_parse_loop_total (Py.len text) text 0 ([], []))
    as ([tokensF tagsF] & HF & _); [lia | done |].
  destruct (repetition_parse_loop_total (Py.len text) text 0 ([], []))
    as ([tokensR tagsR] & HR & _); [lia | done |].
  destruct (parsers_lockstep _ _ _ _ _ _ _ HF HR) as [Htok Htags];
    [split; [done | constructor]|].
  simpl in Htok, Htags. subst tokensR.
  exists tokensF, tagsF, tagsR. by split; [|split].
Qed.

(* ===================================================================== *)
(** * ASCII text stays ASCII *)
(* ===================================================================== *)

Lemma isascii_app s t : Py.isascii (s +:+ t) = Py.isascii s && Py.isascii t.
Proof.
  induction s as [|c s IH]; [done|].
  rewrite append_cons. simpl. by rewrite IH, andb_assoc.
Qed.

Lemma isascii_drop n s : Py.isascii s = true -> Py.isascii (Py.drop n s) = true.
Proof.
  revert s. induction n as [|n IH]; intros [|c s] H; try done.
  simpl in *. apply andb_true_iff in H as [_ H]. by apply IH.
Qed.

Lemma isascii_span p s :
  Py.isascii s = true ->
  Py.isascii (Py.span p s).1 = true /\ Py.isascii (Py.span p s).2 = true.
Proof.
  induction s as [|c s IH]; [done|]. intros H. simpl.
  pose proof H as Hcs. simpl in H. apply andb_true_iff in H as [Hc Hs].
  destruct (p c); [|done].
  destruct (IH Hs) as [Ha Hb]. destruct (Py.span p s) as [a b].
  simpl in *. by rewrite Hc, Ha.
Qed.

Lemma isascii_rstrip s : Py.isascii s = true -> Py.isascii (Py.rstrip s) = true.
Proof.
  induction s as [|c s IH]; [done|]. intros H. simpl in *.
  apply andb_true_iff in H as [Hc Hs]. specialize (IH Hs).
  destruct (Py.rstrip s) as [|d t].
  - destruct (Py.isspace c); [done|]. simpl. by rewrite Hc.
  - simpl in *. by rewrite Hc, IH.
Qed.

Lemma isascii_strip s : Py.isascii s = true -> Py.isascii (Py.strip s) = true.
Proof.
  intros H. unfold Py.strip, Py.lstrip.
  by apply isascii_rstrip, isascii_span.
Qed.

Lemma isascii_remove_char c s :
  Py.isascii s = true -> Py.isascii (Py.remove_char c s) = true.
Proof.
  induction s as [|d s IH]; [done|]. intros H. simpl in *.
  apply andb_true_iff in H as [Hd Hs].
  destruct (Ascii.eqb d c); [by apply IH|]. simpl. by rewrite Hd, IH.
Qed.

Lemma lower_char_ascii c :
  (nat_of_ascii c <? 128) = true -> (nat_of_ascii (Py.lower_char c) <? 128) = true.
Proof. destruct c as [[] [] [] [] [] [] [] []]; simpl; done. Qed.

Lemma isascii_lower s : Py.isascii s = true -> Py.isascii (Py.lower s) = true.
Proof.
  induction s as [|c s IH]; [done|]. intros H. simpl in *.
  apply andb_true_iff in H as [Hc Hs]. by rewrite lower_char_ascii, IH.
Qed.

Lemma isascii_cons_nonempty w ws :
  Py.isascii w = true -> Forall (fun w => Py.isascii w = true) ws ->
  Forall (fun w => Py.isascii w = true) (Py.cons_nonempty w ws).
Proof. intros Hw Hws. destruct w; [done | by constructor]. Qed.

Lemma isascii_split_aux s :
  Py.isascii s = true ->
  Py.isascii (Py.split_aux s).1 = true
  /\ Forall (fun w => Py.isascii w = true) (Py.split_aux s).2.
Proof.
  induction s as [|c s IH]; [by split|]. intros H. simpl in *.
  apply andb_true_iff in H as [Hc Hs]. destruct (IH Hs) as [Hw Hws].
  destruct (Py.split_aux s) as [w ws]. simpl in *.
  destruct (Py.isspace c); simpl.
  - split; [done | by apply isascii_cons_nonempty].
  - by rewrite Hc, Hw.
Qed.

Lemma isascii_split s :
  Py.isascii s = true -> Forall (fun w => Py.isascii w = true) (Py.split s).
Proof.
  intros H. unfold Py.split. destruct (isascii_split_aux s H) as [Hw Hws].
  destruct (Py.split_aux s) as [w ws]. by apply isascii_cons_nonempty.
Qed.

Lemma isascii_last_char s :
  Py.isascii s = true -> Py.isascii (Re.last_char s) = true.
Proof.
  induction s as [|c s IH]; [done|]. intros H. simpl in H.
  apply andb_true_iff in H as [Hc Hs]. cbn [Re.last_char].
  destruct s as [|d s]; [simpl; by rewrite Hc | by apply IH].
Qed.

Lemma isascii_sub_go m pos skip s :
  Py.isascii s = true -> Py.isascii (Re.sub_go m "" pos skip s) = true.
Proof.
  revert pos skip. induction s as [|c s IH]; intros pos skip H; [done|].
  simpl in H. apply andb_true_iff in H as [Hc Hs]. cbn [Re.sub_go].
  destruct skip as [|k]; [|by apply IH].
  destruct (m pos (String c s)) as [[|k]|].
  - simpl. by rewrite Hc, IH.
  - change ("" +:+ ?x) with x. by apply IH.
  - simpl. by rewrite Hc, IH.
Qed.

Lemma words_of_ascii g :
  Py.isascii g = true -> Forall (fun w => Py.isascii w = true) (words_of g).
Proof.
  intros H. unfold words_of.
  by apply isascii_split, isascii_remove_char, isascii_strip.
Qed.

Lemma isascii_tail c s : Py.isascii (String c s) = true -> Py.isascii s = true.
Proof. simpl. by intros [_ ?]%andb_true_iff. Qed.

Lemma span_ascii p r a b :
  Py.isascii r = true -> Py.span p r = (a, b) ->
  Py.isascii a = true /\ Py.isascii b = true.
Proof. intros Hr H. pose proof (isascii_span p r Hr) as Hab. by rewrite H in Hab. Qed.

Ltac spans_ascii :=
  repeat match goal with
    | H : Py.span ?p ?r = (?a, ?b), Hr : Py.isascii ?r = true |- _ =>
        destruct (span_ascii p r a b Hr H) as [? ?]; clear H
    | H : Py.isascii (String _ ?r) = true |- _ =>
        lazymatch goal with
        | _ : Py.isascii r = true |- _ => fail
        | _ => pose proof (isascii_tail _ _ H)
        end
    end.

Lemma match_braced_ascii T s g e :
  Py.isascii s = true -> Re.match_braced T s = Some (g, e) ->
  Py.isascii g = true.
Proof.
  unfold Re.match_braced. intros Hs Hm.
  repeat case_match; simplify_eq; spans_ascii; try done.
  by apply isascii_last_char.
Qed.

Lemma match_repair_ascii s before after e :
  Py.isascii s = true -> Re.match_repair s = Some (before, after, e) ->
  Py.isascii before = true /\ Py.isascii after = true.
Proof.
  unfold Re.match_repair. intros Hs Hm.
  repeat case_match; simplify_eq; spans_ascii; done.
Qed.

Lemma match_word_ascii s word e :
  Py.isascii s = true -> Re.match_word s = Some (word, e) ->
  Py.isascii (Py.lower word) = true.
Proof.
  unfold Re.match_word. intros Hs Hm.
  repeat case_match; simplify_eq; spans_ascii. by apply isascii_lower.
Qed.

Lemma append_words_ascii keep tag words (st : parse_state) :
  Forall (fun w => Py.isascii w = true) words ->
  Forall (fun w => Py.isascii w = true) st.1 ->
  Forall (fun w => Py.isascii w = true) (append_words keep tag words st).1.
Proof.
  intros Hwords Hst. rewrite append_words_kept. cbn [fst].
  apply Forall_app. split; [done|].
  apply Forall_fmap, Forall_forall.
  intros jw [_ Hjw]%list_elem_of_filter.
  pose proof (enumerate_from_Forall _ 0 _ Hwords) as Hall.
  rewrite Forall_forall in Hall. simpl. by apply isascii_lower, Hall.
Qed.

Lemma braced_words_ascii T text i g e :
  Py.isascii text = true ->
  Re.match_braced T (Py.drop i text) = Some (g, e) ->
  Forall (fun w => Py.isascii w = true) (words_of g).
Proof.
  intros Ht Hm. eapply words_of_ascii, match_braced_ascii; [|exact Hm].
  by apply isascii_drop.
Qed.

Lemma repair_before_ascii text i before after e :
  Py.isascii text = true ->
  Re.match_repair (Py.drop i text) = Some (before, after, e) ->
  Forall (fun w => Py.isascii w = true)
    (Py.split (Py.remove_char "," (Py.strip before))).
Proof.
  intros Ht Hm.
  destruct (match_repair_ascii _ _ _ _ (isascii_drop i _ Ht) Hm) as [Hb _].
  by apply isascii_split, isascii_remove_char, isascii_strip.
Qed.

Lemma repair_after_ascii text i before after e :
  Py.isascii text = true ->
  Re.match_repair (Py.drop i text) = Some (before, after, e) ->
  Forall (fun w => Py.isascii w = true)
    (Py.split (Py.remove_char "," (Py.strip after))).
Proof.
  intros Ht Hm.
  destruct (match_repair_ascii _ _ _ _ (isascii_drop i _ Ht) Hm) as [_ Ha].
  by apply isascii_split, isascii_remove_char, isascii_strip.
Qed.

Lemma word_ascii text i word e (st : parse_state) (t : string) :
  Py.isascii text = true ->
  Re.match_word (Py.drop i text) = Some (word, e) ->
  Forall (fun w => Py.isascii w = true) st.1 ->
  Forall (fun w => Py.isascii w = true) (st.1 ++ [Py.lower word], st.2 ++ [t]).1.
Proof.
  intros Ht Hm Hst. cbn [fst]. apply Forall_app. split; [done|].
  constructor; [|done].
  eapply match_word_ascii; [|exact Hm]. by apply isascii_drop.
Qed.

Lemma filler_parse_loop_ascii fuel text :
  Py.isascii text = true ->
  forall i st st',
    TrainFiller.parse_loop fuel text i st = Some st' ->
    Forall (fun w => Py.isascii w = true) st.1 ->
    Forall (fun w => Py.isascii w = true) st'.1.
Proof.
  intros Htext.
  induction fuel as [|fuel IH]; intros i st st' Hrun Hst; simpl in Hrun;
    destruct (Py.len text <=? i); simplify_eq; try done.
  repeat case_match; simplify_eq; (eapply IH; [exact Hrun|]); cbn [foldl];
    repeat first
      [ assumption
      | eapply word_ascii; [exact Htext | eassumption |]
      | apply append_words_ascii;
          [first [ eapply braced_words_ascii; [exact Htext | eassumption]
                 | eapply repair_before_ascii; [exact Htext | eassumption]
                 | eapply repair_after_ascii; [exact Htext | eassumption] ]|] ].
Qed.

Lemma repetition_parse_loop_ascii fuel text :
  Py.isascii text = true ->
  forall i st st',
    TrainRepetition.parse_loop fuel text i st = Some st' ->
    Forall (fun w => Py.isascii w = true) st.1 ->
    Forall (fun w => Py.isascii w = true) st'.1.
Proof.
  intros Htext.
  induction fuel as [|fuel IH]; intros i st st' Hrun Hst; simpl in Hrun;
    destruct (Py.len text <=? i); simplify_eq; try done.
  repeat case_match; simplify_eq; (eapply IH; [exact Hrun|]); cbn [foldl];
    repeat first
      [ assumption
      | eapply word_ascii; [exact Htext | eassumption |]
      | apply append_words_ascii;
          [first [ eapply braced_words_ascii; [exact Htext | eassumption]
                 | eapply repair_before_ascii; [exact Htext | eassumption]
                 | eapply repair_after_ascii; [exact Htext | eassumption] ]|] ].
Qed.

(** X3: on ASCII input, every token the parsers return is a non-empty
    lower-case ASCII string without white space, so joining the tokens
    with blanks and splitting the text again gives the tokens back. *)
Theorem parser_tokens_are_words (annotated : string) :
  Py.isascii annotated = true ->
  (exists tokens tags,
     TrainFiller.parse_fillers_only annotated = Some (tokens, tags)
     /\ Forall (fun t => Py.isascii t = true) tokens
     /\ Forall is_token tokens
     /\ Py.split (Py.join " " tokens) = tokens)
  /\ (exists tokens tags,
        TrainRepetition.parse_disfluency_speech_transcript annotated
          = Some (tokens, tags)
        /\ Forall (fun t => Py.isascii t = true) tokens
        /\ Forall is_token tokens
        /\ Py.split (Py.join " " tokens) = tokens).
Proof.
  intros Hascii.
  set (text := Re.sub (fun _ => Re.match_markup) "" annotated).
  assert (Py.isascii text = true) as Htext by (by apply isascii_sub_go).
  split.
  - destruct (filler_parse_loop_total (Py.len text) text 0 ([], []))
      as ([tokens tags] & Hrun & _); [lia | done |].
    destruct (filler_parse_loop_emits _ _ _ _ _ Hrun) as [Htok _];
      [by split|].
    exists tokens, tags. split; [exact Hrun|]. split.
    { by apply (filler_parse_loop_ascii _ _ Htext _ _ _ Hrun). }
    split; [exact Htok|].
    apply split_join. eapply Forall_impl; [exact Htok|]. by intros t [Ht _].
  - destruct (repetition_parse_loop_total (Py.len text) text 0 ([], []))
      as ([tokens tags] & Hrun & _); [lia | done |].
    destruct (repetition_parse_loop_emits _ _ _ _ _ Hrun) as [Htok _];
      [by split|].
    exists tokens, tags. split; [exact Hrun|]. split.
    { by apply (repetition_parse_loop_ascii _ _ Htext _ _ _ Hrun). }
    split; [exact Htok|].
    apply split_join. eapply Forall_impl; [exact Htok|]. by intros t [Ht _].
Qed.

Lemma parser_tokens_are_words_witness :
  exists tokens tags,
    TrainRepetition.parse_disfluency_speech_transcript
      "{F Uh, } Well [ the Store + the MALL ] is open"
      = Some (tokens, tags)
    /\ Forall (fun t => Py.isascii t = true) tokens
    /\ Forall is_token tokens
    /\ Py.split (Py.join " " tokens) = tokens.
Proof.
  exact (proj2 (parser_tokens_are_words
                  "{F Uh, } Well [ the Store + the MALL ] is open" eq_refl)).
Defined.

(* ===================================================================== *)
(** * The corpus loaders *)
(* ===================================================================== *)

(** A loop that threads a fallible body through a list returns when every
    step returns, and keeps what the steps keep. *)
Lemma foldl_option_steps {A B} (f : A -> B -> option A)
    (I : list B -> A -> Prop) (l : list B) (a : A) :
  I [] a ->
  (forall pre x b, I pre x -> exists x', f x b = Some x' /\ I (pre ++ [b]) x') ->
  exists a', foldl (fun (acc : option A) b => x ← acc; f x b) (Some a) l = Some a'
             /\ I l a'.
Proof.
  intros Ha Hstep.
  assert (forall pre x, I pre x ->
            exists a', foldl (fun (acc : option A) b => x ← acc; f x b)
                         (Some x) l = Some a' /\ I (pre ++ l) a') as Hgen.
  { induction l as [|b l IH]; intros pre x Hx.
    - exists x. rewrite app_nil_r. by split.
    - cbn [foldl]. destruct (Hstep pre x b Hx) as (x' & Hf & Hx').
      simpl. rewrite Hf.
      destruct (IH (pre ++ [b]) x' Hx') as (a' & Hrun & Ha').
      exists a'. split; [done|]. by rewrite <- app_assoc in Ha'. }
  apply (Hgen [] a Ha).
Qed.

Lemma encode_tags_ids (LABEL_LIST : list string) (tags : list string) :
  LABEL_LIST = TrainFiller.LABEL_LIST \/ LABEL_LIST = TrainRepetition.LABEL_LIST ->
  Forall (fun t => t ∈ LABEL_LIST) tags ->
  exists tag_ids,
    encode_tags (label2id LABEL_LIST) tags = Some tag_ids
    /\ length tag_ids = length tags
    /\ Forall (fun id => (0 <= id < 3)%Z) tag_ids
    /\ marked tag_ids = length (filter (fun t => t <> "O"%string) tags).
Proof.
  intros HL Htags. unfold encode_tags, marked.
  induction Htags as [|t tags Ht _ IH].
  - exists []. by repeat split.
  - destruct IH as (ids & Hids & Hlen & Hrange & Hmarked).
    assert (exists id, label2id LABEL_LIST !! t = Some id
                       /\ (0 <= id < 3)%Z
                       /\ (id <> 0%Z <-> t <> "O"%string)) as (id & Hid & Hr & Hz).
    { destruct HL as [-> | ->];
        (unfold TrainFiller.LABEL_LIST, TrainRepetition.LABEL_LIST in Ht;
         rewrite !elem_of_cons in Ht;
         destruct Ht as [-> | [-> | [-> | Ht]]];
         [exists 0%Z | exists 1%Z | exists 2%Z | by apply elem_of_nil in Ht];
         (split; [reflexivity|]; split; [lia|]; split; done)). }
    exists (id :: ids). cbn [mapM]. rewrite Hid. simpl.
    unfold encode_tags in Hids. rewrite Hids. simpl.
    split; [done|]. split; [by rewrite Hlen|]. split; [by constructor|].
    destruct (decide (t = "O"%string)) as [->|Hne].
    + rewrite (filter_cons_False _ id)
        by (intros H; apply Hz in H; by apply H).
      rewrite (filter_cons_False _ "O"%string) by (intros H; by apply H).
      done.
    + rewrite (filter_cons_True _ id) by (by apply Hz).
      rewrite (filter_cons_True _ t) by done.
      simpl. by rewrite Hmarked.
Qed.

(** X4: the loop of [prepare_dataset] returns on every list of annotated
    transcripts (no tag lacks a label id).  Every example it keeps has at
    least one token and one label id of the three per token, and the
    filler count is the number of label ids other than the one of [O]. *)
Theorem filler_dataset_is_valid (transcripts : list string) :
  exists ds,
    TrainFiller.collect_examples transcripts = Some ds
    /\ Forall2 (fun tokens tag_ids => tokens <> [] /\ valid_example tokens tag_ids)
         (TrainFiller.all_tokens ds) (TrainFiller.all_tags ds)
    /\ TrainFiller.filler_count ds
       = sum_list_with marked (TrainFiller.all_tags ds)
    /\ length (TrainFiller.all_tokens ds) <= length transcripts.
Proof.
  unfold TrainFiller.collect_examples.
  apply (foldl_option_steps TrainFiller.add_example
           (fun pre ds =>
              Forall2 (fun tokens tag_ids =>
                         tokens <> [] /\ valid_example tokens tag_ids)
                (TrainFiller.all_tokens ds) (TrainFiller.all_tags ds)
              /\ TrainFiller.filler_count ds
                 = sum_list_with marked (TrainFiller.all_tags ds)
              /\ length (TrainFiller.all_tokens ds) <= length pre)).
  - simpl. split; [constructor | split; [done | lia]].
  - intros pre ds annotated (Hex & Hcount & Hlen).
    set (text := Re.sub (fun _ => Re.match_markup) "" annotated).
    destruct (filler_parse_loop_total (Py.len text) text 0 ([], []))
      as ([tokens tags] & Hrun & Hpar); [lia | done |].
    destruct (filler_parse_loop_emits _ _ _ _ _ Hrun) as [_ Htags];
      [by split|].
    unfold TrainFiller.add_example, TrainFiller.parse_fillers_only.
    fold text. rewrite Hrun. cbn [mbind option_bind fst snd].
    rewrite length_app. simpl.
    destruct tokens as [|tok tokens].
    { exists ds. split; [done|]. split; [done|]. split; [done | lia]. }
    destruct (encode_tags_ids TrainFiller.LABEL_LIST tags)
      as (tag_ids & Hids & Hidlen & Hrange & Hmarked); [by left | done |].
    unfold TrainFiller.LABEL2ID. rewrite Hids. cbn [mbind option_bind].
    eexists. split; [done|]. cbn.
    split; [|split].
    + apply Forall2_app; [done|]. constructor; [|constructor].
      split; [done|]. split; [|done].
      unfold parallel in Hpar. simpl in Hpar. by rewrite Hidlen.
    + rewrite sum_list_with_app. simpl. rewrite Hcount, Hmarked. lia.
    + rewrite length_app. simpl.
      apply Forall2_length in Hex. lia.
Qed.

Lemma convert_switchboard_tag_in tag :
  TrainRepetition.convert_switchboard_tag tag ∈ TrainRepetition.LABEL_LIST.
Proof.
  unfold TrainRepetition.convert_switchboard_tag, TrainRepetition.LABEL_LIST.
  repeat case_bool_decide; repeat constructor.
Qed.

(** X5: the loaders of [train_repetition.py] return on every input: no
    converted or parsed tag lacks a label id.  [load_switchboard_data]
    counts every row once, as kept or as skipped; it keeps exactly the rows
    that were read with as many tags as words, and every kept example has
    one label id of the three per token.  [load_disfluency_speech] keeps
    only examples with at least one token, each with one label id per
    token. *)
Theorem repetition_loaders_return
    (rows : list (option (list string * list string)))
    (transcripts : list string) :
  (exists st,
     TrainRepetition.load_switchboard_data rows = Some st
     /\ TrainRepetition.count st + TrainRepetition.skipped st = length rows
     /\ TrainRepetition.count st = length (filter (fun r => row_parallel r = true) rows)
     /\ length (TrainRepetition.tokens_list st) = TrainRepetition.count st
     /\ Forall2 valid_example
          (TrainRepetition.tokens_list st) (TrainRepetition.tags_list st))
  /\ (exists all,
        TrainRepetition.load_disfluency_speech transcripts = Some all
        /\ Forall2 (fun tokens tag_ids =>
                      tokens <> [] /\ valid_example tokens tag_ids)
             all.1 all.2).
Proof.
  split.
  - unfold TrainRepetition.load_switchboard_data.
    apply (foldl_option_steps TrainRepetition.load_row
             (fun pre st =>
                TrainRepetition.count st + TrainRepetition.skipped st = length pre
                /\ TrainRepetition.count st
                   = length (filter (fun r => row_parallel r = true) pre)
                /\ length (TrainRepetition.tokens_list st) = TrainRepetition.count st
                /\ Forall2 valid_example
                     (TrainRepetition.tokens_list st) (TrainRepetition.tags_list st))).
    + simpl. repeat split; constructor.
    + intros pre st row (Hall & Hkept & Hlen & Hex).
      rewrite length_app, filter_app, length_app. simpl.
      destruct row as [[sentence ms_disfl]|]; simpl.
      * destruct (Nat.eqb_spec (length sentence) (length ms_disfl)) as [Heq|Hne];
          simpl.
        -- destruct (encode_tags_ids TrainRepetition.LABEL_LIST
                       (TrainRepetition.convert_switchboard_tag <$> ms_disfl))
             as (tag_ids & Hids & Hidlen & Hrange & _); [by right | |].
           { apply Forall_fmap, Forall_forall. intros t _.
             apply convert_switchboard_tag_in. }
           unfold TrainRepetition.LABEL2ID. rewrite Hids. simpl.
           eexists. split; [done|]. simpl.
           rewrite filter_cons_True by (simpl; by apply Nat.eqb_eq). simpl.
           rewrite length_app. simpl.
           split; [lia|]. split; [lia|]. split; [lia|].
           apply Forall2_app; [done|]. constructor; [|constructor].
           split; [|done]. rewrite Hidlen, !length_fmap. done.
        -- eexists. split; [done|]. simpl.
           rewrite filter_cons_False
             by (simpl; intros H; apply Nat.eqb_eq in H; done).
           simpl. repeat split; [lia | lia | done | done].
      * eexists. split; [done|]. simpl.
        repeat split; [lia | lia | done | done].
  - unfold TrainRepetition.load_disfluency_speech.
    destruct (foldl_option_steps TrainRepetition.add_example
                (fun _ all =>
                   Forall2 (fun tokens tag_ids =>
                              tokens <> [] /\ valid_example tokens tag_ids)
                     all.1 all.2) transcripts ([], []))
      as (all & Hrun & Hall); [constructor | | by exists all].
    intros _ all annotated Hex.
    set (text := Re.sub (fun _ => Re.match_markup) "" annotated).
    destruct (repetition_parse_loop_total (Py.len text) text 0 ([], []))
      as ([tokens tags] & Hrun & Hpar); [lia | done |].
    destruct (repetition_parse_loop_emits _ _ _ _ _ Hrun) as [_ Htags];
      [by split|].
    unfold TrainRepetition.add_example,
      TrainRepetition.parse_disfluency_speech_transcript.
    fold text. rewrite Hrun. cbn [mbind option_bind fst snd].
    destruct tokens as [|tok tokens]; [by exists all|].
    destruct (encode_tags_ids TrainRepetition.LABEL_LIST tags)
      as (tag_ids & Hids & Hidlen & Hrange & _); [by right | done |].
    unfold TrainRepetition.LABEL2ID. rewrite Hids. cbn [mbind option_bind].
    eexists. split; [done|]. cbn [fst snd].
    apply Forall2_app; [done|]. constructor; [|constructor].
    split; [done|]. split; [|done].
    unfold parallel in Hpar. simpl in Hpar. by rewrite Hidlen.
Qed.

(* ===================================================================== *)
(** * The repetition filter of the Switchboard loader *)
(* ===================================================================== *)

Lemma is_repetition_reparandum words tags :
  (TrainRepetitionOnly.is_repetition words tags).1.2
  = tagged_reparandum (zip words tags).
Proof.
  pose proof (scan_collects (zip words tags)
                {| TrainRepetitionOnly.reparandum_words := [];
                   TrainRepetitionOnly.repair_words := [];
                   TrainRepetitionOnly.seen_reparandum := false |})
    as [Hrep _].
  cbv zeta in Hrep. cbn [TrainRepetitionOnly.reparandum_words] in Hrep.
  rewrite app_nil_l in Hrep.
  unfold TrainRepetitionOnly.is_repetition. cbv zeta. rewrite Hrep.
  by destruct (tagged_reparandum (zip words tags)).
Qed.

Lemma convert_tag_in tag :
  TrainRepetitionOnly.convert_tag tag ∈ TrainRepetition.LABEL_LIST.
Proof.
  unfold TrainRepetitionOnly.convert_tag, TrainRepetition.LABEL_LIST.
  repeat case_bool_decide; repeat constructor.
Qed.

Lemma convert_tag_reparandum tag :
  TrainRepetitionOnly.is_reparandum_tag tag = true ->
  TrainRepetitionOnly.convert_tag tag <> "O"%string.
Proof.
  unfold TrainRepetitionOnly.is_reparandum_tag, TrainRepetitionOnly.convert_tag.
  intros Ht%bool_decide_eq_true. rewrite !elem_of_cons in Ht.
  destruct Ht as [-> | [-> | [-> | Ht]]]; [done | done | done |].
  by apply elem_of_nil in Ht.
Qed.

Lemma reparandum_marks words tags :
  tagged_reparandum (zip words tags) <> [] ->
  filter (fun t => t <> "O"%string) (TrainRepetitionOnly.convert_tag <$> tags) <> [].
Proof.
  unfold tagged_reparandum. intros Hne.
  destruct (filter _ (zip words tags)) as [|[w t] l] eqn:Hf; [done|].
  assert ((w, t) ∈ filter (fun wt : string * string =>
                             TrainRepetitionOnly.is_reparandum_tag wt.2 = true)
                          (zip words tags)) as Hin
    by (rewrite Hf; by left).
  apply list_elem_of_filter in Hin as [Ht Hin]. simpl in Ht.
  apply elem_of_zip_r in Hin.
  intros Hnil.
  eapply (filter_nil_not_elem_of _ _ (TrainRepetitionOnly.convert_tag t) Hnil).
  - by apply convert_tag_reparandum.
  - by apply list_elem_of_fmap_2.
Qed.

Lemma load_rows_invariant rows :
  exists st,
    TrainRepetitionOnly.load_rows rows = Some st
    /\ TrainRepetitionOnly.total st = length rows
    /\ TrainRepetitionOnly.kept st + TrainRepetitionOnly.skipped_repair st
       = length (filter (fun r => row_disfluent r = true) rows)
    /\ TrainRepetitionOnly.kept st + TrainRepetitionOnly.skipped_repair st
       + TrainRepetitionOnly.skipped_no_disfl st
       = length (filter (fun r => row_parallel r = true) rows)
    /\ length (TrainRepetitionOnly.tokens_list st) = TrainRepetitionOnly.kept st
    /\ Forall2 (fun tokens tag_ids =>
                  valid_example tokens tag_ids /\ 0 < marked tag_ids)
         (TrainRepetitionOnly.tokens_list st) (TrainRepetitionOnly.tags_list st).
Proof.
  unfold TrainRepetitionOnly.load_rows.
  apply (foldl_option_steps TrainRepetitionOnly.load_row
           (fun pre st =>
              TrainRepetitionOnly.total st = length pre
              /\ TrainRepetitionOnly.kept st + TrainRepetitionOnly.skipped_repair st
                 = length (filter (fun r => row_disfluent r = true) pre)
              /\ TrainRepetitionOnly.kept st + TrainRepetitionOnly.skipped_repair st
                 + TrainRepetitionOnly.skipped_no_disfl st
                 = length (filter (fun r => row_parallel r = true) pre)
              /\ length (TrainRepetitionOnly.tokens_list st)
                 = TrainRepetitionOnly.kept st
              /\ Forall2 (fun tokens tag_ids =>
                            valid_example tokens tag_ids /\ 0 < marked tag_ids)
                   (TrainRepetitionOnly.tokens_list st)
                   (TrainRepetitionOnly.tags_list st))).
  - simpl. repeat split; constructor.
  - intros pre st row (Htotal & Hdis & Hpar & Hlen & Hex).
    rewrite length_app, !filter_app, !length_app. cbn [length].
    unfold TrainRepetitionOnly.load_row.
    destruct row as [[words tags]|].
    + rewrite !filter_cons, !filter_nil. cbn [row_disfluent row_parallel].
      destruct (Nat.eqb_spec (length words) (length tags)) as [Heq|Hne];
        cbn [negb andb].
      * rewrite is_repetition_reparandum.
        destruct (tagged_reparandum (zip words tags)) as [|w rep] eqn:Hrep.
        -- rewrite bool_decide_eq_false_2 by (intros H; by apply H).
           eexists. split; [done|]. simpl.
           repeat split; [lia | lia | lia | done | done].
        -- rewrite bool_decide_eq_true_2 by done.
           destruct (TrainRepetitionOnly.is_repetition words tags).1.1;
             cbn [negb].
           ++ destruct (encode_tags_ids TrainRepetition.LABEL_LIST
                          (TrainRepetitionOnly.convert_tag <$> tags))
                as (tag_ids & Hids & Hidlen & Hrange & Hmarked); [by right | |].
              { apply Forall_fmap, Forall_forall. intros t _.
                apply convert_tag_in. }
              change (label2id TrainRepetition.LABEL_LIST)
                with TrainRepetitionOnly.LABEL2ID in Hids.
              rewrite Hids. cbn [mbind option_bind].
              eexists. split; [done|]. simpl. rewrite length_app. simpl.
              repeat split; [lia | lia | lia | lia |].
              apply Forall2_app; [done|]. constructor; [|constructor].
              split; [split; [|done]|].
              ** by rewrite Hidlen, !length_fmap.
              ** rewrite Hmarked.
                 pose proof (reparandum_marks words tags) as Hm.
                 rewrite Hrep in Hm.
                 destruct (filter _ (TrainRepetitionOnly.convert_tag <$> tags));
                   [by destruct Hm | simpl; lia].
           ++ eexists. split; [done|]. simpl.
              repeat split; [lia | lia | lia | done | done].
      * eexists. split; [done|]. simpl.
        repeat split; [lia | lia | lia | done | done].
    + rewrite !filter_cons, !filter_nil. cbn [row_disfluent row_parallel].
      eexists. split; [done|]. simpl.
      repeat split; [lia | lia | lia | done | done].
Qed.

(** X6: [load_repetition_data] never fails on a missing label id.  It
    raises [ZeroDivisionError] exactly when no row that was read with as
    many tags as words has a reparandum word, as for an empty file: the
    repetition ratio it prints divides by the number of such rows.  When it
    returns, every example has one label id of the three per token and at
    least one label id other than the one of [O], and there are no more
    examples than such rows. *)
Theorem repetition_loader_outcome
    (rows : list (option (list string * list string))) :
  TrainRepetitionOnly.load_repetition_data rows
    <> inl TrainRepetitionOnly.KeyError
  /\ (TrainRepetitionOnly.load_repetition_data rows
        = inl TrainRepetitionOnly.ZeroDivisionError
      <-> filter (fun r => row_disfluent r = true) rows = [])
  /\ (forall tokens_list tags_list,
        TrainRepetitionOnly.load_repetition_data rows
          = inr (tokens_list, tags_list) ->
        Forall2 (fun tokens tag_ids =>
                   valid_example tokens tag_ids /\ 0 < marked tag_ids)
          tokens_list tags_list
        /\ length tokens_list
           <= length (filter (fun r => row_disfluent r = true) rows)).
Proof.
  destruct (load_rows_invariant rows)
    as (st & Hrun & _ & Hdis & _ & Hlen & Hex).
  unfold TrainRepetitionOnly.load_repetition_data. rewrite Hrun.
  destruct (Nat.eqb_spec (TrainRepetitionOnly.kept st
                          + TrainRepetitionOnly.skipped_repair st) 0)
    as [Hzero|Hpos].
  - split; [done|]. split; [|done].
    split; [intros _ | done].
    rewrite Hzero in Hdis. by apply nil_length_inv.
  - split; [done|]. split.
    + split; [done|]. intros Hnil. rewrite Hnil in Hdis. simpl in Hdis. lia.
    + intros tl gl Heq. simplify_eq. split; [done | lia].
Qed.

(* ===================================================================== *)
(** * LabelAligner: the shape of the expansion *)
(* ===================================================================== *)

Lemma expansion_cons start label word_idx word_ids x out :
  (match word_idx with
   | None => x = (-100)%Z
   | Some w => Some x = (if decide (start = Some w) then inside_id else id)
                          <$> label !! w
   end) ->
  expansion_from word_idx label word_ids out ->
  expansion_from start label (word_idx :: word_ids) (x :: out).
Proof.
  intros Hx [Hlen Hout]. split; [simpl; by rewrite Hlen|].
  intros [|j]; simpl.
  - destruct word_idx as [w|]; [done | by rewrite Hx].
  - specialize (Hout j). destruct (word_ids !! j) as [[w|]|] eqn:Hj; [|done|done].
    rewrite Hout. destruct j as [|j]; simpl; [done|]. done.
Qed.

Section Expand.

Variables B_TAG I_TAG : string.
Hypothesis B_not_O : B_TAG <> "O"%string.
Hypothesis B_not_I : B_TAG <> I_TAG.

Let LABEL_LIST : list string := ["O"%string; B_TAG; I_TAG].

Lemma label2id_inside : label2id LABEL_LIST !! I_TAG = Some 2%Z.
Proof. unfold label2id, dict_of. simpl. apply lookup_insert_eq. Qed.

Lemma index_begin id :
  (0 <= id < 3)%Z ->
  exists name, Py.index LABEL_LIST id = Some name
               /\ (String.eqb name B_TAG = true <-> id = 1%Z).
Proof.
  intros Hid.
  assert (id = 0 \/ id = 1 \/ id = 2)%Z as [-> | [-> | ->]] by lia.
  - exists "O"%string. split; [done|]. rewrite String.eqb_eq.
    split; [intros H; by destruct B_not_O | done].
  - exists B_TAG. split; [done|]. by rewrite String.eqb_eq.
  - exists I_TAG. split; [done|]. rewrite String.eqb_eq.
    split; [intros H; by destruct B_not_I | done].
Qed.

Lemma align_loop_expansion (label : list Z) :
  Forall (fun id => (0 <= id < 3)%Z) label ->
  forall word_ids previous_word_idx label_ids,
    (forall w, Some w ∈ word_ids -> w < length label) ->
    exists out,
      align_loop LABEL_LIST (label2id LABEL_LIST) B_TAG I_TAG label word_ids
        previous_word_idx label_ids = Some (label_ids ++ out)
      /\ expansion_from previous_word_idx label word_ids out.
Proof.
  intros Hrange.
  induction word_ids as [|word_idx word_ids IH]; intros prev acc Hin;
    cbn [align_loop].
  - exists []. rewrite app_nil_r. split; [done|]. split; [done|].
    intros j. by rewrite lookup_nil.
  - assert (forall w, Some w ∈ word_ids -> w < length label) as Hin'
      by (intros w Hw; apply Hin; by right).
    destruct word_idx as [w|].
    + destruct (lookup_lt_is_Some_2 label w) as [l Hl]; [apply Hin; by left|].
      rewrite Hl. cbn [mbind option_bind].
      rewrite Forall_forall in Hrange.
      destruct (index_begin l) as (name & Hname & Hbegin);
        [apply Hrange; by eapply list_elem_of_lookup_2|].
      destruct (decide (Some w <> prev)) as [Hne|Heq].
      * destruct (IH (Some w) (acc ++ [l]) Hin') as (out & -> & Hout).
        exists (l :: out). rewrite <- app_assoc. split; [done|].
        apply expansion_cons; [|done].
        rewrite Hl. rewrite decide_False by congruence. done.
      * assert (prev = Some w) as -> by (by destruct (decide (prev = Some w));
          [|destruct Heq; congruence]).
        rewrite Hname. cbn [mbind option_bind].
        destruct (String.eqb name B_TAG) eqn:Hb.
        -- rewrite label2id_inside. cbn [mbind option_bind].
           destruct (IH (Some w) (acc ++ [2%Z]) Hin') as (out & -> & Hout).
           exists (2%Z :: out). rewrite <- app_assoc. split; [done|].
           apply expansion_cons; [|done].
           rewrite Hl, decide_True by done. simpl.
           by rewrite (proj1 Hbegin eq_refl).
        -- destruct (IH (Some w) (acc ++ [l]) Hin') as (out & -> & Hout).
           exists (l :: out). rewrite <- app_assoc. split; [done|].
           apply expansion_cons; [|done].
           rewrite Hl, decide_True by done. simpl. unfold inside_id.
           rewrite decide_False; [done|]. intros Hone.
           by apply Hbegin in Hone.
    + destruct (IH None (acc ++ [(-100)%Z]) Hin') as (out & -> & Hout).
      exists ((-100)%Z :: out). rewrite <- app_assoc. split; [done|].
      by apply expansion_cons.
Qed.

End Expand.

Lemma inside_id_not_begin id : inside_id id <> 1%Z.
Proof. unfold inside_id. case_decide; lia. Qed.

Lemma inside_id_range id : (0 <= id < 3)%Z -> (0 <= inside_id id < 3)%Z.
Proof. unfold inside_id. case_decide; lia. Qed.

Lemma expansion_sentinel label word_ids label_ids :
  Forall (fun id => (0 <= id < 3)%Z) label ->
  expansion label word_ids label_ids ->
  forall j, label_ids !! j = Some (-100)%Z <-> word_ids !! j = Some None.
Proof.
  intros Hrange [Hlen Hexp] j. specialize (Hexp j). split.
  - intros Hj.
    destruct (lookup_lt_is_Some_2 word_ids j) as [o Ho];
      [rewrite <- Hlen; by eapply lookup_lt_Some|].
    rewrite Ho in Hexp. destruct o as [w|]; [|done].
    rewrite Hj in Hexp. destruct (label !! w) as [l|] eqn:Hw; [|done].
    rewrite Forall_forall in Hrange.
    pose proof (Hrange l (list_elem_of_lookup_2 _ _ _ Hw)) as Hl.
    pose proof (inside_id_range l Hl) as Hl'.
    case_decide; cbn [fmap option_fmap option_map] in Hexp;
      injection Hexp as Hexp; [rewrite <- Hexp in Hl' | unfold id in Hexp]; lia.
  - intros Hj. by rewrite Hj in Hexp.
Qed.

(** X8: the three training scripts expand word label ids to subwords in
    the same way.  For label ids of the three and word indices within the
    sentence the expansion returns one label id per subword: the sentinel
    exactly on the special tokens, the label id of the word on its first
    subword, and the inside form on the subwords after it, which therefore
    never carry the begin id. *)
Theorem expansion_shape (label : list Z) (word_ids : list (option nat)) :
  Forall (fun id => (0 <= id < 3)%Z) label ->
  Forall (fun o : option nat => from_option (fun w => w < length label) True o)
         word_ids ->
  exists label_ids,
    TrainRepetition.tokenize_and_align_labels label word_ids = Some label_ids
    /\ TrainFiller.tokenize_and_align_labels label word_ids = Some label_ids
    /\ TrainRepetitionOnly.tokenize_and_align_labels label word_ids
       = Some label_ids
    /\ expansion label word_ids label_ids
    /\ (forall j, label_ids !! j = Some (-100)%Z <-> word_ids !! j = Some None)
    /\ (forall j w, word_ids !! j = Some (Some w) ->
                    previous_word None word_ids j = Some w ->
                    label_ids !! j <> Some 1%Z).
Proof.
  intros Hrange Hin.
  assert (forall w, Some w ∈ word_ids -> w < length label) as Hin'.
  { intros w Hw. rewrite Forall_forall in Hin. exact (Hin _ Hw). }
  destruct (align_loop_expansion "B-REP" "I-REP" ltac:(done) ltac:(done)
              label Hrange word_ids None [] Hin') as (out & Hrep & Hexp).
  destruct (align_loop_expansion "B-FILL" "I-FILL" ltac:(done) ltac:(done)
              label Hrange word_ids None [] Hin') as (out' & Hfill & Hexp').
  assert (out' = out) as ->.
  { destruct Hexp as [Hlen Hexp], Hexp' as [Hlen' Hexp'].
    apply list_eq. intros j. specialize (Hexp j). specialize (Hexp' j).
    destruct (word_ids !! j) as [[w|]|] eqn:Hj; [congruence | congruence |].
    rewrite !(lookup_ge_None_2 _ j); [done | | ];
      apply lookup_ge_None_1 in Hj; lia. }
  exists out. split; [exact Hrep|]. split; [exact Hfill|]. split; [exact Hrep|].
  split; [exact Hexp|]. split; [by apply (expansion_sentinel label)|].
  intros j w Hj Hprev Hone. destruct Hexp as [_ Hexp]. specialize (Hexp j).
  rewrite Hj, decide_True, Hone in Hexp by done.
  destruct (label !! w) as [id|]; simplify_eq/=.
  by eapply inside_id_not_begin.
Qed.

Lemma expansion_shape_witness :
  exists label_ids,
    TrainRepetition.tokenize_and_align_labels [0; 1; 2]%Z
      [None; Some 0; Some 1; Some 1; Some 1; Some 2; Some 2; None] = Some label_ids
    /\ label_ids = [-100; 0; 1; 2; 2; 2; 2; -100]%Z.
Proof.
  destruct (expansion_shape [0; 1; 2]%Z
              [None; Some 0; Some 1; Some 1; Some 1; Some 2; Some 2; None])
    as (label_ids & Hrun & _).
  - repeat constructor; lia.
  - repeat constructor.
  - exists label_ids. split; [exact Hrun|].
    vm_compute in Hrun. by simplify_eq.
Defined.

Lemma true_labels_lengths prediction :
  Forall (fun p => (0 <= p < 3)%Z) prediction ->
  forall label,
    Forall (fun l => l = (-100)%Z \/ (0 <= l < 3)%Z) label ->
    length prediction = length label ->
    exists tp tl,
      TrainRepetition.true_labels prediction label = Some (tp, tl)
      /\ length tp = length tl
      /\ length tl = length (filter (fun l => l <> (-100)%Z) label).
Proof.
  induction 1 as [|p prediction Hp _ IH]; intros label Hlabel Hlen.
  - destruct label; [|done]. by exists [], [].
  - destruct Hlabel as [|l label Hl Hlabel]; [done|].
    destruct (IH label Hlabel) as (tp & tl & Hrun & Hsame & Hcount);
      [simpl in Hlen; lia|].
    cbn [TrainRepetition.true_labels].
    destruct (decide (l <> (-100)%Z)) as [Hne|Heq].
    + rewrite filter_cons_True by done.
      assert (exists pn, Py.index TrainRepetition.LABEL_LIST p = Some pn)
        as [pn ->].
      { assert (p = 0 \/ p = 1 \/ p = 2)%Z as [-> | [-> | ->]] by lia;
          by eexists. }
      assert (exists ln, Py.index TrainRepetition.LABEL_LIST l = Some ln)
        as [ln ->].
      { assert (l = 0 \/ l = 1 \/ l = 2)%Z as [-> | [-> | ->]] by lia;
          by eexists. }
      rewrite Hrun. simpl. exists (pn :: tp), (ln :: tl).
      split; [done|]. simpl. split; lia.
    + rewrite filter_cons_False by done.
      exists tp, tl. by split.
Qed.

Lemma sentinel_count (label_ids : list Z) (word_ids : list (option nat)) :
  length label_ids = length word_ids ->
  (forall j, label_ids !! j = Some (-100)%Z <-> word_ids !! j = Some None) ->
  length (filter (fun l => l <> (-100)%Z) label_ids)
  = length (filter (fun o : option nat => is_Some o) word_ids).
Proof.
  revert word_ids. induction label_ids as [|l label_ids IH];
    intros [|o word_ids] Hlen Hiff; try done.
  pose proof (Hiff 0) as H0. simpl in H0.
  assert (length (filter (fun l => l <> (-100)%Z) label_ids)
          = length (filter (fun o : option nat => is_Some o) word_ids)) as Hrest.
  { apply IH; [simpl in Hlen; lia | intros j; apply (Hiff (S j))]. }
  destruct (decide (l = (-100)%Z)) as [->|Hne]; destruct o as [w|].
  - destruct H0 as [H0 _]. specialize (H0 eq_refl). done.
  - rewrite filter_cons_False by (intros H; by apply H).
    rewrite filter_cons_False by (by intros [? ?]). done.
  - rewrite filter_cons_True by done.
    rewrite filter_cons_True by (by eexists). simpl. by rewrite Hrest.
  - destruct Hne. destruct H0 as [_ H0]. specialize (H0 eq_refl). congruence.
Qed.

(** X9: [compute_metrics] scores a sentence at the level of subwords.  On
    the aligned labels of an example and predicted label ids of the three,
    it hands the scorer two lists of label names of the same length, with
    one entry for every subword that is not a special token. *)
Theorem metrics_score_every_subword (label prediction : list Z)
    (word_ids : list (option nat)) :
  Forall (fun id => (0 <= id < 3)%Z) label ->
  Forall (fun o : option nat => from_option (fun w => w < length label) True o)
         word_ids ->
  Forall (fun p => (0 <= p < 3)%Z) prediction ->
  length prediction = length word_ids ->
  exists label_ids true_pred true_lab,
    TrainRepetition.tokenize_and_align_labels label word_ids = Some label_ids
    /\ TrainRepetition.true_labels prediction label_ids
       = Some (true_pred, true_lab)
    /\ length true_pred = length true_lab
    /\ length true_lab
       = length (filter (fun o : option nat => is_Some o) word_ids).
Proof.
  intros Hrange Hin Hpred Hlen.
  assert (forall w, Some w ∈ word_ids -> w < length label) as Hin'.
  { intros w Hw. rewrite Forall_forall in Hin. exact (Hin _ Hw). }
  destruct (align_loop_expansion "B-REP" "I-REP" ltac:(done) ltac:(done)
              label Hrange word_ids None [] Hin') as (label_ids & Hrun & Hexp).
  pose proof (expansion_sentinel label word_ids label_ids Hrange Hexp) as Hsent.
  destruct (true_labels_lengths prediction Hpred label_ids)
    as (tp & tl & Htrue & Hsame & Hcount).
  - apply Forall_forall. intros l [j Hj]%list_elem_of_lookup_1.
    destruct Hexp as [Hlen' Hexp]. specialize (Hexp j).
    destruct (lookup_lt_is_Some_2 word_ids j) as [o Ho];
      [rewrite <- Hlen'; by eapply lookup_lt_Some|].
    rewrite Ho, Hj in Hexp. destruct o as [w|]; [|left; congruence].
    right. destruct (label !! w) as [id0|] eqn:Hw; [|done].
    rewrite Forall_forall in Hrange.
    pose proof (Hrange id0 (list_elem_of_lookup_2 _ _ _ Hw)) as Hid.
    pose proof (inside_id_range id0 Hid) as Hid'.
    case_decide; cbn [fmap option_fmap option_map] in Hexp;
      injection Hexp as ->; [done | unfold id; lia].
  - destruct Hexp as [Hlen' _]. lia.
  - exists label_ids, tp, tl. split; [exact Hrun|]. split; [exact Htrue|].
    split; [exact Hsame|]. rewrite Hcount.
    apply sentinel_count; [by destruct Hexp | exact Hsent].
Qed.

Lemma metrics_score_every_subword_witness :
  exists label_ids true_pred true_lab,
    TrainRepetition.tokenize_and_align_labels [0; 1]%Z
      [None; Some 0; Some 1; Some 1; None] = Some label_ids
    /\ TrainRepetition.true_labels [0; 0; 1; 1; 0]%Z label_ids
       = Some (true_pred, true_lab)
    /\ length true_pred = length true_lab
    /\ length true_lab = 3.
Proof.
  apply (metrics_score_every_subword [0; 1]%Z [0; 0; 1; 1; 0]%Z
           [None; Some 0; Some 1; Some 1; None]).
  - repeat constructor; lia.
  - repeat constructor.
  - repeat constructor; lia.
  - reflexivity.
Defined.

(* ===================================================================== *)
(** * LabelAligner, inference direction: one subword decides *)
(* ===================================================================== *)

Lemma word_labels_loop_agree id2label (predictions1 predictions2 : list Z) :
  forall word_ids idx (word_labels : gmap nat string),
    (forall j w, word_ids !! j = Some (Some w) ->
                 Some w ∉ take j word_ids ->
                 word_labels !! w = None ->
                 predictions1 !! (idx + j) = predictions2 !! (idx + j)) ->
    Models.word_labels_loop id2label predictions1 idx word_ids word_labels
    = Models.word_labels_loop id2label predictions2 idx word_ids word_labels.
Proof.
  induction word_ids as [|word_idx word_ids IH]; intros idx wl Hfirst;
    cbn [Models.word_labels_loop]; [done|].
  assert (forall wl' : gmap nat string,
            (forall w, wl' !! w = None -> wl !! w = None /\ word_idx <> Some w) ->
            Models.word_labels_loop id2label predictions1 (S idx) word_ids wl'
            = Models.word_labels_loop id2label predictions2 (S idx) word_ids wl')
    as Hnext.
  { intros wl' Hwl'. apply IH. intros j w Hj Hnot Hnone.
    destruct (Hwl' w Hnone) as [Hwl Hne].
    replace (S idx + j) with (idx + S j) by lia.
    apply (Hfirst (S j) w); [done | | done].
    simpl. intros [?|?]%elem_of_cons; by simplify_eq. }
  destruct word_idx as [w0|].
  - destruct (decide (wl !! w0 = None)) as [Hnone|Hsome].
    + assert (predictions1 !! (idx + 0) = predictions2 !! (idx + 0)) as Hp
        by (apply (Hfirst 0 w0); [done | simpl; apply not_elem_of_nil | done]).
      rewrite Nat.add_0_r in Hp. rewrite <- Hp.
      destruct (predictions1 !! idx) as [p|]; [|done]. simpl.
      destruct (id2label !! p) as [l|]; [|done]. simpl.
      apply Hnext. intros w Hw.
      destruct (decide (w0 = w)) as [->|Hne];
        [by rewrite lookup_insert_eq in Hw|].
      rewrite lookup_insert_ne in Hw by done. split; [done | congruence].
    + apply Hnext. intros w Hw. split; [done | congruence].
  - apply Hnext. intros w Hw. split; [done | congruence].
Qed.

Lemma word_labels_loop_dom id2label predictions :
  forall word_ids idx (word_labels word_labels' : gmap nat string),
    Models.word_labels_loop id2label predictions idx word_ids word_labels
      = Some word_labels' ->
    forall w, is_Some (word_labels' !! w)
              <-> is_Some (word_labels !! w) \/ Some w ∈ word_ids.
Proof.
  induction word_ids as [|word_idx word_ids IH]; intros idx wl wl' Hrun w;
    cbn [Models.word_labels_loop] in Hrun.
  - simplify_eq. split; [by left | intros [?|Hin]; [done|]].
    by apply elem_of_nil in Hin.
  - rewrite elem_of_cons. destruct word_idx as [w0|].
    + destruct (decide (wl !! w0 = None)) as [Hnone|Hsome].
      * destruct (predictions !! idx) as [p|]; [|done]. simpl in Hrun.
        destruct (id2label !! p) as [l|]; [|done]. simpl in Hrun.
        rewrite (IH _ _ _ Hrun w).
        destruct (decide (w0 = w)) as [->|Hne].
        -- rewrite lookup_insert_eq. split; [intros _; right; by left|].
           intros _. left. by eexists.
        -- rewrite lookup_insert_ne by done.
           split; [intros [?|?]; auto|].
           intros [?|[?|?]]; [by left | by simplify_eq | by right].
      * rewrite (IH _ _ _ Hrun w). split; [intros [?|?]; auto|].
        intros [?|[Heq|?]]; [by left | | by right].
        injection Heq as Heq. subst. left. by apply not_eq_None_Some.
    + rewrite (IH _ _ _ Hrun w). split; [intros [?|?]; auto|].
      intros [?|[?|?]]; [by left | done | by right].
Qed.

(** X10: [_get_word_labels] reads the prediction of the first subword of
    each word and nothing else.  Two networks that agree on the first
    subword of every word give the same word labels, or fail alike.  The
    words that get a label are those with at least one subword; a word
    without one counts as labelled [O]. *)
Theorem word_labels_from_first_subwords (m1 m2 : Models.BaseModel)
    (words : list string) :
  Models.id2label (Models.loaded m1) = Models.id2label (Models.loaded m2) ->
  Models.word_ids (Models.infer (Models.loaded m1) words)
    = Models.word_ids (Models.infer (Models.loaded m2) words) ->
  (forall j w,
     Models.word_ids (Models.infer (Models.loaded m1) words) !! j
       = Some (Some w) ->
     Some w ∉ take j (Models.word_ids (Models.infer (Models.loaded m1) words)) ->
     Models.predictions (Models.infer (Models.loaded m1) words) !! j
     = Models.predictions (Models.infer (Models.loaded m2) words) !! j) ->
  Models._get_word_labels m1 words = Models._get_word_labels m2 words
  /\ forall word_labels,
       Models._get_word_labels m1 words = Some word_labels ->
       forall w,
         (is_Some (word_labels !! w)
          <-> Some w ∈ Models.word_ids (Models.infer (Models.loaded m1) words))
         /\ (Some w ∉ Models.word_ids (Models.infer (Models.loaded m1) words) ->
             Models.get_label word_labels w = "O"%string).
Proof.
  intros Hid Hwids Hfirst. unfold Models._get_word_labels. split.
  - rewrite <- Hid, <- Hwids. apply word_labels_loop_agree.
    intros j w Hj Hnot _. by apply (Hfirst j w).
  - intros wl Hrun w.
    pose proof (word_labels_loop_dom _ _ _ _ _ _ Hrun w) as Hdom.
    rewrite lookup_empty in Hdom.
    assert (is_Some (wl !! w)
            <-> Some w ∈ Models.word_ids (Models.infer (Models.loaded m1) words))
      as Hiff.
    { rewrite Hdom. split; [intros [[? ?]|?]; done | by right]. }
    split; [exact Hiff|]. intros Hnot. unfold Models.get_label.
    destruct (wl !! w) as [l|] eqn:Hw; [|done].
    destruct Hnot. apply Hiff. by eexists.
Qed.

Lemma word_labels_from_first_subwords_witness :
  Models._get_word_labels
    (memorised TrainRepetition.LABEL_LIST
       [None; Some 0; Some 0; Some 2; None] [0; 1; 2; 0; 0]%Z)
    ["um"; "well"; "yes"]%string
  = Models._get_word_labels
      (memorised TrainRepetition.LABEL_LIST
         [None; Some 0; Some 0; Some 2; None] [2; 1; 0; 0; 1]%Z)
      ["um"; "well"; "yes"]%string.
Proof.
  apply (word_labels_from_first_subwords
           (memorised TrainRepetition.LABEL_LIST
              [None; Some 0; Some 0; Some 2; None] [0; 1; 2; 0; 0]%Z)
           (memorised TrainRepetition.LABEL_LIST
              [None; Some 0; Some 0; Some 2; None] [2; 1; 0; 0; 1]%Z)
           ["um"; "well"; "yes"]%string).
  - reflexivity.
  - reflexivity.
  - intros j w Hj Hnot. simpl in *.
    destruct j as [|[|[|[|[|j]]]]]; simplify_eq/=; try done.
    destruct Hnot. right. by left.
Defined.

(* ===================================================================== *)
(** * TaggerStage: what the detailed report accounts for *)
(* ===================================================================== *)

Lemma removed_sublist (P : nat * string -> Prop) `{!forall x, Decision (P x)} words :
  sublist (snd <$> filter P (Py.enumerate words)) words.
Proof. apply kept_sublist. Qed.

(** X11: for a non-blank text whose labeling returns, the detailed report
    of any tagger class accounts for every word of the input exactly once:
    the words of the reported output together with the removed words are
    the words of the input, and each of the two lists keeps the order of
    the input. *)
Theorem details_account_for_every_word (m : Models.BaseModel) (text : string)
    (word_labels : gmap nat string) :
  Models.blank text = false ->
  Models._get_word_labels m (Py.split text) = Some word_labels ->
  exists d,
    Models.process_with_details m text = Some d
    /\ Py.split (Models.output d) ++ Models.removed d ≡ₚ Py.split text
    /\ sublist (Py.split (Models.output d)) (Py.split text)
    /\ sublist (Models.removed d) (Py.split text).
Proof.
  intros Hblank Hlabels. unfold Models.process_with_details.
  rewrite Hblank, Hlabels. cbn [mbind option_bind].
  eexists. split; [done|]. cbn [Models.output Models.removed].
  rewrite details_fold. cbn [fst snd app].
  rewrite split_join_kept. split; [|split].
  - rewrite <- fmap_app.
    rewrite (filter_app_complement
               (fun iw : nat * string =>
                  Models.get_label word_labels iw.1 = "O"%string)).
    unfold Py.enumerate. by rewrite enumerate_from_snd.
  - apply kept_sublist.
  - apply removed_sublist.
Qed.

Lemma details_account_for_every_word_witness :
  exists d,
    Models.process_with_details Example.filler_model "i uh think um so" = Some d
    /\ Py.split (Models.output d) ++ Models.removed d
       ≡ₚ Py.split "i uh think um so"
    /\ sublist (Py.split (Models.output d)) (Py.split "i uh think um so")
    /\ sublist (Models.removed d) (Py.split "i uh think um so").
Proof.
  destruct (sound_get_word_labels Example.filler_model
              (Py.split "i uh think um so") filler_model_sound)
    as [word_labels Hlabels].
  apply (details_account_for_every_word Example.filler_model
           "i uh think um so" word_labels); [reflexivity | exact Hlabels].
Defined.

(** X12: for the classes that inherit [process], the filler and the
    repetition remover, the detailed report carries the output of
    [process], and its removed list holds the words that are not labelled
    [O], in the order of the input. *)
Theorem inherited_details_agree (m : Models.BaseModel) (text : string) :
  Models.class_of m <> Models.RepairRemover ->
  Models.output <$> Models.process_with_details m text = Models.process m text
  /\ (forall word_labels,
        Models.blank text = false ->
        Models._get_word_labels m (Py.split text) = Some word_labels ->
        Models.removed <$> Models.process_with_details m text
        = Some (snd <$> filter (fun iw : nat * string =>
                                  Models.get_label word_labels iw.1 <> "O"%string)
                               (Py.enumerate (Py.split text)))).
Proof. apply base_details_agree. Qed.

Lemma inherited_details_agree_witness :
  Models.output <$> Models.process_with_details Example.filler_model "i uh think"
  = Models.process Example.filler_model "i uh think".
Proof.
  apply (inherited_details_agree Example.filler_model "i uh think"). discriminate.
Defined.

Lemma filter_enumerate_ext (P Q : nat * string -> Prop)
    `{!forall x, Decision (P x)} `{!forall x, Decision (Q x)} i words :
  (forall j w, words !! j = Some w -> (P (i + j, w) <-> Q (i + j, w))) ->
  filter P (Py.enumerate_from i words) = filter Q (Py.enumerate_from i words).
Proof.
  revert i. induction words as [|w words IH]; intros i HPQ; [done|].
  cbn [Py.enumerate_from]. rewrite !filter_cons.
  rewrite (IH (S i)).
  - pose proof (HPQ 0 w eq_refl) as Hhere. rewrite Nat.add_0_r in Hhere.
    destruct (decide (P (i, w))), (decide (Q (i, w))); tauto || done.
  - intros j w' Hj. replace (S i + j) with (i + S j) by lia. by apply HPQ.
Qed.

(** X13: when every word of the text is labelled [O] or with a label that
    contains [REPAIR], the detailed report of every tagger class, the
    repair remover included, carries the output of [process]. *)
Theorem details_agree_on_repair_labels (m : Models.BaseModel) (text : string)
    (word_labels : gmap nat string) :
  Models._get_word_labels m (Py.split text) = Some word_labels ->
  (forall i, i < length (Py.split text) ->
             Models.get_label word_labels i = "O"%string
             \/ Models._should_remove (Models.get_label word_labels i) = true) ->
  Models.output <$> Models.process_with_details m text = Models.process m text.
Proof.
  intros Hlabels Hrepair.
  destruct (Models.class_of m) eqn:Hc;
    [apply base_details_agree; by rewrite Hc
    |apply base_details_agree; by rewrite Hc |].
  unfold Models.process, Models.process_with_details, Models.repair_process.
  rewrite Hc. destruct (Models.blank text); [done|].
  rewrite Hlabels. cbn [mbind option_bind fmap option_fmap option_map Models.output].
  rewrite details_fold. cbn [fst app]. do 3 f_equal.
  unfold Py.enumerate. apply filter_enumerate_ext. intros j w Hj. simpl.
  destruct (Hrepair j) as [HO | Hrem]; [by eapply lookup_lt_Some | |].
  - rewrite HO. by split.
  - rewrite Hrem. split; [intros HO; by rewrite HO in Hrem | done].
Qed.

Lemma details_agree_on_repair_labels_witness :
  Models.output <$>
    Models.process_with_details
      (Example.tagger Models.RepairRemover Example.filler_tag
         ["O"; "B-REPAIR"; "I-REPAIR"]%string) "we uh were"
  = Models.process
      (Example.tagger Models.RepairRemover Example.filler_tag
         ["O"; "B-REPAIR"; "I-REPAIR"]%string) "we uh were".
Proof.
  apply (details_agree_on_repair_labels
           (Example.tagger Models.RepairRemover Example.filler_tag
              ["O"; "B-REPAIR"; "I-REPAIR"]%string) "we uh were"
           (<[2 := "O"%string]> (<[1 := "B-REPAIR"%string]>
              (<[0 := "O"%string]> ∅)))).
  - reflexivity.
  - intros i Hi. simpl in Hi.
    destruct i as [|[|[|i]]]; [by left | by right | by left | lia].
Defined.

(* ===================================================================== *)
(** * PipelineOrchestrator: composing the stages *)
(* ===================================================================== *)

Lemma pipeline_process_None models :
  foldl (fun (result : option string) (model : Models.BaseModel) =>
           r ← result; Models.process model r) None models = None.
Proof. induction models as [|m models IH]; [done | exact IH]. Qed.

Lemma pipeline_process_app ms1 ms2 text :
  Pipeline.process (ms1 ++ ms2) text
  = r ← Pipeline.process ms1 text; Pipeline.process ms2 r.
Proof.
  revert text. induction ms1 as [|m ms1 IH]; intros text; [done|].
  rewrite <- app_comm_cons, !pipeline_process_cons.
  destruct (Models.process m text) as [r|]; [apply IH | done].
Qed.

Lemma blank_process m text :
  Models.blank text = true -> Models.process m text = Some text.
Proof.
  intros Hblank. unfold Models.process, Models.base_process, Models.repair_process.
  rewrite Hblank. by destruct (Models.class_of m).
Qed.

(** The report of a pipeline that starts with the stage [m] *)
Lemma details_cons m models text :
  Pipeline.process_with_details (m :: models) text
  = d ← Models.process_with_details m text;
    r ← Pipeline.process_with_details models (Models.output d);
    Some {| Pipeline.report_input := text;
            Pipeline.report_output := Pipeline.report_output r;
            Pipeline.steps :=
              {| Pipeline.step_model := Models.class_name (Models.class_of m);
                 Pipeline.step_input := text;
                 Pipeline.step_output := Models.output d;
                 Pipeline.step_removed := Models.removed d |}
              :: Pipeline.steps r |}.
Proof.
  unfold Pipeline.process_with_details. cbn [foldl].
  change (Some ([], text) ≫= _)
    with (result ← Models.process_with_details m text;
          Some ([] ++ [{| Pipeline.step_model :=
                            Models.class_name (Models.class_of m);
                          Pipeline.step_input := text;
                          Pipeline.step_output := Models.output result;
                          Pipeline.step_removed := Models.removed result |}],
                Models.output result)).
  destruct (Models.process_with_details m text) as [d|];
    cbn [mbind option_bind]; [|by rewrite details_loop_None].
  rewrite app_nil_l.
  generalize ({| Pipeline.step_model := Models.class_name (Models.class_of m);
                 Pipeline.step_input := text;
                 Pipeline.step_output := Models.output d;
                 Pipeline.step_removed := Models.removed d |}) as s.
  intros s. generalize (Models.output d) as t. clear.
  assert (forall (pre steps0 : list Pipeline.step) t,
            foldl (fun (acc : option (list Pipeline.step * string))
                       (model : Models.BaseModel) =>
                     '(steps, current_text) ← acc;
                     result ← Models.process_with_details model current_text;
                     Some (steps ++ [{| Pipeline.step_model :=
                                          Models.class_name (Models.class_of model);
                                        Pipeline.step_input := current_text;
                                        Pipeline.step_output := Models.output result;
                                        Pipeline.step_removed := Models.removed result |}],
                           Models.output result))
                  (Some (pre ++ steps0, t)) models
            = (fun st : list Pipeline.step * string => (pre ++ st.1, st.2))
                <$> foldl (fun (acc : option (list Pipeline.step * string))
                               (model : Models.BaseModel) =>
                             '(steps, current_text) ← acc;
                             result ← Models.process_with_details model current_text;
                             Some (steps ++ [{| Pipeline.step_model :=
                                                  Models.class_name (Models.class_of model);
                                                Pipeline.step_input := current_text;
                                                Pipeline.step_output := Models.output result;
                                                Pipeline.step_removed := Models.removed result |}],
                                   Models.output result))
                          (Some (steps0, t)) models) as Hshift.
  { induction models as [|m' models IH]; intros pre steps0 t; [done|].
    cbn [foldl]. cbn [mbind option_bind].
    destruct (Models.process_with_details m' t) as [d|]; cbn [mbind option_bind].
    - rewrite <- app_assoc. apply IH.
    - by rewrite !details_loop_None. }
  intros t. pose proof (Hshift [s] [] t) as Hs.
  rewrite app_nil_r in Hs. rewrite Hs. clear Hs Hshift.
  match goal with
  | |- context [foldl ?f (Some ([], t)) models] =>
      destruct (foldl f (Some ([], t)) models) as [[steps1 t1]|]
  end; done.
Qed.

Lemma blank_details m text :
  Models.blank text = true ->
  Models.process_with_details m text
  = Some {| Models.output := text; Models.removed := []; Models.labels := ∅ |}.
Proof. intros Hblank. unfold Models.process_with_details. by rewrite Hblank. Qed.

(** X14: a blank text passes through every pipeline unchanged, whatever
    its stages are and without any labeling: [process] returns the text,
    and the report holds one step per stage, each with the text as input
    and output and nothing removed.  With the default stages found,
    [cleanup_transcript] returns the text too. *)
Theorem blank_text_passes_through (models : list Models.BaseModel)
    (load : Models.model_class -> option Models.capability) (text : string) :
  Models.blank text = true ->
  Pipeline.process models text = Some text
  /\ (exists report,
        Pipeline.process_with_details models text = Some report
        /\ Pipeline.report_output report = text
        /\ length (Pipeline.steps report) = length models
        /\ Forall (fun s => Pipeline.step_input s = text
                            /\ Pipeline.step_output s = text
                            /\ Pipeline.step_removed s = [])
             (Pipeline.steps report))
  /\ (is_Some (load Models.FillerRemover) ->
      is_Some (load Models.RepetitionRemover) ->
      Pipeline.cleanup_transcript load text = Some text).
Proof.
  intros Hblank.
  assert (forall ms, Pipeline.process ms text = Some text) as Hprocess.
  { induction ms as [|m ms IH]; [done|].
    by rewrite pipeline_process_cons, blank_process. }
  split; [apply Hprocess|]. split.
  - induction models as [|m models (report & Hrun & Hout & Hlen & Hsteps)].
    + eexists. split; [reflexivity|]. by repeat split.
    + rewrite details_cons, blank_details by done. cbn [mbind option_bind].
      cbn [Models.output Models.removed]. rewrite Hrun. cbn [mbind option_bind].
      eexists. split; [reflexivity|]. cbn.
      split; [done|]. split; [by rewrite Hlen|]. by constructor.
  - intros [capF HF] [capR HR]. unfold Pipeline.cleanup_transcript,
      Pipeline.__init__, Pipeline.append_if, Pipeline.construct.
    rewrite HF, HR. cbn [mbind option_bind]. apply Hprocess.
Qed.

Lemma blank_text_passes_through_witness :
  Pipeline.process [Example.repair_model_rep_labels; Example.filler_model] "   "
  = Some "   ".
Proof.
  destruct (blank_text_passes_through
              [Example.repair_model_rep_labels; Example.filler_model]
              Example.directory "   " eq_refl) as [Hrun _].
  exact Hrun.
Defined.

(** X15: the pipeline composes its stages.  A pipeline of two lists of
    stages is the first list followed by the second; a stage added with
    [add_model] runs after the others, and a stage inserted at index 0
    runs before them.  [insert_model] raises [OverflowError] exactly when
    the index does not fit the index type of the machine; otherwise the
    pipeline grows by one stage, and an index from the length of the
    pipeline on inserts at the end. *)
Theorem pipeline_composes (ms1 ms2 : list Models.BaseModel)
    (m : Models.BaseModel) (index : Z) (text : string) :
  Pipeline.process (ms1 ++ ms2) text
    = (r ← Pipeline.process ms1 text; Pipeline.process ms2 r)
  /\ Pipeline.process (Pipeline.add_model ms1 m) text
     = (r ← Pipeline.process ms1 text; Models.process m r)
  /\ (Pipeline.insert_model ms1 0 m = Some (m :: ms1)
      /\ Pipeline.process (m :: ms1) text
         = (r ← Models.process m text; Pipeline.process ms1 r))
  /\ ((Z.of_nat (length ms1) <= index <= Py.maxsize)%Z ->
      Pipeline.insert_model ms1 index m = Some (Pipeline.add_model ms1 m))
  /\ (Pipeline.insert_model ms1 index m = None
      <-> (index < - Py.maxsize - 1 \/ Py.maxsize < index)%Z)
  /\ (forall ms,
        Pipeline.insert_model ms1 index m = Some ms ->
        length ms = S (length ms1)).
Proof.
  split; [apply pipeline_process_app|]. split; [|split; [|split; [|split]]].
  - unfold Pipeline.add_model. rewrite pipeline_process_app.
    destruct (Pipeline.process ms1 text) as [r|]; [|done]. simpl.
    rewrite pipeline_process_cons. by destruct (Models.process m r).
  - split; [|apply pipeline_process_cons].
    unfold Pipeline.insert_model, Py.insert. simpl.
    replace (Z.to_nat (0 `min` Z.of_nat (length ms1))) with 0 by lia.
    done.
  - intros [Hge Hle]. unfold Pipeline.insert_model, Pipeline.add_model, Py.insert.
    cbv zeta.
    destruct (Z.ltb_spec index (- Py.maxsize - 1)) as [Hlow|_];
      [unfold Py.maxsize in Hlow; lia|].
    destruct (Z.ltb_spec Py.maxsize index) as [?|_]; [lia|]. cbn [orb].
    destruct (Z.ltb_spec index 0) as [?|_]; [lia|].
    replace (Z.to_nat (index `min` Z.of_nat (length ms1))) with (length ms1)
      by lia.
    by rewrite firstn_all, skipn_all.
  - unfold Pipeline.insert_model, Py.insert.
    destruct (Z.ltb_spec index (- Py.maxsize - 1)) as [Hlow|Hlow];
      destruct (Z.ltb_spec Py.maxsize index) as [Hhigh|Hhigh]; cbn [orb];
      split; try done; try (intros _; by auto); intros [?|?]; lia.
  - intros ms. unfold Pipeline.insert_model, Py.insert. cbv zeta.
    destruct (_ || _); [done|]. intros [= <-].
    rewrite length_app. cbn [length].
    rewrite length_take, length_drop. lia.
Qed.

Lemma pipeline_composes_witness :
  Pipeline.insert_model [Example.filler_model] 7 Example.repetition_model
  = Some (Pipeline.add_model [Example.filler_model] Example.repetition_model).
Proof.
  apply (pipeline_composes [Example.filler_model] [] Example.repetition_model 7
           "i uh think").
  unfold Py.maxsize. simpl. lia.
Defined.

Lemma report_chains models :
  forall text report,
    Pipeline.process_with_details models text = Some report ->
    Pipeline.report_input report = text
    /\ chained text (Pipeline.steps report) (Pipeline.report_output report)
    /\ Pipeline.model_names models
       = Pipeline.step_model <$> Pipeline.steps report
    /\ (Forall (fun m => Models.class_of m <> Models.RepairRemover) models ->
        Pipeline.process models text = Some (Pipeline.report_output report)).
Proof.
  induction models as [|m models IH]; intros text report Hrun.
  - unfold Pipeline.process_with_details in Hrun. simpl in Hrun.
    simplify_eq. by repeat split.
  - rewrite details_cons in Hrun.
    destruct (Models.process_with_details m text) as [d|] eqn:Hd;
      cbn [mbind option_bind] in Hrun; [|done].
    destruct (Pipeline.process_with_details models (Models.output d))
      as [r|] eqn:Hr; cbn [mbind option_bind] in Hrun; [|done].
    simplify_eq.
    cbn [Pipeline.report_input Pipeline.report_output Pipeline.steps chained
         Pipeline.step_input Pipeline.step_output].
    destruct (IH _ _ Hr) as (Hin & Hchain & Hnames & Hagree).
    split; [done|]. split; [by split|].
    split; [unfold Pipeline.model_names in *; by rewrite !fmap_cons, <- Hnames|].
    intros Hbase. apply Forall_cons_1 in Hbase as [Hm Hbase].
    rewrite pipeline_process_cons.
    destruct (base_details_agree m text Hm) as [Hout _].
    rewrite Hd in Hout. simpl in Hout. rewrite <- Hout. simpl.
    by apply Hagree.
Qed.

(** X16: the report of [process_with_details] is a chain: the first step
    starts from the input text, every later step from the output of the
    step before it, and the reported output is the output of the last
    step; the steps name the stages in the order of the pipeline.  When no
    stage is a repair remover, the reported output is the output of
    [process]. *)
Theorem report_is_a_chain (models : list Models.BaseModel) (text : string)
    (report : Pipeline.report) :
  Pipeline.process_with_details models text = Some report ->
  Pipeline.report_input report = text
  /\ chained text (Pipeline.steps report) (Pipeline.report_output report)
  /\ Pipeline.model_names models = Pipeline.step_model <$> Pipeline.steps report
  /\ (Forall (fun m => Models.class_of m <> Models.RepairRemover) models ->
      Pipeline.process models text = Some (Pipeline.report_output report)).
Proof. apply report_chains. Qed.

Lemma report_is_a_chain_witness :
  exists report,
    Pipeline.process_with_details
      [Example.filler_model; Example.repetition_model] "i uh think um so"
      = Some report
    /\ chained "i uh think um so" (Pipeline.steps report) "i think so"
    /\ Pipeline.process [Example.filler_model; Example.repetition_model]
         "i uh think um so" = Some (Pipeline.report_output report).
Proof.
  eexists. split; [reflexivity|].
  destruct (report_is_a_chain
              [Example.filler_model; Example.repetition_model]
              "i uh think um so" _ eq_refl) as (_ & Hchain & _ & Hagree).
  split; [exact Hchain|]. apply Hagree.
  repeat constructor; discriminate.
Defined.

(* ===================================================================== *)
(** * The request handler: disfluency stages only delete words *)
(* ===================================================================== *)

Lemma loaded_disfluency_models env name m :
  (Server.load_models env).1 !! name = Some m ->
  name ∈ Server.DISFLUENCY_ORDER ->
  exists t, m = Server.Tagger t.
Proof.
  unfold Server.load_models, Models.AVAILABLE_MODELS, Server.DISFLUENCY_ORDER.
  cbn [foldl Server.instantiate fst snd].
  intros Hm Hname. rewrite !elem_of_cons in Hname.
  destruct (Server.model_dir env Models.FillerRemover) as [capF|],
    (Server.model_dir env Models.RepetitionRemover) as [capR|],
    (Server.model_dir env Models.RepairRemover) as [capP|],
    (Server.formatter_dir env) as [gen|],
    (Server.truecase_library env) as [tc|];
    cbn [mbind option_bind fmap option_fmap option_map fst snd] in Hm;
    destruct Hname as [-> | [-> | [-> | Hname]]];
    try (by apply elem_of_nil in Hname);
    repeat (rewrite lookup_insert_ne in Hm by done);
    rewrite ?lookup_insert_eq, ?lookup_empty in Hm;
    simplify_eq; by eexists.
Qed.

Lemma run_model_skips MODELS requested post st name :
  name ∉ requested -> Server.run_model MODELS requested post st name = st.
Proof.
  intros Hname. unfold Server.run_model.
  by rewrite bool_decide_eq_false_2.
Qed.

Lemma run_tagger_sublist env requested st name :
  name ∈ Server.DISFLUENCY_ORDER ->
  sublist (Py.split (Server.run_model (Server.load_models env).1 requested id st name).1)
          (Py.split st.1).
Proof.
  intros Hname. unfold Server.run_model.
  destruct (bool_decide (name ∈ requested)); [|done].
  destruct ((Server.load_models env).1 !! name) as [m|] eqn:Hm; [|done].
  destruct (loaded_disfluency_models env name m Hm Hname) as [t ->].
  cbn [Server.model_process].
  destruct (Models.process t st.1) as [text|] eqn:Hrun; [|done].
  cbn [fst]. by apply (process_sublist t).
Qed.

(** X17: with the models that [load_models] registers, a request that
    asks for neither truecasing nor list formatting gets back a text whose
    words are a subsequence of the words it sent, also when a stage raises
    or is not loaded.  This covers the default request, which names the
    filler stage only. *)
Theorem server_disfluency_stages_only_delete (env : Server.environment)
    (models : option (list string)) (list_style text : string) :
  "truecase"%string ∉ default Server.DEFAULT_MODELS models ->
  "list"%string ∉ default Server.DEFAULT_MODELS models ->
  sublist
    (Py.split (Server.process (Server.load_models env).1 models list_style text).1)
    (Py.split text)
  /\ sublist
       (Py.split (Server.process (Server.load_models env).1 None list_style text).1)
       (Py.split text).
Proof.
  assert (forall requested,
            "truecase"%string ∉ requested -> "list"%string ∉ requested ->
            sublist
              (Py.split
                 (Server.run_model (Server.load_models env).1 requested
                    (fun text => Server.convert_list_style text list_style)
                    (foldl (Server.run_model (Server.load_models env).1 requested id)
                       (Server.run_model (Server.load_models env).1 requested id
                          (text, []) "truecase")
                       Server.DISFLUENCY_ORDER) "list").1)
              (Py.split text)) as Hrun.
  { intros requested Htc Hlist.
    rewrite (run_model_skips _ requested _ _ "list") by done.
    rewrite (run_model_skips _ requested _ _ "truecase") by done.
    unfold Server.DISFLUENCY_ORDER at 1. cbn [foldl].
    etrans; [apply run_tagger_sublist; repeat constructor|].
    etrans; [apply run_tagger_sublist; repeat constructor|].
    etrans; [apply run_tagger_sublist; repeat constructor|].
    done. }
  intros Htc Hlist. split.
  - by apply Hrun.
  - apply Hrun; unfold Server.DEFAULT_MODELS; simpl;
      intros [?|?%elem_of_nil]%elem_of_cons; done.
Qed.

Lemma server_disfluency_stages_only_delete_witness :
  sublist
    (Py.split
       (Server.process
          (Server.load_models
             {| Server.model_dir := Example.directory;
                Server.formatter_dir := None;
                Server.truecase_library := None |}).1
          (Some ["repair"; "filler"]%string) "bullets" "i uh think").1)
    (Py.split "i uh think").
Proof.
  apply (server_disfluency_stages_only_delete
           {| Server.model_dir := Example.directory;
              Server.formatter_dir := None;
              Server.truecase_library := None |}
           (Some ["repair"; "filler"]%string) "bullets" "i uh think").
  - simpl. rewrite !elem_of_cons.
    intros [? | [? | ?%elem_of_nil]]; done.
  - simpl. rewrite !elem_of_cons.
    intros [? | [? | ?%elem_of_nil]]; done.
Defined.

(* ===================================================================== *)
(** * ListStructurer: what the two rewrites keep *)
(* ===================================================================== *)

Lemma same_but_spacing_split_aux s t :
  same_but_spacing s t -> Py.split_aux s = Py.split_aux t.
Proof.
  revert t. induction s as [|a s IH]; intros [|b t] Hst; try done.
  destruct Hst as [Hab Hst]. simpl. rewrite (IH t Hst).
  destruct Hab as [-> | [Ha Hb]]; [done|]. by rewrite Ha, Hb.
Qed.

Lemma same_but_spacing_len s t : same_but_spacing s t -> Py.len s = Py.len t.
Proof.
  revert t. induction s as [|a s IH]; intros [|b t] Hst; try done.
  destruct Hst as [_ Hst]. unfold Py.len in *. simpl. by rewrite (IH t Hst).
Qed.

Lemma match_bullet_inv pos s k :
  Re.match_bullet pos s = Some k ->
  k = 3 /\ exists a b c r,
    s = String a (String "-" (String b (String c r)))
    /\ Py.isspace a = true /\ Py.isspace b = true.
Proof.
  unfold Re.match_bullet. intros H.
  repeat case_match; simplify_eq.
  split; [done|].
  repeat match goal with
    | H : _ && _ = true |- _ => apply andb_true_iff in H as [? ?]
    end.
  by eexists _, _, _, _.
Qed.

Lemma fix_newlines_spacing n :
  forall s pos,
    String.length s <= n ->
    same_but_spacing s (Re.sub_go Re.match_bullet (String "010" "- ") pos 0 s).
Proof.
  induction n as [|n IH]; intros s pos Hlen.
  - destruct s; [done | simpl in Hlen; lia].
  - destruct s as [|a s]; [done|]. cbn [Re.sub_go].
    destruct (Re.match_bullet pos (String a s)) as [k|] eqn:Hm.
    + apply match_bullet_inv in Hm as (-> & a' & b & c & r & Hs & Ha & Hb).
      simplify_eq. cbn [Re.sub_go].
      change (String "010" "- " +:+ ?x) with (String "010" (String "-" (String " " x))).
      cbn [same_but_spacing]. split; [right; by split|].
      split; [by left|]. split; [right; by split|].
      apply (IH (String c r) (S (S (S pos)))). simpl in Hlen. simpl. lia.
    + cbn [same_but_spacing]. split; [by left|].
      apply IH. simpl in Hlen. lia.
Qed.

Lemma isspace_ascii c : Py.isspace c = true -> (nat_of_ascii c <? 128) = true.
Proof. destruct c as [[] [] [] [] [] [] [] []]; simpl; done. Qed.

Lemma same_but_spacing_ascii s t :
  same_but_spacing s t -> Py.isascii s = true -> Py.isascii t = true.
Proof.
  revert t. induction s as [|a s IH]; intros [|b t] Hst Hs; try done.
  destruct Hst as [Hab Hst]. simpl in *.
  apply andb_true_iff in Hs as [Ha Hs]. rewrite (IH t Hst Hs), andb_true_r.
  destruct Hab as [<- | [_ Hb]]; [done | by apply isspace_ascii].
Qed.

(** X18: on ASCII text the newline fix-up changes white space only.  The
    text it returns is ASCII, has the length of its input and the same
    words; the replacement puts a line break and a blank where two
    white-space characters stood. *)
Theorem fix_newlines_keeps_words (text : string) :
  Py.isascii text = true ->
  Py.isascii (Models._fix_newlines text) = true
  /\ same_but_spacing text (Models._fix_newlines text)
  /\ Py.len (Models._fix_newlines text) = Py.len text
  /\ Py.split (Models._fix_newlines text) = Py.split text.
Proof.
  intros Hascii.
  pose proof (fix_newlines_spacing (String.length text) text 0 (le_n _)) as H.
  split; [by apply (same_but_spacing_ascii text)|].
  split; [exact H|]. split.
  - symmetry. by apply same_but_spacing_len.
  - unfold Py.split. f_equal.
    by rewrite (same_but_spacing_split_aux _ _ H).
Qed.

Lemma fix_newlines_keeps_words_witness :
  Py.split (Models._fix_newlines "Buy - Milk - Eggs")
  = Py.split "Buy - Milk - Eggs".
Proof.
  destruct (fix_newlines_keeps_words "Buy - Milk - Eggs" eq_refl)
    as (_ & _ & _ & Hwords).
  exact Hwords.
Defined.

Lemma split_on_nonempty sep s : Py.split_on sep s <> [].
Proof.
  destruct s as [|c s]; [done|]. simpl.
  destruct (Ascii.eqb c sep); [done|]. by destruct (Py.split_on sep s).
Qed.

Lemma join_cons_char sep c w ws :
  Py.join sep (String c w :: ws) = String c (Py.join sep (w :: ws)).
Proof. by destruct ws. Qed.

Lemma join_split_on c s : Py.join (String c "") (Py.split_on c s) = s.
Proof.
  induction s as [|d s IH]; [done|]. simpl.
  destruct (Ascii.eqb_spec d c) as [->|Hne].
  - pose proof (split_on_nonempty c s) as Hn.
    destruct (Py.split_on c s) as [|w ws] eqn:Hs; [done|].
    cbn [Py.join]. by rewrite <- IH.
  - pose proof (split_on_nonempty c s) as Hn.
    destruct (Py.split_on c s) as [|w ws] eqn:Hs; [done|].
    by rewrite join_cons_char, IH.
Qed.

Lemma split_on_free c s : Forall (fun w => free_of c w = true) (Py.split_on c s).
Proof.
  induction s as [|d s IH]; [by repeat constructor|]. simpl.
  destruct (Ascii.eqb d c) eqn:Hd.
  - by constructor.
  - destruct (Py.split_on c s) as [|w ws].
    + repeat constructor. simpl. by rewrite Hd.
    + inversion IH; subst. constructor; [|done]. simpl. by rewrite Hd.
Qed.

Lemma split_on_one c w : free_of c w = true -> Py.split_on c w = [w].
Proof.
  induction w as [|d w IH]; [done|]. simpl. intros H.
  apply andb_true_iff in H as [Hd Hw]. apply negb_true_iff in Hd.
  by rewrite Hd, (IH Hw).
Qed.

Lemma split_on_app c w rest :
  free_of c w = true ->
  Py.split_on c (w +:+ String c rest) = w :: Py.split_on c rest.
Proof.
  induction w as [|d w IH]; intros H.
  - simpl. change ("" +:+ String c rest) with (String c rest). simpl.
    by rewrite Ascii.eqb_refl.
  - simpl in H. apply andb_true_iff in H as [Hd Hw]. apply negb_true_iff in Hd.
    rewrite append_cons. simpl. by rewrite Hd, (IH Hw).
Qed.

Lemma split_on_join c ws :
  ws <> [] -> Forall (fun w => free_of c w = true) ws ->
  Py.split_on c (Py.join (String c "") ws) = ws.
Proof.
  induction ws as [|w ws IH]; [done|]. intros _ Hall.
  inversion Hall as [|? ? Hw Hws]; subst.
  destruct ws as [|w' ws].
  - simpl. by apply split_on_one.
  - change (Py.join (String c "") (w :: w' :: ws))
      with (w +:+ String c "" +:+ Py.join (String c "") (w' :: ws)).
    change (String c "" +:+ ?x) with (String c x).
    rewrite (split_on_app c w _ Hw). f_equal. by apply IH.
Qed.

Lemma free_of_app c s t :
  free_of c (s +:+ t) = free_of c s && free_of c t.
Proof.
  induction s as [|d s IH]; [done|].
  rewrite append_cons. simpl. by rewrite IH, andb_assoc.
Qed.

Lemma free_of_drop c n s : free_of c s = true -> free_of c (Py.drop n s) = true.
Proof.
  revert s. induction n as [|n IH]; intros [|d s] H; try done.
  simpl in *. apply andb_true_iff in H as [_ H]. by apply IH.
Qed.

(** [str(n)] is made of digits: a character that is no digit does not
    occur in it. *)
Lemma str_of_uint_digits c d :
  Py.isdigit c = false -> free_of c (NilEmpty.string_of_uint d) = true.
Proof.
  intros Hc.
  assert (Hne : forall e, Py.isdigit e = true -> Ascii.eqb e c = false).
  { intros e He. destruct (Ascii.eqb_spec e c) as [->|]; [congruence|done]. }
  induction d; cbn [NilEmpty.string_of_uint free_of]; [done|..];
    rewrite IHd, Hne by done; done.
Qed.

Lemma str_of_nat_digits c n :
  Py.isdigit c = false -> free_of c (Py.str_of_nat n) = true.
Proof. apply str_of_uint_digits. Qed.

(** A numbered line is no bullet line. *)
Lemma numbered_not_bullet n rest :
  Py.startswith "- " (Py.str_of_nat n +:+ ". " +:+ rest) = false.
Proof.
  pose proof (str_of_nat_digits "-" n eq_refl) as H.
  destruct (Py.str_of_nat n) as [|d s]; [done|].
  simpl in H. apply andb_true_iff in H as [Hd _]. apply negb_true_iff in Hd.
  rewrite append_cons. unfold Py.startswith. cbn [String.prefix].
  destruct (ascii_dec "-" d) as [<-|]; [done|done].
Qed.

Lemma numbered_free n rest :
  free_of "010" rest = true ->
  free_of "010" (Py.str_of_nat n +:+ ". " +:+ rest) = true.
Proof.
  intros H. rewrite !free_of_app, H, (str_of_nat_digits "010" n eq_refl). done.
Qed.

(** The loop of [convert_list_style] emits one line per line, keeps the
    lines free of line breaks, and leaves no bullet line. *)
Lemma number_lines_shape lines :
  forall acc n,
    exists out,
      (foldl Server.number_line (acc, n) lines).1 = acc ++ out
      /\ length out = length lines
      /\ Forall (fun l => Py.startswith "- " l = false) out
      /\ (Forall (fun l => free_of "010" l = true) lines ->
          Forall (fun l => free_of "010" l = true) out).
Proof.
  induction lines as [|line lines IH]; intros acc n.
  - exists []. simpl. by rewrite app_nil_r.
  - cbn [foldl]. unfold Server.number_line at 2. cbn [fst snd].
    destruct (Py.startswith "- " line) eqn:Hb.
    + destruct (IH (acc ++ [Py.str_of_nat n +:+ ". " +:+ Py.drop 2 line]) (n + 1))
        as (out & -> & Hlen & Hnb & Hfree).
      exists ((Py.str_of_nat n +:+ ". " +:+ Py.drop 2 line) :: out).
      rewrite <- app_assoc. split; [done|]. split; [simpl; lia|].
      split.
      * constructor; [apply numbered_not_bullet | done].
      * intros Hall. inversion Hall; subst. constructor; [|by apply Hfree].
        apply numbered_free. by apply free_of_drop.
    + destruct (IH (acc ++ [line]) 1) as (out & -> & Hlen & Hnb & Hfree).
      exists (line :: out). rewrite <- app_assoc.
      split; [done|]. split; [simpl; lia|]. split.
      * by constructor.
      * intros Hall. inversion Hall; subst. constructor; [done | by apply Hfree].
Qed.

Lemma number_lines_no_bullet lines :
  Forall (fun l => Py.startswith "- " l = false) lines ->
  forall acc n, (foldl Server.number_line (acc, n) lines).1 = acc ++ lines.
Proof.
  induction 1 as [|line lines Hb _ IH]; intros acc n.
  - simpl. by rewrite app_nil_r.
  - cbn [foldl]. unfold Server.number_line at 2. cbn [fst snd].
    rewrite Hb, IH, <- app_assoc. done.
Qed.

Lemma number_lines_bullets items :
  forall acc n,
    (foldl Server.number_line (acc, n) ((fun item => "- " +:+ item) <$> items)).1
    = acc ++ numbered_from n items.
Proof.
  induction items as [|item items IH]; intros acc n.
  - simpl. by rewrite app_nil_r.
  - cbn [fmap list_fmap foldl]. unfold Server.number_line at 2. cbn [fst snd].
    change (Py.startswith "- " ("- " +:+ item)) with
      (String.prefix "" item).
    assert (String.prefix "" item = true) as -> by (by destruct item).
    change (Py.drop 2 ("- " +:+ item)) with item.
    rewrite IH, <- app_assoc. simpl. by rewrite Nat.add_1_r.
Qed.

Lemma convert_numbered text :
  Server.convert_list_style text "numbered"
  = Py.join (String "010" "")
      (foldl Server.number_line ([], 1) (Py.split_on "010" text)).1.
Proof. done. Qed.

(** X19: list-style conversion leaves every text alone that it has no
    business with: under any style but ["numbered"], and under
    ["numbered"] when no line starts with a dash and a blank. *)
Theorem convert_list_style_leaves_other_text (text style : string) :
  style <> "numbered"
  \/ Forall (fun l => Py.startswith "- " l = false) (Py.split_on "010" text) ->
  Server.convert_list_style text style = text.
Proof.
  intros H. unfold Server.convert_list_style.
  destruct (String.eqb_spec style "numbered") as [->|Hne]; [|done].
  simpl. destruct H as [H|H]; [done|].
  rewrite (number_lines_no_bullet _ H). simpl. apply join_split_on.
Qed.

Lemma convert_list_style_leaves_other_text_witness :
  Server.convert_list_style (String "a" (String "010" "b - c")) "numbered"
  = String "a" (String "010" "b - c").
Proof.
  apply convert_list_style_leaves_other_text. right.
  repeat constructor.
Defined.

(** X20: list-style conversion works line by line and is idempotent: the
    text it returns has as many lines as its input, none of them starts
    with a dash and a blank under ["numbered"], and converting again
    changes nothing. *)
Theorem convert_list_style_idempotent (text style : string) :
  length (Py.split_on "010" (Server.convert_list_style text style))
  = length (Py.split_on "010" text)
  /\ Forall (fun l => Py.startswith "- " l = false)
       (Py.split_on "010" (Server.convert_list_style text "numbered"))
  /\ Server.convert_list_style (Server.convert_list_style text style) style
     = Server.convert_list_style text style.
Proof.
  destruct (number_lines_shape (Py.split_on "010" text) [] 1)
    as (out & Hout & Hlen & Hnb & Hfree).
  assert (Hne : out <> []).
  { intros ->. pose proof (split_on_nonempty "010" text).
    destruct (Py.split_on "010" text); [done | simpl in Hlen; lia]. }
  specialize (Hfree (split_on_free _ _)).
  assert (Hsplit : Py.split_on "010" (Py.join (String "010" "") out) = out)
    by (by apply split_on_join).
  assert (Hconv : Server.convert_list_style text "numbered"
                  = Py.join (String "010" "") out)
    by (by rewrite convert_numbered, Hout).
  split; [|split].
  - destruct (String.eqb_spec style "numbered") as [->|Hstyle].
    + by rewrite Hconv, Hsplit.
    + unfold Server.convert_list_style.
      by destruct (String.eqb_spec style "numbered").
  - by rewrite Hconv, Hsplit.
  - destruct (String.eqb_spec style "numbered") as [->|Hstyle].
    + rewrite Hconv, convert_numbered, Hsplit,
        (number_lines_no_bullet _ Hnb). done.
    + unfold Server.convert_list_style.
      by destruct (String.eqb_spec style "numbered").
Qed.

(** X21: under ["numbered"] a text made of bullet lines only comes back
    with its items numbered from one, in order, each item as it was. *)
Theorem bullet_list_is_numbered (items : list string) :
  Forall (fun item => free_of "010" item = true) items ->
  Server.convert_list_style
    (Py.join (String "010" "") ((fun item => "- " +:+ item) <$> items))
    "numbered"
  = Py.join (String "010" "") (numbered_from 1 items).
Proof.
  intros Hfree. rewrite convert_numbered.
  destruct items as [|item items]; [done|].
  rewrite split_on_join.
  - by rewrite number_lines_bullets.
  - done.
  - apply Forall_fmap. eapply Forall_impl; [exact Hfree|].
    intros w Hw. simpl. by rewrite free_of_app, Hw.
Qed.

Lemma bullet_list_is_numbered_witness :
  Server.convert_list_style (String "-" (String " " (String "a" (String "010" "- b")))) "numbered"
  = String "1" (String "." (String " " (String "a" (String "010" "2. b")))).
Proof.
  apply (bullet_list_is_numbered ["a"; "b"]). repeat constructor.
Defined.

(* ===================================================================== *)
(** * SpanClassifier: the verdict in whole numbers *)
(* ===================================================================== *)

Lemma half_le_quotient (a b : nat) :
  0 < b ->
  (1 # 2 <= TrainRepetitionOnly.nat_to_Q a / TrainRepetitionOnly.nat_to_Q b)%Q
  <-> b <= 2 * a.
Proof.
  intros Hb. unfold TrainRepetitionOnly.nat_to_Q, Qdiv, Qinv, Qmult, Qle, inject_Z.
  cbn [Qnum Qden].
  destruct (Z.of_nat b) as [|p|p] eqn:E; [lia| |lia].
  cbn [Qnum Qden]. rewrite Pos2Z.inj_mul. lia.
Qed.

Lemma scan_ignores_case words :
  forall tags st,
    foldl TrainRepetitionOnly.scan_step st (zip (Py.lower <$> words) tags)
    = foldl TrainRepetitionOnly.scan_step st (zip words tags).
Proof.
  induction words as [|w words IH]; intros [|t tags] st; try done.
  cbn [fmap list_fmap zip zip_with foldl]. rewrite IH. f_equal.
  unfold TrainRepetitionOnly.scan_step. cbn [fst snd].
  by rewrite lower_idemp.
Qed.

(** X7: the two Switchboard tag converters are the same function, with
    values among the three labels.  The tags that [is_repetition] counts
    as reparandum are marked for removal and the tags it counts as fluent
    are kept; the tags [IP], [C_IE] and [C_IP] are marked for removal
    though [is_repetition] counts them as neither. *)
Theorem converters_agree (tag : string) :
  TrainRepetitionOnly.convert_tag tag = TrainRepetition.convert_switchboard_tag tag
  /\ TrainRepetitionOnly.convert_tag tag ∈ TrainRepetitionOnly.LABEL_LIST
  /\ (TrainRepetitionOnly.is_reparandum_tag tag = true ->
      TrainRepetitionOnly.convert_tag tag <> "O"%string)
  /\ (TrainRepetitionOnly.is_fluent_tag tag = true ->
      TrainRepetitionOnly.convert_tag tag = "O"%string)
  /\ (TrainRepetitionOnly.convert_tag tag <> "O"%string
      /\ TrainRepetitionOnly.is_reparandum_tag tag = false
      <-> tag ∈ ["IP"; "C_IE"; "C_IP"]%string).
Proof.
  split; [done|]. split; [apply convert_tag_in|].
  split; [apply convert_tag_reparandum|]. split.
  - unfold TrainRepetitionOnly.is_fluent_tag, TrainRepetitionOnly.convert_tag.
    intros Ht%bool_decide_eq_true. rewrite !elem_of_cons in Ht.
    destruct Ht as [-> | [-> | Ht]]; [done | done |].
    by apply elem_of_nil in Ht.
  - unfold TrainRepetitionOnly.is_reparandum_tag, TrainRepetitionOnly.convert_tag.
    split.
    + intros [Hmark Hrep]. apply bool_decide_eq_false in Hrep.
      rewrite !elem_of_cons in Hrep.
      repeat case_bool_decide; try done.
      * exfalso. rewrite !elem_of_cons in *. tauto.
      * rewrite !elem_of_cons in *. tauto.
    + rewrite !elem_of_cons. intros [-> | [-> | [-> | Ht]]];
        [done | done | done |]. by apply elem_of_nil in Ht.
Qed.

(** X22: on ASCII words the verdict of [is_repetition] does not depend on
    the case of the words: on the lower-cased tokens that the loader
    stores, which are ASCII too, it gives what it gave on the words as
    read. *)
Theorem is_repetition_ignores_case (words tags : list string) :
  Forall (fun w => Py.isascii w = true) words ->
  Forall (fun w => Py.isascii w = true) (Py.lower <$> words)
  /\ TrainRepetitionOnly.is_repetition (Py.lower <$> words) tags
     = TrainRepetitionOnly.is_repetition words tags.
Proof.
  intros Hascii. split.
  - apply Forall_fmap. eapply Forall_impl; [exact Hascii|].
    intros w Hw. by apply isascii_lower.
  - unfold TrainRepetitionOnly.is_repetition. cbv zeta.
    by rewrite scan_ignores_case.
Qed.

Lemma is_repetition_ignores_case_witness :
  TrainRepetitionOnly.is_repetition
    (Py.lower <$> ["To"; "to"; "GO"]%string) ["BE"; "O"; "O"]%string
  = TrainRepetitionOnly.is_repetition
      ["To"; "to"; "GO"]%string ["BE"; "O"; "O"]%string.
Proof.
  destruct (is_repetition_ignores_case
              ["To"; "to"; "GO"]%string ["BE"; "O"; "O"]%string)
    as [_ Heq]; [repeat constructor | exact Heq].
Defined.

(** X23: the verdict of [is_repetition] in whole numbers.  When there is a
    reparandum word, the example is a repetition exactly when the distinct
    reparandum words are at most twice as many as those of them found in
    the window; so it is one when every reparandum word recurs in the
    window, and it is none when no reparandum word does. *)
Theorem repetition_verdict_counts_words (words tags : list string) :
  (TrainRepetitionOnly.is_repetition words tags).1.2 <> [] ->
  let r := TrainRepetitionOnly.is_repetition words tags in
  let rep_set : gset string := list_to_set r.1.2 in
  let window : gset string := list_to_set (take (length r.1.2 + 3) r.2) in
  (r.1.1 = true <-> size rep_set <= 2 * size (rep_set ∩ window))
  /\ (rep_set ⊆ window -> r.1.1 = true)
  /\ (rep_set ## window -> r.1.1 = false).
Proof.
  unfold TrainRepetitionOnly.is_repetition. cbv zeta.
  set (st := foldl _ _ _).
  destruct (TrainRepetitionOnly.reparandum_words st) as [|w rep] eqn:Hrep;
    [done|]. intros _. cbn [fst snd]. rewrite <- Hrep.
  set (A := list_to_set (TrainRepetitionOnly.reparandum_words st) : gset string).
  set (B := list_to_set (take _ _) : gset string).
  assert (Hpos : 0 < size A).
  { assert (w ∈ A) as Hw by (subst A; rewrite Hrep; set_solver).
    destruct (size A) eqn:Hs; [|lia].
    apply size_empty_inv in Hs. set_solver. }
  assert (Hiff : Qle_bool TrainRepetitionOnly.OVERLAP_THRESHOLD
                   (TrainRepetitionOnly.overlap_ratio A B) = true
                 <-> size A <= 2 * size (A ∩ B)).
  { unfold TrainRepetitionOnly.overlap_ratio, TrainRepetitionOnly.OVERLAP_THRESHOLD.
    destruct (Nat.eqb_spec (size A) 0) as [?|_]; [lia|].
    rewrite Qle_bool_iff. by apply half_le_quotient. }
  split; [exact Hiff|]. split.
  - intros Hsub. apply Hiff.
    rewrite (subseteq_intersection_1_L A B Hsub). lia.
  - intros Hdisj. apply not_true_is_false. rewrite Hiff.
    apply disjoint_intersection_L in Hdisj. rewrite Hdisj, size_empty. lia.
Qed.

Lemma repetition_verdict_counts_words_witness :
  (TrainRepetitionOnly.is_repetition
     ["to"; "To"; "go"]%string ["BE"; "O"; "O"]%string).1.1 = true.
Proof.
  refine (proj1 (proj2 (repetition_verdict_counts_words
            ["to"; "To"; "go"]%string ["BE"; "O"; "O"]%string _)) _).
  - vm_compute. discriminate.
  - change (list_to_set ["to"%string]
            ⊆@{gset string} list_to_set ["to"; "go"]%string).
    intros x Hx. apply elem_of_list_to_set in Hx.
    apply elem_of_list_to_set. apply list_elem_of_singleton in Hx as ->.
    by left.
Defined.

(* ===================================================================== *)
(** * The server: single-stage requests and the health report *)
(* ===================================================================== *)

Lemma run_model_runs MODELS requested post st name :
  name ∈ requested ->
  Server.run_model MODELS requested post st name
  = match MODELS !! name with
    | Some m =>
        match Server.model_process m st.1 with
        | Some text => (post text, st.2 ++ [name])
        | None => st
        end
    | None => st
    end.
Proof.
  intros Hname. unfold Server.run_model.
  by rewrite bool_decide_eq_true_2.
Qed.

Ltac skip_stage n :=
  rewrite (run_model_skips _ _ _ _ n)
    by (let Hin := fresh in
        intros Hin; apply list_elem_of_singleton in Hin; discriminate).

Ltac enter_stage n :=
  rewrite (run_model_runs _ _ _ _ n) by (apply list_elem_of_singleton; reflexivity).

(** X24: a request to [process] that names one stage agrees with
    [process_single] for that stage.  Where [process_single] answers with a
    text, [process] returns the same text and reports the stage as
    applied, for the list stage after the list-style conversion; where
    [process_single] answers 404 or 500, [process] returns the text as it
    came and reports no stage. *)
Theorem single_stage_request_agrees (MODELS : gmap string Server.server_model)
    (name list_style text : string) :
  name ∈ ["truecase"; "filler"; "repetition"; "repair"; "list"]%string ->
  Server.process MODELS (Some [name]) list_style text
  = match Server.process_single MODELS name text with
    | Server.Ok result =>
        (if String.eqb name "list"
         then Server.convert_list_style result list_style else result,
         [name])
    | _ => (text, [])
    end.
Proof.
  intros Hname. unfold Server.process, Server.process_single.
  cbn [default]. unfold Server.DISFLUENCY_ORDER. cbn [foldl].
  rewrite !elem_of_cons in Hname.
  destruct Hname as [-> | [-> | [-> | [-> | [-> | Hname]]]]];
    [| | | | | by apply elem_of_nil in Hname].
  - skip_stage "list"%string. skip_stage "repair"%string.
    skip_stage "repetition"%string. skip_stage "filler"%string.
    enter_stage "truecase"%string. cbn [fst snd String.eqb].
    destruct (MODELS !! "truecase"%string) as [m|]; [|done].
    by destruct (Server.model_process m text).
  - skip_stage "list"%string. skip_stage "repair"%string.
    skip_stage "repetition"%string. skip_stage "truecase"%string.
    enter_stage "filler"%string. cbn [fst snd].
    destruct (MODELS !! "filler"%string) as [m|]; [|done].
    by destruct (Server.model_process m text).
  - skip_stage "list"%string. skip_stage "repair"%string.
    skip_stage "filler"%string. skip_stage "truecase"%string.
    enter_stage "repetition"%string. cbn [fst snd].
    destruct (MODELS !! "repetition"%string) as [m|]; [|done].
    by destruct (Server.model_process m text).
  - skip_stage "list"%string. skip_stage "repetition"%string.
    skip_stage "filler"%string. skip_stage "truecase"%string.
    enter_stage "repair"%string. cbn [fst snd].
    destruct (MODELS !! "repair"%string) as [m|]; [|done].
    by destruct (Server.model_process m text).
  - skip_stage "repair"%string. skip_stage "repetition"%string.
    skip_stage "filler"%string. skip_stage "truecase"%string.
    enter_stage "list"%string. cbn [fst snd].
    destruct (MODELS !! "list"%string) as [m|]; [|done].
    by destruct (Server.model_process m text).
Qed.

Lemma single_stage_request_agrees_witness :
  Server.process Example.MODELS (Some ["filler"%string]) "bullets" "i uh think"
  = match Server.process_single Example.MODELS "filler" "i uh think" with
    | Server.Ok result => (result, ["filler"%string])
    | _ => ("i uh think"%string, [])
    end.
Proof.
  apply (single_stage_request_agrees Example.MODELS "filler").
  rewrite !elem_of_cons. right. by left.
Defined.

Lemma load_models_fold (env : Server.environment)
    (reg : list (string * Models.available_class)) :
  forall (st : gmap string Server.server_model * list string) (name : string),
    let r := foldl (fun (st : gmap string Server.server_model * list string)
                        (entry : string * Models.available_class) =>
                      match Server.instantiate env entry.2 with
                      | Some m => (<[entry.1 := m]> st.1, st.2)
                      | None => (st.1, st.2 ++ [entry.1])
                      end) st reg in
    (is_Some (r.1 !! name)
     <-> is_Some (st.1 !! name)
         \/ exists cls, (name, cls) ∈ reg /\ is_Some (Server.instantiate env cls))
    /\ (name ∈ r.2
        <-> name ∈ st.2
            \/ exists cls, (name, cls) ∈ reg /\ Server.instantiate env cls = None).
Proof.
  induction reg as [|[n c] reg IH]; intros st name; cbn [foldl].
  - cbv zeta. split; (split; [by left | intros [H | (cls & H & _)]; [done|]]);
      by apply elem_of_nil in H.
  - cbv zeta. cbn [fst snd].
    destruct (Server.instantiate env c) as [m|] eqn:Hc.
    + destruct (IH (<[n := m]> st.1, st.2) name) as [IH1 IH2].
      cbv zeta in IH1, IH2. cbn [fst snd] in IH1, IH2. split.
      * rewrite IH1. split.
        -- intros [Hin | (cls & Hin & Hsome)].
           ++ destruct (decide (n = name)) as [->|Hne].
              ** right. exists c. split; [by left | by rewrite Hc].
              ** left. by rewrite lookup_insert_ne in Hin.
           ++ right. exists cls. split; [by right | done].
        -- intros [Hin | (cls & Hin & Hsome)].
           ++ left. destruct (decide (n = name)) as [->|Hne].
              ** by rewrite lookup_insert_eq.
              ** by rewrite lookup_insert_ne.
           ++ apply elem_of_cons in Hin as [Heq | Hin].
              ** inversion Heq; subst. left. by rewrite lookup_insert_eq.
              ** right. by exists cls.
      * rewrite IH2. split.
        -- intros [Hin | (cls & Hin & Hnone)]; [by left|].
           right. exists cls. split; [by right | done].
        -- intros [Hin | (cls & Hin & Hnone)]; [by left|].
           apply elem_of_cons in Hin as [Heq | Hin].
           ++ inversion Heq; subst. rewrite Hc in Hnone. done.
           ++ right. by exists cls.
    + destruct (IH (st.1, st.2 ++ [n]) name) as [IH1 IH2].
      cbv zeta in IH1, IH2. cbn [fst snd] in IH1, IH2. split.
      * rewrite IH1. split.
        -- intros [Hin | (cls & Hin & Hsome)]; [by left|].
           right. exists cls. split; [by right | done].
        -- intros [Hin | (cls & Hin & Hsome)]; [by left|].
           apply elem_of_cons in Hin as [Heq | Hin].
           ++ inversion Heq; subst. rewrite Hc in Hsome. by destruct Hsome.
           ++ right. by exists cls.
      * rewrite IH2, elem_of_app, list_elem_of_singleton. split.
        -- intros [[Hin | ->] | (cls & Hin & Hnone)].
           ++ by left.
           ++ right. exists c. split; [by left | done].
           ++ right. exists cls. split; [by right | done].
        -- intros [Hin | (cls & Hin & Hnone)]; [left; by left|].
           apply elem_of_cons in Hin as [Heq | Hin].
           ++ inversion Heq; subst. left. by right.
           ++ right. by exists cls.
Qed.

Lemma registry_class name cls cls' :
  (name, cls) ∈ Models.AVAILABLE_MODELS ->
  (name, cls') ∈ Models.AVAILABLE_MODELS -> cls = cls'.
Proof.
  unfold Models.AVAILABLE_MODELS. rewrite !elem_of_cons.
  intros H H'.
  repeat match goal with
    | H : _ \/ _ |- _ => destruct H as [H | H]
    | H : _ ∈ [] |- _ => by apply elem_of_nil in H
    end; congruence.
Qed.

(** X25: what [health] reports after [load_models].  Every name of the
    registry is reported once, as loaded when its class could be
    instantiated and as failed when it could not; no other name is
    reported, and the two lists share no name.  [process_single] answers
    404 for every name that is not reported as loaded. *)
Theorem health_partitions_registry (env : Server.environment)
    (name text : string) :
  let MODELS := (Server.load_models env).1 in
  let LOAD_ERRORS := (Server.load_models env).2 in
  (name ∈ Server.models_loaded MODELS
   <-> exists cls, (name, cls) ∈ Models.AVAILABLE_MODELS
                   /\ is_Some (Server.instantiate env cls))
  /\ (name ∈ LOAD_ERRORS
      <-> exists cls, (name, cls) ∈ Models.AVAILABLE_MODELS
                      /\ Server.instantiate env cls = None)
  /\ (name ∈ Server.models_loaded MODELS \/ name ∈ LOAD_ERRORS
      <-> name ∈ Models.AVAILABLE_MODELS.*1)
  /\ ~ (name ∈ Server.models_loaded MODELS /\ name ∈ LOAD_ERRORS)
  /\ (name ∉ Server.models_loaded MODELS ->
      Server.process_single MODELS name text = Server.NotFound).
Proof.
  cbv zeta. unfold Server.models_loaded. rewrite elem_of_dom.
  destruct (load_models_fold env Models.AVAILABLE_MODELS (∅, []) name)
    as [H1 H2].
  cbv zeta in H1, H2. cbn [fst snd] in H1, H2.
  fold (Server.load_models env) in H1, H2.
  assert (Hloaded : is_Some ((Server.load_models env).1 !! name)
                    <-> exists cls, (name, cls) ∈ Models.AVAILABLE_MODELS
                                    /\ is_Some (Server.instantiate env cls)).
  { rewrite H1. split; [|by right].
    intros [H | H]; [|done]. rewrite lookup_empty in H. by destruct H. }
  assert (Hfailed : name ∈ (Server.load_models env).2
                    <-> exists cls, (name, cls) ∈ Models.AVAILABLE_MODELS
                                    /\ Server.instantiate env cls = None).
  { rewrite H2. split; [|by right].
    intros [H | H]; [|done]. by apply elem_of_nil in H. }
  split; [exact Hloaded|]. split; [exact Hfailed|]. split; [|split].
  - rewrite Hloaded, Hfailed, list_elem_of_fmap. split.
    + intros [(cls & Hin & _) | (cls & Hin & _)]; by exists (name, cls).
    + intros ([n cls] & -> & Hin). cbn [fst].
      destruct (Server.instantiate env cls) eqn:Hc.
      * left. exists cls. split; [done | by rewrite Hc].
      * right. by exists cls.
  - rewrite Hloaded, Hfailed.
    intros [(cls & Hin & Hsome) (cls' & Hin' & Hnone)].
    rewrite (registry_class _ _ _ Hin Hin'), Hnone in Hsome.
    by destruct Hsome.
  - intros Hnot. unfold Server.process_single.
    destruct ((Server.load_models env).1 !! name) eqn:Hm; [|done].
    exfalso. apply Hnot. rewrite ?Hm. by eexists.
Qed.

(* ===================================================================== *)
(** * The order in which the stages run *)
(* ===================================================================== *)

Lemma init_runs_in_order load ef er ep cm models text :
  cm = None \/ cm = Some [] ->
  Pipeline.__init__ load ef er ep cm = Some models ->
  Pipeline.process models text
  = foldl (run_stage load) (Some text)
      (filter (fun c => enabled_by ef er ep c = true) STAGE_ORDER).
Proof.
  intros Hcm Hinit.
  assert (Pipeline.__init__ load ef er ep cm = Pipeline.__init__ load ef er ep None) as Heq
    by (by destruct Hcm as [-> | ->]).
  rewrite Heq in Hinit. clear Heq Hcm.
  unfold STAGE_ORDER. rewrite !(filter_pick (enabled_by ef er ep)), filter_nil.
  unfold Pipeline.__init__, Pipeline.append_if in Hinit.
  unfold Pipeline.process, run_stage.
  destruct ef, er, ep; simpl in Hinit; simpl;
    repeat match type of Hinit with
      | context [Pipeline.construct load ?c] =>
          destruct (Pipeline.construct load c) eqn:?; simpl in Hinit
      end;
    simplify_eq; simpl;
    repeat match goal with
      | |- context [Models.process ?m ?t] =>
          destruct (Models.process m t); simpl
      end; done.
Qed.

Lemma run_model_effect MODELS requested list_style text0 st name :
  st.1 = foldl (stage_effect MODELS list_style) text0 st.2 ->
  let st' := Server.run_model MODELS requested
               (if String.eqb name "list"
                then fun text => Server.convert_list_style text list_style
                else id) st name in
  st'.1 = foldl (stage_effect MODELS list_style) text0 st'.2.
Proof.
  intros Hst. cbv zeta. unfold Server.run_model.
  destruct (bool_decide (name ∈ requested)); [|done].
  destruct (MODELS !! name) as [m|] eqn:Hm; [|done].
  destruct (Server.model_process m st.1) as [result|] eqn:Hrun; [|done].
  cbn [fst snd]. rewrite foldl_app. cbn [foldl]. rewrite <- Hst.
  unfold stage_effect. rewrite Hm, Hrun. by destruct (String.eqb name "list").
Qed.

Lemma server_text_from_applied MODELS models list_style text :
  (Server.process MODELS models list_style text).1
  = foldl (stage_effect MODELS list_style) text
      (Server.process MODELS models list_style text).2.
Proof.
  unfold Server.process. cbv zeta. unfold Server.DISFLUENCY_ORDER. cbn [foldl].
  apply (run_model_effect MODELS _ list_style text _ "list").
  apply (run_model_effect MODELS _ list_style text _ "repair").
  apply (run_model_effect MODELS _ list_style text _ "repetition").
  apply (run_model_effect MODELS _ list_style text _ "filler").
  apply (run_model_effect MODELS _ list_style text _ "truecase").
  done.
Qed.

Lemma run_model_request MODELS r1 r2 post st name :
  (forall name, name ∈ r1 <-> name ∈ r2) ->
  Server.run_model MODELS r1 post st name = Server.run_model MODELS r2 post st name.
Proof.
  intros Hsame. unfold Server.run_model.
  by rewrite (bool_decide_ext _ _ (Hsame name)).
Qed.

Lemma server_request_order MODELS r1 r2 list_style text :
  (forall name, name ∈ r1 <-> name ∈ r2) ->
  Server.process MODELS (Some r1) list_style text
  = Server.process MODELS (Some r2) list_style text.
Proof.
  intros Hsame. unfold Server.process. cbn [default].
  unfold Server.DISFLUENCY_ORDER. cbn [foldl].
  by rewrite !(run_model_request MODELS r1 r2 _ _ _ Hsame).
Qed.

(** C8, amended: a pipeline built from the enable flags (no custom list,
    or an empty one) holds the enabled stages in the order filler,
    repetition, repair, is built whenever their models are found, and
    [process] runs them in that order, each on the text the one before it
    returned.  The recorded steps name the stages in the order the
    pipeline holds them, and each step starts from the output of the step
    before it.  A non-empty custom list is taken as it is and run from its
    first stage on.  The request handler applies a subsequence of
    truecase, filler, repetition, repair, list: the requested and loaded
    stages, all of them when no stage raises; the text it returns is the
    input passed through the applied stages one after the other in that
    order; and two requests that name the same stages, in whatever order,
    get the same answer. *)
Theorem stages_run_in_fixed_order
    (load : Models.model_class -> option Models.capability)
    (enable_fillers enable_repetitions enable_repairs : bool)
    (custom_models : option (list Models.BaseModel))
    (MODELS : gmap string Server.server_model)
    (requested : option (list string)) (list_style text : string) :
  (custom_models = None \/ custom_models = Some [] ->
   (forall models,
      Pipeline.__init__ load enable_fillers enable_repetitions enable_repairs
        custom_models = Some models ->
      Models.class_of <$> models
      = filter (fun c => enabled_by enable_fillers enable_repetitions
                           enable_repairs c = true) STAGE_ORDER
      /\ Pipeline.process models text
         = foldl (run_stage load) (Some text)
             (filter (fun c => enabled_by enable_fillers enable_repetitions
                                 enable_repairs c = true) STAGE_ORDER))
   /\ ((forall c, enabled_by enable_fillers enable_repetitions enable_repairs c
                  = true -> is_Some (load c)) ->
       is_Some (Pipeline.__init__ load enable_fillers enable_repetitions
                  enable_repairs custom_models)))
  /\ (forall models report,
        Pipeline.process_with_details models text = Some report ->
        Pipeline.step_model <$> Pipeline.steps report
        = Pipeline.model_names models
        /\ chained text (Pipeline.steps report) (Pipeline.report_output report))
  /\ (forall m ms,
        Pipeline.__init__ load enable_fillers enable_repetitions enable_repairs
          (Some (m :: ms)) = Some (m :: ms)
        /\ Pipeline.process (m :: ms) text
           = (r ← Models.process m text; Pipeline.process ms r))
  /\ sublist (Server.process MODELS requested list_style text).2
       (filter (fun name =>
                  server_enabled MODELS
                    (default Server.DEFAULT_MODELS requested) name = true)
               SERVER_ORDER)
  /\ (never_raises MODELS ->
      (Server.process MODELS requested list_style text).2
      = filter (fun name =>
                  server_enabled MODELS
                    (default Server.DEFAULT_MODELS requested) name = true)
               SERVER_ORDER)
  /\ (Server.process MODELS requested list_style text).1
     = foldl (stage_effect MODELS list_style) text
         (Server.process MODELS requested list_style text).2
  /\ (forall r1 r2 : list string,
        (forall name, name ∈ r1 <-> name ∈ r2) ->
        Server.process MODELS (Some r1) list_style text
        = Server.process MODELS (Some r2) list_style text).
Proof.
  split; [|split; [|split; [|split; [|split; [|split]]]]].
  - intros Hcm. split.
    + intros models Hinit. split.
      * by apply (init_from_flags load _ _ _ custom_models).
      * by apply (init_runs_in_order load _ _ _ custom_models).
    + apply init_returns.
  - intros models report Hrun.
    destruct (report_chains models text report Hrun) as (_ & Hchain & Hnames & _).
    by split.
  - intros m ms. split; [done | apply pipeline_process_cons].
  - apply server_order.
  - apply server_order.
  - apply server_text_from_applied.
  - intros r1 r2. apply server_request_order.
Qed.

Lemma stages_run_in_fixed_order_witness :
  Pipeline.process
    [{| Models.class_of := Models.FillerRemover;
        Models.loaded := Models.loaded Example.filler_model |};
     {| Models.class_of := Models.RepairRemover;
        Models.loaded := Models.loaded Example.filler_model |}] "i uh think"
  = Some "i think"
  /\ Server.process Example.MODELS
       (Some ["repair"; "repetition"; "filler"; "truecase"]%string)
       "bullets" "i uh think"
     = ("i think"%string, ["truecase"; "filler"; "repetition"]%string).
Proof.
  pose proof (stages_run_in_fixed_order
                (fun _ => Some (Models.loaded Example.filler_model))
                true false true None Example.MODELS
                (Some ["repair"; "repetition"; "filler"; "truecase"]%string)
                "bullets" "i uh think")
    as (Hflags & _ & _ & _ & Hserver & Htext & _).
  split.
  - destruct (Hflags (or_introl eq_refl)) as [Hinit _].
    destruct (Hinit [{| Models.class_of := Models.FillerRemover;
                        Models.loaded := Models.loaded Example.filler_model |};
                     {| Models.class_of := Models.RepairRemover;
                        Models.loaded := Models.loaded Example.filler_model |}]
                eq_refl) as [_ Hrun].
    rewrite Hrun. reflexivity.
  - specialize (Hserver example_models_never_raise).
    rewrite (surjective_pairing (Server.process _ _ _ _)).
    rewrite Htext, Hserver. reflexivity.
Defined.
